(** * Data-cleaning pipeline (scripts/data_cleaning.py): a shallow embedding

    The script is a chain of pandas / scikit-learn calls.  The embedding keeps
    the shape of the script: one Rocq function per Python function, with the
    library calls the script makes modelled next to them.

    Modelling conventions.
    - A float64/int64 value is an exact rational ([Q]); a missing value (NaN)
      is [None].  Rounding, infinities and overflow are outside the model;
      of the values that scaling produces, only what rounding leaves intact
      is stated (which cells are missing, the order of the values).
    - A text is a [string] holding the bytes of its UTF-8 encoding.  What
      works character by character ([strip], [upper], [replace], the classes
      [\w] and [\d]) is defined on the characters of the text: on ASCII as
      Python defines it, on any other character by tables of the library.
    - A [DataFrame] carries its row labels (the pandas index) and an ordered
      list of named columns; a column is numeric ([NumCol]) or of dtype object
      ([ObjCol]).
    - What the script does not determine is a field of the class [Library]:
      the numeric parser behind [pd.to_numeric], the text of a number and of
      a missing value under [astype(str)], [np.sqrt], the character tables
      of Python outside ASCII, and the CSV reader and writer.
    - A Python exception is the [Raise] result of a stage. *)

From Stdlib Require Import List String Ascii Bool Arith ZArith QArith Lia Lqa.
From Stdlib Require Import Qround DecimalString Sorted.
Import ListNotations.

Local Open Scope string_scope.
Local Open Scope list_scope.
Local Open Scope nat_scope.

(* ================================================================= *)
(** ** Text primitives *)

Module Text.

(** *** ASCII

    [str.isspace] on ASCII: TAB..CR, FS..US and the blank. *)
Definition is_space (c : ascii) : bool :=
  let n := nat_of_ascii c in
  ((9 <=? n) && (n <=? 13)) || ((28 <=? n) && (n <=? 32)).

Definition is_lower (c : ascii) : bool :=
  let n := nat_of_ascii c in (97 <=? n) && (n <=? 122).

Definition is_upper (c : ascii) : bool :=
  let n := nat_of_ascii c in (65 <=? n) && (n <=? 90).

(** The class [\d]. *)
Definition is_digit (c : ascii) : bool :=
  let n := nat_of_ascii c in (48 <=? n) && (n <=? 57).

(** The class [\w] on ASCII: letters, digits and the underscore. *)
Definition is_word (c : ascii) : bool :=
  is_lower c || is_upper c || is_digit c || (nat_of_ascii c =? 95).

(** [str.upper] on ASCII. *)
Definition upper_char (c : ascii) : ascii :=
  if is_lower c then ascii_of_nat (nat_of_ascii c - 32) else c.

Fixpoint filter_chars (p : ascii -> bool) (s : string) : string :=
  match s with
  | EmptyString => EmptyString
  | String c r => if p c then String c (filter_chars p r) else filter_chars p r
  end.

Fixpoint lstrip (s : string) : string :=
  match s with
  | EmptyString => EmptyString
  | String c r => if is_space c then lstrip r else s
  end.

Fixpoint rstrip (s : string) : string :=
  match s with
  | EmptyString => EmptyString
  | String c r =>
      match rstrip r with
      | EmptyString => if is_space c then EmptyString else String c EmptyString
      | r' => String c r'
      end
  end.

(** A text without the ASCII whitespace around it. *)
Definition strip (s : string) : string := rstrip (lstrip s).

(** [str.replace(a, '')] for an ASCII character [a]. *)
Definition remove_char (a : ascii) (s : string) : string :=
  filter_chars (fun c => negb (Ascii.eqb c a)) s.

(** [str.endswith(suffix)] *)
Fixpoint endswith (s suffix : string) : bool :=
  (s =? suffix)%string ||
  match s with
  | EmptyString => false
  | String _ r => endswith r suffix
  end.

(** The value of a run of decimal digits. *)
Fixpoint digits_value_from (acc : Z) (s : string) : Z :=
  match s with
  | EmptyString => acc
  | String c r => digits_value_from (10 * acc + Z.of_nat (nat_of_ascii c - 48)) r
  end.

Definition digits_value (s : string) : Z := digits_value_from 0 s.

(** Every character of [s] satisfies [p]. *)
Fixpoint all_chars (p : ascii -> bool) (s : string) : Prop :=
  match s with
  | EmptyString => True
  | String c r => p c = true /\ all_chars p r
  end.

(** *** Characters

    A text is held as the bytes of its UTF-8 encoding.  A character of ASCII
    is one byte below 128; any other character is a lead byte (192 or more)
    followed by continuation bytes (128 to 191). *)

Definition is_ascii (c : ascii) : bool := nat_of_ascii c <? 128.

Definition is_continuation (c : ascii) : bool :=
  let n := nat_of_ascii c in (128 <=? n) && (n <? 192).

(** The continuation bytes at the head of [s]. *)
Fixpoint continuation (s : string) : string :=
  match s with
  | EmptyString => EmptyString
  | String c r =>
      if is_continuation c then String c (continuation r) else EmptyString
  end.

(** The characters of a text, in order.  A continuation byte that follows no
    lead byte is part of no character and is passed over; the encoding of a
    text holds none. *)
Fixpoint chars (s : string) : list string :=
  match s with
  | EmptyString => []
  | String c r =>
      if is_continuation c then chars r
      else if is_ascii c then String c EmptyString :: chars r
      else String c (continuation r) :: chars r
  end.

(** The text made of the characters [l]. *)
Fixpoint text_of (l : list string) : string :=
  match l with
  | [] => EmptyString
  | c :: r => c ++ text_of r
  end.

(** [c] is one character. *)
Definition is_char (c : string) : bool :=
  match c with
  | EmptyString => false
  | String b r =>
      if is_continuation b then false
      else if is_ascii b then (r =? "")%string
      else (continuation r =? r)%string
  end.

(** The ASCII character that [c] is, if it is one. *)
Definition ascii_of (c : string) : option ascii :=
  match c with
  | String b EmptyString => if is_ascii b then Some b else None
  | _ => None
  end.

End Text.

(* ================================================================= *)
(** ** Exceptions *)

Inductive exn : Type :=
| FileNotFoundError   (* [load_data]: the path does not exist *)
| ParserError         (* [pd.read_csv] rejects the file *)
| KeyError            (* a column asked for by name is not there *)
| IndexingError       (* a boolean mask cannot be aligned with the frame *)
| ValueError.         (* [StandardScaler] on a frame without rows *)

Inductive result (A : Type) : Type :=
| Ok (a : A)
| Raise (e : exn).

Arguments Ok {A} a.
Arguments Raise {A} e.

Definition bind {A B : Type} (r : result A) (k : A -> result B) : result B :=
  match r with
  | Ok a => k a
  | Raise e => Raise e
  end.

Notation "x <- r ;; k" := (bind r (fun x => k))
  (at level 61, r at next level, right associativity).

(* ================================================================= *)
(** ** Cells, columns and frames *)

(** A cell of a column of dtype object. *)
Inductive cell : Type :=
| NaN
| Num (q : Q)
| Str (s : string).

(** A column: numeric dtype (what [select_dtypes(include=[np.number])]
    selects), or dtype object. *)
Inductive series : Type :=
| NumCol (x : list (option Q))
| ObjCol (x : list cell).

Record DataFrame : Type := {
  index : list nat;                    (* row labels *)
  columns : list (string * series)     (* columns, in order *)
}.

(** A boolean Series: one value per row label. *)
Definition BoolSeries : Type := list (nat * bool).

(** The label of a column: the frames of the script carry names, the frame
    that [.str.extract] returns carries the position 0. *)
Inductive label : Type :=
| Named (s : string)
| Position (n : nat).

(** A one-column frame, as [.str.extract] returns it. *)
Record Extracted : Type := {
  ex_label : label;
  ex_cells : list cell
}.

(** The library functions the script relies on and does not determine. *)
Class Library : Type := {
  (** the parser of [pd.to_numeric] on one text cell; [None] is a coercion
      failure *)
  to_numeric_str : string -> option Q;
  (** [str(x)] of a number, as [astype(str)] writes it *)
  num_repr : Q -> string;
  (** what [astype(str)] makes of a missing cell: the text it writes for it
      ("nan", with pandas before 3.0), or none, the cell staying missing
      (from pandas 3.0 on) *)
  str_of_na : option string;
  (** [np.sqrt] *)
  np_sqrt : Q -> Q;
  (** [c.isspace()] for a character [c] outside ASCII *)
  unicode_isspace : string -> bool;
  (** [c.upper()] for a character [c] outside ASCII: a text of one
      character or more *)
  unicode_upper : string -> string;
  (** whether the class [\w] of [re] holds the character [c] outside ASCII *)
  unicode_isword : string -> bool;
  (** whether the class [\d] of [re] holds the character [c] outside ASCII *)
  unicode_isdigit : string -> bool;
  (** [pd.read_csv] on the text of a file: the frame it builds, row labels
      included (0, 1, 2, ... unless the text makes pandas take the labels
      from a column) *)
  read_csv : string -> result DataFrame;
  (** [DataFrame.to_csv(index=False)]: the text written *)
  to_csv : list (string * series) -> string
}.

Definition cell_of_num (o : option Q) : cell :=
  match o with
  | Some q => Num q
  | None => NaN
  end.

Definition cells_of (s : series) : list cell :=
  match s with
  | NumCol x => map cell_of_num x
  | ObjCol x => x
  end.

Definition isna_cell (c : cell) : bool :=
  match c with
  | NaN => true
  | _ => false
  end.

(** [s.isna()] *)
Definition isna (s : series) : list bool := map isna_cell (cells_of s).

Definition is_number_cell (c : cell) : bool :=
  match c with
  | Str _ => false
  | _ => true
  end.

Definition num_of_cell (c : cell) : option Q :=
  match c with
  | Num q => Some q
  | _ => None
  end.

(** The dtype pandas gives a column after cells were written into it:
    numeric while every cell is a number or missing, object otherwise. *)
Definition series_of_cells (x : list cell) : series :=
  if forallb is_number_cell x then NumCol (map num_of_cell x) else ObjCol x.

(** Rows picked by a positional boolean mask. *)
Fixpoint select {A : Type} (keep : list bool) (x : list A) : list A :=
  match keep, x with
  | k :: keep', a :: x' => if k then a :: select keep' x' else select keep' x'
  | _, _ => []
  end.

Definition select_series (keep : list bool) (s : series) : series :=
  match s with
  | NumCol x => NumCol (select keep x)
  | ObjCol x => ObjCol (select keep x)
  end.

Definition take_rows (keep : list bool) (df : DataFrame) : DataFrame :=
  {| index := select keep (index df);
     columns := map (fun kv => (fst kv, select_series keep (snd kv))) (columns df) |}.

(** *** Columns by name *)

Definition names (df : DataFrame) : list string := map fst (columns df).

Fixpoint assoc (c : string) (l : list (string * series)) : option series :=
  match l with
  | [] => None
  | (k, v) :: r => if (k =? c)%string then Some v else assoc c r
  end.

Fixpoint assoc_set (c : string) (s : series) (l : list (string * series))
  : list (string * series) :=
  match l with
  | [] => [(c, s)]
  | (k, v) :: r => if (k =? c)%string then (c, s) :: r else (k, v) :: assoc_set c s r
  end.

(** [df[c]] *)
Definition getitem (c : string) (df : DataFrame) : option series :=
  assoc c (columns df).

(** [c in df.columns] *)
Definition has_column (c : string) (df : DataFrame) : bool :=
  match getitem c df with
  | Some _ => true
  | None => false
  end.

(** [df[c] = s]: overwrite the column, or append it. *)
Definition setitem (c : string) (s : series) (df : DataFrame) : DataFrame :=
  {| index := index df; columns := assoc_set c s (columns df) |}.

(** [df.drop(columns=[c])] *)
Definition drop (c : string) (df : DataFrame) : DataFrame :=
  {| index := index df;
     columns := filter (fun kv => negb (fst kv =? c)%string) (columns df) |}.

(** [df.columns = f(df.columns)] *)
Definition rename (f : string -> string) (df : DataFrame) : DataFrame :=
  {| index := index df;
     columns := map (fun kv => (f (fst kv), snd kv)) (columns df) |}.

(** [df.select_dtypes(include=[np.number])] *)
Fixpoint numeric_columns (l : list (string * series))
  : list (string * list (option Q)) :=
  match l with
  | [] => []
  | (k, NumCol x) :: r => (k, x) :: numeric_columns r
  | (_, ObjCol _) :: r => numeric_columns r
  end.

(** [df.select_dtypes(exclude=[np.number]).columns] *)
Fixpoint object_columns (l : list (string * series)) : list string :=
  match l with
  | [] => []
  | (_, NumCol _) :: r => object_columns r
  | (k, ObjCol _) :: r => k :: object_columns r
  end.

(* ================================================================= *)
(** ** Statistics on a numeric column (missing values skipped) *)

Module Stats.

Local Open Scope Q_scope.

Fixpoint dropna (x : list (option Q)) : list Q :=
  match x with
  | [] => []
  | Some q :: r => q :: dropna r
  | None :: r => dropna r
  end.

Fixpoint insert (a : Q) (l : list Q) : list Q :=
  match l with
  | [] => [a]
  | b :: r => if Qle_bool a b then a :: l else b :: insert a r
  end.

Fixpoint sort (l : list Q) : list Q :=
  match l with
  | [] => []
  | a :: r => insert a (sort r)
  end.

Definition Qnat (n : nat) : Q := inject_Z (Z.of_nat n).

(** [Series.median()] *)
Definition median (x : list (option Q)) : option Q :=
  let v := sort (dropna x) in
  let n := List.length v in
  match n with
  | O => None
  | _ =>
      if Nat.odd n then Some (nth (n / 2) v 0)
      else Some ((nth (n / 2 - 1) v 0 + nth (n / 2) v 0) / 2)
  end.

(** The value at the fractional position [pos] of a sorted list, by linear
    interpolation between the two neighbouring elements. *)
Definition interpolate (v : list Q) (pos : Q) : Q :=
  let lo := Z.to_nat (Qfloor pos) in
  let frac := pos - Qnat lo in
  let a := nth lo v 0 in
  let b := nth (Nat.min (lo + 1) (List.length v - 1)) v 0 in
  a + frac * (b - a).

(** [Series.quantile(q)]: the value at position [q * (n - 1)] of the sorted
    non-missing values. *)
Definition quantile (q : Q) (x : list (option Q)) : option Q :=
  let v := sort (dropna x) in
  match List.length v with
  | O => None
  | S m => Some (interpolate v (q * Qnat m))
  end.

Fixpoint sum (v : list Q) : Q :=
  match v with
  | [] => 0
  | a :: r => a + sum r
  end.

(** [np.nanmean] of a column with at least one value. *)
Definition mean (v : list Q) : Q := sum v / Qnat (List.length v).

(** [np.nanvar], the population variance. *)
Definition var (v : list Q) : Q :=
  mean (map (fun y => (y - mean v) * (y - mean v)) v).

(** [s.fillna(value)] on a numeric column; [value] may itself be NaN. *)
Definition fillna (value : option Q) (x : list (option Q)) : list (option Q) :=
  map (fun c => match c with Some q => Some q | None => value end) x.

End Stats.

(* ================================================================= *)
(** ** The stages of the script *)

Section Stages.

Context {lib : Library}.

(** The text [astype(str)] gives one cell; [None] is a cell that stays
    missing. *)
Definition str_of_cell (c : cell) : option string :=
  match c with
  | NaN => str_of_na
  | Num q => Some (num_repr q)
  | Str s => Some s
  end.

(** [s.astype(str)]: the text of every cell. *)
Definition astype_str (s : series) : list (option string) :=
  map str_of_cell (cells_of s).

Definition text_cell (t : option string) : cell :=
  match t with
  | Some s => Str s
  | None => NaN
  end.

(** A Series of text cells. *)
Definition str_series (x : list (option string)) : series :=
  ObjCol (map text_cell x).

Definition to_numeric_cell (c : cell) : option Q :=
  match c with
  | NaN => None
  | Num q => Some q
  | Str s => to_numeric_str s
  end.

(** [pd.to_numeric(s, errors='coerce')]: the values of the numeric column
    it returns. *)
Definition to_numeric (s : series) : list (option Q) :=
  match s with
  | NumCol x => x
  | ObjCol x => map to_numeric_cell x
  end.

(** [if c in df.columns: df[c] = f(df[c])] *)
Definition update (c : string) (f : series -> series) (df : DataFrame)
  : DataFrame :=
  match getitem c df with
  | Some s => setitem c (f s) df
  | None => df
  end.

(** *** The text methods of the script

    The methods work character by character: on a character of ASCII as
    Python defines them, on any other character as the tables of the
    library say. *)

(** [c.isspace()] *)
Definition isspace (c : string) : bool :=
  match Text.ascii_of c with
  | Some b => Text.is_space b
  | None => unicode_isspace c
  end.

(** The characters of [c.upper()]. *)
Definition char_upper (c : string) : list string :=
  match Text.ascii_of c with
  | Some b => [String (Text.upper_char b) EmptyString]
  | None => Text.chars (unicode_upper c)
  end.

(** Whether [\w] matches [c]. *)
Definition isword (c : string) : bool :=
  match Text.ascii_of c with
  | Some b => Text.is_word b
  | None => unicode_isword c
  end.

(** Whether [\d] matches [c]. *)
Definition isdigit (c : string) : bool :=
  match Text.ascii_of c with
  | Some b => Text.is_digit b
  | None => unicode_isdigit c
  end.

Fixpoint lstrip_chars (l : list string) : list string :=
  match l with
  | [] => []
  | c :: r => if isspace c then lstrip_chars r else l
  end.

(** The characters left when the whitespace at both ends is taken away. *)
Definition strip_chars (l : list string) : list string :=
  rev (lstrip_chars (rev (lstrip_chars l))).

(** [s.str.strip()] *)
Definition str_strip (s : string) : string :=
  Text.text_of (strip_chars (Text.chars s)).

(** [s.str.upper()] *)
Definition str_upper (s : string) : string :=
  Text.text_of (flat_map char_upper (Text.chars s)).

(** [s.str.replace(a, b)] for [a] and [b] of one character each. *)
Definition str_replace (a b s : string) : string :=
  Text.text_of (map (fun c => if (c =? a)%string then b else c) (Text.chars s)).

(** [s.str.replace(r'[^\w_]', '', regex=True)] *)
Definition str_remove_non_word (s : string) : string :=
  Text.text_of
    (filter (fun c => isword c || (c =? "_")%string) (Text.chars s)).

(** Four digits at the head of the characters [l]: what [\d{4}] matches at
    this position. *)
Definition four_digits_here (l : list string) : option string :=
  match l with
  | a :: b :: c :: d :: _ =>
      if isdigit a && isdigit b && isdigit c && isdigit d
      then Some (a ++ b ++ c ++ d)%string
      else None
  | _ => None
  end.

Fixpoint search_year_from (l : list string) : option string :=
  match four_digits_here l with
  | Some y => Some y
  | None =>
      match l with
      | [] => None
      | _ :: r => search_year_from r
      end
  end.

(** [re.search(r'(\d{4})', s)]: the leftmost run of four digits. *)
Definition search_year (s : string) : option string :=
  search_year_from (Text.chars s).

Fixpoint search_paren_year_from (l : list string) : option string :=
  match l with
  | [] => None
  | c :: r =>
      if (c =? "(")%string then
        match four_digits_here r with
        | Some y => Some y
        | None => search_paren_year_from r
        end
      else search_paren_year_from r
  end.

(** [re.search(r'\((\d{4})', s)]: four digits right after the leftmost
    opening parenthesis that has them. *)
Definition search_paren_year (s : string) : option string :=
  search_paren_year_from (Text.chars s).

(** Two facts about the characters of Python that properties of the
    renaming depend on: every character of the upper-case form of a
    character is its own upper-case form, and no character is both
    whitespace and a word character. *)
Definition upper_is_stable : Prop :=
  forall c d, Text.is_char c = true -> In d (char_upper c) -> char_upper d = [d].

Definition space_is_not_word : Prop :=
  forall c, Text.is_char c = true -> isspace c = true -> isword c = false.

(** A character that the renaming of a column can leave in a name: a word
    character that is its own upper-case form. *)
Definition settled (c : string) : Prop :=
  Text.is_char c = true /\ isword c = true /\ char_upper c = [c].

(** *** clean_column_names *)

(** The renaming of one column name:
    [.str.strip().str.upper().str.replace(' ', '_').str.replace('-', '_')
     .str.replace(r'[^\w_]', '', regex=True)]. *)
Definition clean_name (s : string) : string :=
  str_remove_non_word
    (str_replace "-" "_" (str_replace " " "_" (str_upper (str_strip s)))).

Definition clean_column_names (df : DataFrame) : DataFrame :=
  rename clean_name df.

(** *** handle_missing_values *)

Definition potential_num_cols : list string :=
  ["RATING"; "VOTES"; "RunTime"; "Gross"].

Definition potential_cat_cols : list string :=
  ["MOVIES"; "YEAR"; "GENRE"; "ONE-LINE"; "STARS"].

(** [df.dropna(axis=1, how='all')] *)
Definition dropna_columns (df : DataFrame) : DataFrame :=
  {| index := index df;
     columns := filter (fun kv => negb (forallb id (isna (snd kv)))) (columns df) |}.

(** The first loop: VOTES loses its commas before it is parsed. *)
Definition coerce (col : string) (s : series) : series :=
  if (col =? "VOTES")%string then
    NumCol (to_numeric
              (str_series (map (option_map (Text.remove_char ","%char))
                               (astype_str s))))
  else
    NumCol (to_numeric s).

(** The second loop: [df[col].fillna(df[col].median())]. *)
Definition fill_median (s : series) : series :=
  match s with
  | NumCol x => NumCol (Stats.fillna (Stats.median x) x)
  | ObjCol x => ObjCol x
  end.

(** The third loop: the sentinel for a missing categorical cell. *)
Definition fill_unknown (s : series) : series :=
  if forallb id (isna s) then
    ObjCol (map (fun _ => Str "Unknown") (cells_of s))
  else
    let x := map (fun c => if isna_cell c then Str "Unknown" else c) (cells_of s) in
    match s with
    | NumCol _ => series_of_cells x
    | ObjCol _ => ObjCol x
    end.

Definition handle_missing_values (df : DataFrame) : DataFrame :=
  let df := rename str_strip df in
  let df := dropna_columns df in
  let num_cols := filter (fun col => has_column col df) potential_num_cols in
  let cat_cols := filter (fun col => has_column col df) potential_cat_cols in
  let df := fold_left (fun df col => update col (coerce col) df) num_cols df in
  let df := fold_left (fun df col => update col fill_median df) num_cols df in
  let df := fold_left (fun df col => update col fill_unknown df) cat_cols df in
  df.

(** *** extract_year_info *)

(** What a [.str] method that looks for a pattern finds in one cell:
    nothing in a missing one. *)
Definition search_cell (search : string -> option string) (t : option string)
  : option string :=
  match t with
  | Some s => search s
  | None => None
  end.

(** [s.str.extract(pat)] for a pattern with one group, [expand] left at its
    default: a one-column frame, the column labelled 0. *)
Definition str_extract (search : string -> option string)
    (x : list (option string)) : Extracted :=
  {| ex_label := Position 0;
     ex_cells := map (fun t => text_cell (search_cell search t)) x |}.

Definition label_eqb (a b : label) : bool :=
  match a, b with
  | Named s, Named t => (s =? t)%string
  | Position n, Position m => n =? m
  | _, _ => false
  end.

(** Write [vals], in order, into the cells the mask selects. *)
Fixpoint scatter (mask : list bool) (vals : list cell) (x : list cell)
  : list cell :=
  match mask, x with
  | true :: mask', _ :: x' =>
      match vals with
      | v :: vals' => v :: scatter mask' vals' x'
      | [] => NaN :: scatter mask' [] x'
      end
  | false :: mask', c :: x' => c :: scatter mask' vals x'
  | _, _ => x
  end.

(** [df.loc[mask, col] = value] for a frame [value].  pandas aligns all axes
    when a DataFrame is set through [.loc]: the cells written into column
    [col] are those of the column of [value] that carries the label [col],
    row by row; when [value] has no column with that label, the selected
    cells receive NaN.  ([value] holds one row per selected row, in the same
    order, so the row alignment is the order of the cells.) *)
Definition loc_setitem_frame (mask : list bool) (col : string)
    (value : Extracted) (df : DataFrame) : DataFrame :=
  let vals := if label_eqb (ex_label value) (Named col)
              then ex_cells value else [] in
  update col (fun s => series_of_cells (scatter mask vals (cells_of s))) df.

(** The year read from the text of one cell: the leftmost four digits,
    parsed. *)
Definition primary_year (t : option string) : option Q :=
  match search_cell search_year t with
  | Some y => to_numeric_str y
  | None => None
  end.

Definition extract_year_info (df : DataFrame) : result DataFrame :=
  match getitem "YEAR" df with
  | None => Ok df
  | Some year =>
      let extracted := str_extract search_year (astype_str year) in
      let df := setitem "YEAR_CLEANED" (ObjCol (ex_cells extracted)) df in
      let df := update "YEAR_CLEANED" (fun s => NumCol (to_numeric s)) df in
      let missing_years :=
        match getitem "YEAR_CLEANED" df with
        | Some s => isna s
        | None => []
        end in
      if existsb id missing_years then
        match getitem "MOVIES" df with
        | None => Raise KeyError
        | Some movies =>
            let fallback :=
              str_extract search_paren_year
                (astype_str (select_series missing_years movies)) in
            let df := loc_setitem_frame missing_years "YEAR_CLEANED" fallback df in
            Ok (update "YEAR_CLEANED" (fun s => NumCol (to_numeric s)) df)
        end
      else Ok df
  end.

(** *** remove_duplicates *)

Definition cell_eqb (a b : cell) : bool :=
  match a, b with
  | NaN, NaN => true
  | Num p, Num q => Qeq_bool p q
  | Str s, Str t => (s =? t)%string
  | _, _ => false
  end.

Fixpoint row_eqb (r1 r2 : list cell) : bool :=
  match r1, r2 with
  | [], [] => true
  | a :: r1', b :: r2' => cell_eqb a b && row_eqb r1' r2'
  | _, _ => false
  end.

(** The cells of the row at position [i]. *)
Definition row (df : DataFrame) (i : nat) : list cell :=
  map (fun kv => nth i (cells_of (snd kv)) NaN) (columns df).

(** [df.duplicated()]: a row is a duplicate when an earlier row equals it. *)
Definition duplicated (df : DataFrame) : list bool :=
  map (fun i => existsb (fun j => row_eqb (row df j) (row df i)) (seq 0 i))
      (seq 0 (List.length (index df))).

(** [df.drop_duplicates()]; pandas returns an empty frame as it is. *)
Definition remove_duplicates (df : DataFrame) : DataFrame :=
  match index df, columns df with
  | [], _ => df
  | _, [] => df
  | _, _ => take_rows (map negb (duplicated df)) df
  end.

(** *** remove_outliers *)

Fixpoint lookup (l : nat) (m : BoolSeries) : option bool :=
  match m with
  | [] => None
  | (k, b) :: r => if k =? l then Some b else lookup l r
  end.

(** A label absent on one side of [&] counts as False. *)
Definition value_at (l : nat) (m : BoolSeries) : bool :=
  match lookup l m with
  | Some b => b
  | None => false
  end.

Definition union (a b : list nat) : list nat :=
  a ++ filter (fun l => negb (existsb (Nat.eqb l) a)) b.

(** [a & b] on boolean Series.  The operands are aligned on the union of
    their labels first; a label that one operand lacks gets NaN there, which
    the operator reads as False. *)
Definition series_and (a b : BoolSeries) : BoolSeries :=
  map (fun l => (l, value_at l a && value_at l b))
      (union (map fst a) (map fst b)).

Fixpoint reindex (labels : list nat) (m : BoolSeries) : option (list bool) :=
  match labels with
  | [] => Some []
  | l :: r =>
      match lookup l m, reindex r m with
      | Some b, Some bs => Some (b :: bs)
      | _, _ => None
      end
  end.

(** [df[mask]] for a Series [mask].  A boolean Series is re-indexed to the
    labels of the frame and must have a value for each of them, or pandas
    raises [IndexingError] (unalignable boolean Series).  The Series built
    from an empty list has no boolean dtype: it is read as a list of column
    names, and selects none. *)
Definition getitem_mask (mask : BoolSeries) (df : DataFrame)
  : result DataFrame :=
  match mask with
  | [] => Ok {| index := index df; columns := [] |}
  | _ =>
      match reindex (index df) mask with
      | Some keep => Ok (take_rows keep df)
      | None => Raise IndexingError
      end
  end.

Definition between (lo hi : Q) (c : option Q) : bool :=
  match c with
  | Some v => Qle_bool lo v && Qle_bool v hi
  | None => false
  end.

(** [Q3 - Q1]; missing when the column has no value. *)
Definition iqr (x : list (option Q)) : option Q :=
  match Stats.quantile (1 # 4) x, Stats.quantile (3 # 4) x with
  | Some Q1, Some Q3 => Some (Q3 - Q1)%Q
  | _, _ => None
  end.

(** The bounds [Q1 - 1.5 * IQR] and [Q3 + 1.5 * IQR] of a column that
    passes the test [IQR > 0]; a NaN fails the test. *)
Definition fence (x : list (option Q)) : option (Q * Q) :=
  match Stats.quantile (1 # 4) x, Stats.quantile (3 # 4) x with
  | Some Q1, Some Q3 =>
      let IQR := (Q3 - Q1)%Q in
      if negb (Qle_bool IQR 0)
      then Some ((Q1 - (3 # 2) * IQR)%Q, (Q3 + (3 # 2) * IQR)%Q)
      else None
  | _, _ => None
  end.

(** One turn of the loop over the numeric columns. *)
Definition outlier_step (labels : list nat) (mask : BoolSeries)
    (x : list (option Q)) : BoolSeries :=
  match fence x with
  | Some (lo, hi) =>
      let col_mask := combine labels (map (between lo hi) x) in
      series_and mask col_mask
  | None => mask
  end.

(** The loop [for col in numeric_cols]. *)
Definition mask_loop (labels : list nat)
    (cols : list (string * list (option Q))) (mask : BoolSeries) : BoolSeries :=
  fold_left (fun mask col => outlier_step labels mask (snd col)) cols mask.

Definition remove_outliers (df : DataFrame) : result DataFrame :=
  let numeric_cols := numeric_columns (columns df) in
  if 0 <? List.length numeric_cols then
    let n := List.length (index df) in
    let mask := combine (seq 0 n) (repeat true n) in
    let mask := mask_loop (index df) numeric_cols mask in
    getitem_mask mask df
  else Ok df.

(** What one turn of the loop requires of the row labelled [l]: the value
    of [col_mask] there, or nothing when the column has no fence. *)
Definition passes (labels : list nat) (x : list (option Q)) (l : nat) : bool :=
  match fence x with
  | Some (lo, hi) => value_at l (combine labels (map (between lo hi) x))
  | None => true
  end.

(** The filter as the specification words it: the row at position [i]
    lies within the fence of every numeric column that has one. *)
Definition within_fences (df : DataFrame) (i : nat) : bool :=
  forallb (fun col => match fence (snd col) with
                      | Some (lo, hi) => between lo hi (nth i (snd col) None)
                      | None => true
                      end)
          (numeric_columns (columns df)).

(** A frame as pandas keeps it: distinct row labels, distinct column names,
    one cell per row in every column. *)
Definition well_formed (df : DataFrame) : Prop :=
  NoDup (index df) /\
  NoDup (names df) /\
  Forall (fun kv => List.length (cells_of (snd kv)) = List.length (index df))
         (columns df).

(** *** encode_categorical *)

Fixpoint mem_cell (c : cell) (l : list cell) : bool :=
  match l with
  | [] => false
  | d :: r => cell_eqb c d || mem_cell c r
  end.

Fixpoint unique_cells (l : list cell) : list cell :=
  match l with
  | [] => []
  | c :: r => if mem_cell c r then unique_cells r else c :: unique_cells r
  end.

(** [s.nunique()]: the distinct values, missing ones left out. *)
Definition nunique (s : series) : nat :=
  List.length (unique_cells (filter (fun c => negb (isna_cell c)) (cells_of s))).

Fixpoint insert_str (a : string) (l : list string) : list string :=
  match l with
  | [] => [a]
  | b :: r =>
      if (a =? b)%string then l
      else if String.leb a b then a :: l
      else b :: insert_str a r
  end.

(** [np.unique]: the distinct strings in increasing order. *)
Fixpoint classes (l : list string) : list string :=
  match l with
  | [] => []
  | a :: r => insert_str a (classes r)
  end.

Fixpoint position (a : string) (l : list string) : nat :=
  match l with
  | [] => 0
  | b :: r => if (a =? b)%string then 0 else S (position a r)
  end.

(** The texts among the cells of a column: the missing cells left out. *)
Fixpoint present (x : list (option string)) : list string :=
  match x with
  | [] => []
  | Some a :: r => a :: present r
  | None :: r => present r
  end.

(** [LabelEncoder().fit_transform(x)]: the classes are the distinct texts
    in increasing order, followed by the missing value when a cell is
    missing; the code of a cell is the position of its class. *)
Definition fit_transform (x : list (option string)) : list nat :=
  let texts := classes (present x) in
  map (fun a => match a with
                | Some t => position t texts
                | None => List.length texts
                end) x.

Definition encoded (x : list nat) : series :=
  NumCol (map (fun k => Some (Stats.Qnat k)) x).

Definition encode_step (df : DataFrame) (col : string) : DataFrame :=
  match getitem col df with
  | Some s =>
      if 1 <? nunique s
      then setitem col (encoded (fit_transform (astype_str s))) df
      else drop col df
  | None => df
  end.

(** What the loop of [encode_categorical] leaves of a column it visits:
    its codes, or nothing. *)
Definition encode_outcome (s : series) : option series :=
  if 1 <? nunique s then Some (encoded (fit_transform (astype_str s))) else None.

Definition encode_categorical (df : DataFrame) : DataFrame :=
  let cat_cols := object_columns (columns df) in
  let cat_cols := filter (fun col => negb (col =? "MOVIES")%string) cat_cols in
  fold_left encode_step cat_cols df.

(** *** scale_features *)

(** [StandardScaler().fit_transform] on one column: missing cells are left
    out of the fit and kept by the transform; a zero scale is replaced
    by 1.  Mean, variance and quotient are the exact ones; the scaler
    computes them in float64 and rounds at every step. *)
Definition standard_scale (x : list (option Q)) : list (option Q) :=
  match Stats.dropna x with
  | [] => map (fun _ => None) x
  | v =>
      let mean_ := Stats.mean v in
      let var_ := Stats.var v in
      let scale_ := if Qeq_bool var_ 0 then 1%Q else np_sqrt var_ in
      map (option_map (fun y => ((y - mean_) / scale_)%Q)) x
  end.

(** [d[col] = scaled df[col]], one column of
    [df[cols_to_scale] = scaler.fit_transform(df[cols_to_scale])]. *)
Definition scale_step (df d : DataFrame) (col : string) : DataFrame :=
  match getitem col df with
  | Some (NumCol x) => setitem col (NumCol (standard_scale x)) d
  | _ => d
  end.

Definition scale_features (df : DataFrame) : result DataFrame :=
  let numeric_cols := map fst (numeric_columns (columns df)) in
  let cols_to_scale :=
    filter (fun col => negb (Text.endswith col "_ENCODED")) numeric_cols in
  if 0 <? List.length cols_to_scale then
    match index df with
    | [] => Raise ValueError
    | _ => Ok (fold_left (scale_step df) cols_to_scale df)
    end
  else Ok df.

(** *** load_data, save_cleaned_data, main *)

(** The files the script can see: path and text. *)
Definition file_system : Type := list (string * string).

Fixpoint read_file (path : string) (fs : file_system) : option string :=
  match fs with
  | [] => None
  | (p, text) :: r => if (p =? path)%string then Some text else read_file path r
  end.

Definition write_file (path text : string) (fs : file_system) : file_system :=
  (path, text) :: filter (fun kv => negb (fst kv =? path)%string) fs.

Definition load_data (path : string) (fs : file_system) : result DataFrame :=
  match read_file path fs with
  | None => Raise FileNotFoundError
  | Some text => read_csv text
  end.

Definition save_cleaned_data (df : DataFrame) (output_path : string)
    (fs : file_system) : file_system :=
  write_file output_path (to_csv (columns df)) fs.

Definition input_path : string := "movies.csv".
Definition output_path : string := "cleaned_movies_data.csv".

(** The stages between loading and saving, in the order of [main]. *)
Definition clean (df : DataFrame) : result DataFrame :=
  let df := clean_column_names df in
  let df := handle_missing_values df in
  df <- extract_year_info df ;;
  let df := remove_duplicates df in
  df <- remove_outliers df ;;
  let df := encode_categorical df in
  scale_features df.

(** [main]: the outcome of the run and the files after it.  An exception
    anywhere in the [try] block is re-raised before [save_cleaned_data]. *)
Definition main (fs : file_system) : result unit * file_system :=
  match (df <- load_data input_path fs ;; clean df) with
  | Ok df => (Ok tt, save_cleaned_data df output_path fs)
  | Raise e => (Raise e, fs)
  end.

End Stages.

(* ================================================================= *)
(** ** Notions used to state properties *)

(** The order of Python strings, strict: code point by code point, that is
    byte by byte on the texts of the model. *)
Definition string_lt (s t : string) : Prop := String.ltb s t = true.

(** The position, in the frame a mask was applied to, of the row that ends
    up at position [a] among the rows kept. *)
Fixpoint kept_position (keep : list bool) (a : nat) : nat :=
  match keep with
  | [] => 0
  | true :: keep' =>
      match a with
      | O => 0
      | S a' => S (kept_position keep' a')
      end
  | false :: keep' => S (kept_position keep' a)
  end.

(* ================================================================= *)
(** ** A reference library

    One instance of [Library], used to run the stages on concrete tables:
    plain decimal numerals for the parser and the printer, an [astype(str)]
    that leaves a missing cell missing, a square root that is exact on
    squares of rationals, tables for a few characters outside ASCII, and a
    reader and a writer for plain CSV text. *)

Module Reference.

Fixpoint all_digits (s : string) : bool :=
  match s with
  | EmptyString => true
  | String c r => Text.is_digit c && all_digits r
  end.

(** The text before and after the first dot. *)
Fixpoint split_dot (s : string) : string * string :=
  match s with
  | EmptyString => (EmptyString, EmptyString)
  | String c r =>
      if Ascii.eqb c "."%char then (EmptyString, r)
      else let (i, f) := split_dot r in (String c i, f)
  end.

(** A decimal numeral: optional sign, digits, optional fraction; blanks
    around it are ignored.  Anything else is a coercion failure. *)
Definition decimal (s : string) : option Q :=
  let s := Text.strip s in
  let (neg, body) :=
    match s with
    | String c r =>
        if Ascii.eqb c "-"%char then (true, r)
        else if Ascii.eqb c "+"%char then (false, r)
        else (false, s)
    | EmptyString => (false, s)
    end in
  let (i, f) := split_dot body in
  if all_digits i && all_digits f && (0 <? String.length i + String.length f) then
    let v := Qmake (Text.digits_value (i ++ f))
                   (Z.to_pos (10 ^ Z.of_nat (String.length f))) in
    Some (Qred (if neg then Qopp v else v))
  else None.

Definition string_of_Z (z : Z) : string :=
  NilZero.string_of_int (Z.to_int z).

(** The digits of [r / d] after the dot, at most [fuel] of them. *)
Fixpoint fraction_digits (fuel : nat) (r d : Z) : string :=
  match fuel with
  | O => EmptyString
  | S fuel' =>
      if (r =? 0)%Z then EmptyString
      else
        String (ascii_of_nat (48 + Z.to_nat (10 * r / d)))
               (fraction_digits fuel' ((10 * r) mod d) d)
  end.

(** The text of a number: an integer as its digits, any other value with
    up to 17 digits after the dot. *)
Definition repr (q : Q) : string :=
  let q := Qred q in
  let n := Qnum q in
  let d := Zpos (Qden q) in
  if (d =? 1)%Z then string_of_Z n
  else
    let sign := if (n <? 0)%Z then "-" else "" in
    let a := Z.abs n in
    sign ++ string_of_Z (a / d) ++ "." ++ fraction_digits 17 (a mod d) d.

(** A few characters outside ASCII: the no-break space is whitespace, the
    letters e-acute and sharp s have the upper-case forms E-acute and SS,
    the euro sign is no word character; every other character is a word
    character without an upper-case form of its own; no character outside
    ASCII is a digit. *)
Definition no_break_space : string := String "194" (String "160" EmptyString).
Definition e_acute : string := String "195" (String "169" EmptyString).
Definition capital_e_acute : string := String "195" (String "137" EmptyString).
Definition sharp_s : string := String "195" (String "159" EmptyString).
Definition euro_sign : string :=
  String "226" (String "130" (String "172" EmptyString)).

Definition isspace_table (c : string) : bool := (c =? no_break_space)%string.

Definition upper_table (c : string) : string :=
  if (c =? e_acute)%string then capital_e_acute
  else if (c =? sharp_s)%string then "SS"
  else c.

Definition isword_table (c : string) : bool :=
  negb (c =? no_break_space)%string && negb (c =? euro_sign)%string.

Definition isdigit_table (c : string) : bool := false.

(** A square root that is exact on the squares of rationals. *)
Definition sqrt (q : Q) : Q :=
  let q := Qred q in
  Qmake (Z.sqrt (Qnum q)) (Pos.sqrt (Qden q)).

(** A reader for the plainest CSV text: lines of comma-separated fields, no
    quoting; the first line names the columns.  When every other line has
    as many fields as the first, the rows are labelled 0, 1, 2, ...; when
    every other line has one field more, its first field is the label of
    the row (a run of digits: other labels are outside the model).  Any
    other text is refused.  A column whose fields are all decimal numerals
    or empty is numeric, an empty field is missing. *)
Fixpoint split_on (sep : ascii) (s : string) : list string :=
  match s with
  | EmptyString => [EmptyString]
  | String c r =>
      if Ascii.eqb c sep then EmptyString :: split_on sep r
      else
        match split_on sep r with
        | [] => [String c EmptyString]
        | w :: ws => String c w :: ws
        end
  end.

Definition field_cell (t : string) : cell :=
  match t with
  | EmptyString => NaN
  | _ => Str t
  end.

Definition numeric_field (t : string) : bool :=
  match t with
  | EmptyString => true
  | _ => match decimal t with Some _ => true | None => false end
  end.

Definition column_of_fields (fields : list string) : series :=
  if forallb numeric_field fields then
    NumCol (map (fun t => match t with
                          | EmptyString => None
                          | _ => decimal t
                          end) fields)
  else ObjCol (map field_cell fields).

Definition lines (text : string) : list (list string) :=
  map (split_on ","%char)
      (filter (fun l => negb (l =? "")%string) (split_on "010"%char text)).

(** The named columns that the rows hold under the header. *)
Definition columns_of (header : list string) (rows : list (list string))
  : list (string * series) :=
  map (fun k => (nth k header "",
                 column_of_fields (map (fun r => nth k r "") rows)))
      (seq 0 (List.length header)).

(** The row labels that the fields [l] spell, when each of them is a run of
    digits. *)
Fixpoint labels_of (l : list string) : option (list nat) :=
  match l with
  | [] => Some []
  | t :: r =>
      if all_digits t && negb (t =? "")%string then
        option_map (cons (Z.to_nat (Text.digits_value t))) (labels_of r)
      else None
  end.

Definition reader (text : string) : result DataFrame :=
  match lines text with
  | [] => Raise ParserError
  | header :: rows =>
      if forallb (fun r => List.length r =? List.length header) rows then
        Ok {| index := seq 0 (List.length rows);
              columns := columns_of header rows |}
      else if forallb (fun r => List.length r =? S (List.length header)) rows
      then
        match labels_of (map (fun r => hd "" r) rows) with
        | Some labels =>
            Ok {| index := labels;
                  columns := columns_of header (map (@tl string) rows) |}
        | None => Raise ParserError
        end
      else Raise ParserError
  end.

Definition field_of_cell (c : cell) : string :=
  match c with
  | NaN => ""
  | Num q => repr q
  | Str s => s
  end.

Definition join (sep : string) (l : list string) : string :=
  String.concat sep l.

Definition writer (cols : list (string * series)) : string :=
  let n := match cols with
           | [] => 0
           | (_, s) :: _ => List.length (cells_of s)
           end in
  let newline := String "010"%char EmptyString in
  join newline
    (join "," (map fst cols)
     :: map (fun i => join "," (map (fun kv => field_of_cell (nth i (cells_of (snd kv)) NaN)) cols))
            (seq 0 n))
  ++ newline.

#[export] Instance library : Library := {|
  to_numeric_str := decimal;
  num_repr := repr;
  str_of_na := None;
  np_sqrt := sqrt;
  unicode_isspace := isspace_table;
  unicode_upper := upper_table;
  unicode_isword := isword_table;
  unicode_isdigit := isdigit_table;
  read_csv := reader;
  to_csv := writer
|}.

(** The same library with the [astype(str)] of pandas before 3.0: a missing
    cell becomes the text "nan". *)
Definition library_nan_text : Library := {|
  to_numeric_str := decimal;
  num_repr := repr;
  str_of_na := Some "nan";
  np_sqrt := sqrt;
  unicode_isspace := isspace_table;
  unicode_upper := upper_table;
  unicode_isword := isword_table;
  unicode_isdigit := isdigit_table;
  read_csv := reader;
  to_csv := writer
|}.

End Reference.

(* ================================================================= *)
(** * Properties *)

Module TextFacts.
Import Text.

Lemma upper_char_not_lower c : is_lower (upper_char c) = false.
Proof.
  unfold upper_char. destruct (is_lower c) eqn:E; [|exact E].
  unfold is_lower in *.
  apply andb_true_iff in E as [E1 E2].
  apply Nat.leb_le in E1. apply Nat.leb_le in E2.
  rewrite nat_ascii_embedding by lia.
  apply andb_false_iff. left. apply Nat.leb_gt. lia.
Qed.

Lemma upper_char_fixed c : upper_char c = c -> is_lower c = false.
Proof. intros H. rewrite <- H. apply upper_char_not_lower. Qed.

Lemma upper_char_twice c : upper_char (upper_char c) = upper_char c.
Proof.
  unfold upper_char at 1. now rewrite upper_char_not_lower.
Qed.

Lemma upper_char_ascii c : is_ascii c = true -> is_ascii (upper_char c) = true.
Proof.
  unfold upper_char. destruct (is_lower c) eqn:E; [|trivial].
  unfold is_lower, is_ascii in *. intros _.
  apply andb_true_iff in E as [E1 E2].
  apply Nat.leb_le in E1. apply Nat.leb_le in E2.
  rewrite nat_ascii_embedding by lia. apply Nat.ltb_lt. lia.
Qed.

Lemma space_not_word c : is_space c = true -> is_word c = false.
Proof.
  unfold is_word, is_space, is_lower, is_upper, is_digit.
  intros H.
  apply orb_true_iff in H as [H|H]; apply andb_true_iff in H as [H1 H2];
    apply Nat.leb_le in H1, H2;
    repeat (apply orb_false_iff; split);
    try (apply andb_false_iff; left; apply Nat.leb_gt; lia);
    try (apply Nat.eqb_neq; lia).
Qed.

Lemma ascii_not_continuation c : is_ascii c = true -> is_continuation c = false.
Proof.
  unfold is_ascii, is_continuation. intros H. apply Nat.ltb_lt in H.
  apply andb_false_iff. left. apply Nat.leb_gt. exact H.
Qed.

Lemma all_chars_impl (p q : ascii -> bool) s :
  (forall c, p c = true -> q c = true) -> all_chars p s -> all_chars q s.
Proof.
  intros H. induction s as [|c r IH]; simpl; [trivial|].
  intros [Hc Hr]. split; auto.
Qed.

Lemma all_chars_app p a b :
  all_chars p a -> all_chars p b -> all_chars p (a ++ b).
Proof.
  induction a as [|c r IH]; simpl; [auto|].
  intros [Hc Hr] Hb. split; auto.
Qed.

Lemma lstrip_id s : all_chars (fun c => negb (is_space c)) s -> lstrip s = s.
Proof.
  destruct s as [|c r]; simpl; [trivial|].
  intros [Hc _]. apply negb_true_iff in Hc. now rewrite Hc.
Qed.

Lemma rstrip_id s : all_chars (fun c => negb (is_space c)) s -> rstrip s = s.
Proof.
  induction s as [|c r IH]; simpl; [trivial|].
  intros [Hc Hr]. apply negb_true_iff in Hc. rewrite IH by assumption.
  destruct r; [now rewrite Hc | reflexivity].
Qed.

(** *** The characters of a text *)

Lemma ascii_of_Some c b :
  ascii_of c = Some b -> c = String b EmptyString /\ is_ascii b = true.
Proof.
  destruct c as [|a [|a' r]]; simpl; try discriminate.
  destruct (is_ascii a) eqn:E; [|discriminate].
  intros [= <-]. auto.
Qed.

Lemma continuation_all s : all_chars is_continuation (continuation s).
Proof.
  induction s as [|c r IH]; simpl; [trivial|].
  destruct (is_continuation c) eqn:E; simpl; auto.
Qed.

Lemma continuation_id s : all_chars is_continuation s -> continuation s = s.
Proof.
  induction s as [|c r IH]; simpl; [trivial|].
  intros [Hc Hr]. now rewrite Hc, IH.
Qed.

Lemma continuation_twice s : continuation (continuation s) = continuation s.
Proof. apply continuation_id, continuation_all. Qed.

(** What comes after a character in a text: nothing, or a byte that starts
    a character. *)
Lemma is_char_start c :
  is_char c = true ->
  exists b r, c = String b r /\ is_continuation b = false.
Proof.
  destruct c as [|b r]; simpl; [discriminate|].
  destruct (is_continuation b) eqn:E; [discriminate|]. eauto.
Qed.

Lemma is_char_chars s : Forall (fun c => is_char c = true) (chars s).
Proof.
  induction s as [|c r IH]; simpl; [constructor|].
  destruct (is_continuation c) eqn:Ec; [exact IH|].
  destruct (is_ascii c) eqn:Ea; constructor; try exact IH.
  - simpl. now rewrite Ec, Ea.
  - simpl. rewrite Ec, Ea, continuation_twice. apply String.eqb_refl.
Qed.

Lemma continuation_app a b :
  all_chars is_continuation a ->
  match b with
  | EmptyString => True
  | String c _ => is_continuation c = false
  end ->
  continuation (a ++ b) = a.
Proof.
  induction a as [|c r IH]; simpl.
  - intros _. destruct b as [|c r]; simpl; [trivial|]. now intros ->.
  - intros [Hc Hr] Hb. now rewrite Hc, IH.
Qed.

Lemma chars_skip a b : all_chars is_continuation a -> chars (a ++ b) = chars b.
Proof.
  induction a as [|c r IH]; simpl; [trivial|].
  intros [Hc Hr]. rewrite Hc. auto.
Qed.

Lemma text_of_start l :
  Forall (fun c => is_char c = true) l ->
  match text_of l with
  | EmptyString => True
  | String c _ => is_continuation c = false
  end.
Proof.
  destruct 1 as [|c l Hc Hl]; simpl; [trivial|].
  destruct (is_char_start c Hc) as (b & r & -> & Hb). simpl. exact Hb.
Qed.

(** A text made of characters has these characters. *)
Lemma chars_text_of l :
  Forall (fun c => is_char c = true) l -> chars (text_of l) = l.
Proof.
  induction 1 as [|c l Hc Hl IH]; simpl; [reflexivity|].
  pose proof (text_of_start l Hl) as Hs.
  destruct c as [|b r]; simpl in Hc; [discriminate|].
  simpl. destruct (is_continuation b) eqn:Eb; [discriminate|].
  destruct (is_ascii b) eqn:Ea.
  - apply String.eqb_eq in Hc. subst r. simpl. now rewrite IH.
  - apply String.eqb_eq in Hc.
    assert (Hr : all_chars is_continuation r)
      by (rewrite <- Hc; apply continuation_all).
    now rewrite (continuation_app r _ Hr Hs), (chars_skip r _ Hr), IH.
Qed.

Lemma chars_char c : is_char c = true -> chars c = [c].
Proof.
  intros H. rewrite <- (chars_text_of [c]) by (constructor; [exact H | constructor]).
  simpl. f_equal. clear. induction c as [|a r IH]; simpl; congruence.
Qed.

Lemma text_of_chars_twice s : chars (text_of (chars s)) = chars s.
Proof. apply chars_text_of, is_char_chars. Qed.

Lemma all_chars_text_of p l :
  Forall (all_chars p) l -> all_chars p (text_of l).
Proof.
  induction 1 as [|c l Hc Hl IH]; simpl; [trivial|].
  now apply all_chars_app.
Qed.

(** The bytes of a character outside ASCII are all 128 or more. *)
Lemma is_char_bytes c :
  is_char c = true -> ascii_of c = None ->
  all_chars (fun b => 128 <=? nat_of_ascii b) c.
Proof.
  destruct c as [|b r]; [discriminate|]. unfold is_char.
  destruct (is_continuation b) eqn:Eb; [discriminate|].
  destruct (is_ascii b) eqn:Ea.
  - intros Hr. apply String.eqb_eq in Hr. subst r.
    unfold ascii_of. rewrite Ea. discriminate.
  - intros Hr _. apply String.eqb_eq in Hr. cbn [all_chars]. split.
    + unfold is_ascii in Ea. apply Nat.ltb_ge in Ea. now apply Nat.leb_le.
    + rewrite <- Hr. eapply all_chars_impl; [|apply continuation_all].
      intros c. unfold is_continuation. intros H.
      now apply andb_true_iff in H as [H _].
Qed.

End TextFacts.

(* ----------------------------------------------------------------- *)
(** ** The text methods and the renaming of a column *)

Section NameFacts.

Context {lib : Library}.

Lemma is_char_char_upper c :
  Forall (fun d => Text.is_char d = true) (char_upper c).
Proof.
  unfold char_upper. destruct (Text.ascii_of c) as [b|] eqn:E.
  - apply TextFacts.ascii_of_Some in E as [_ Hb].
    apply TextFacts.upper_char_ascii in Hb.
    constructor; [|constructor]. unfold Text.is_char.
    now rewrite (TextFacts.ascii_not_continuation _ Hb), Hb.
  - apply TextFacts.is_char_chars.
Qed.

Lemma In_lstrip_chars d l : In d (lstrip_chars l) -> In d l.
Proof.
  induction l as [|c r IH]; simpl; [tauto|].
  destruct (isspace c); [auto | trivial].
Qed.

Lemma In_strip_chars d l : In d (strip_chars l) -> In d l.
Proof.
  unfold strip_chars. intros H.
  apply In_lstrip_chars. apply in_rev. apply In_lstrip_chars.
  now apply in_rev.
Qed.

Lemma lstrip_chars_id l :
  Forall (fun c => isspace c = false) l -> lstrip_chars l = l.
Proof. destruct 1 as [|c l Hc Hl]; simpl; [reflexivity | now rewrite Hc]. Qed.

Lemma strip_chars_id l :
  Forall (fun c => isspace c = false) l -> strip_chars l = l.
Proof.
  intros H. unfold strip_chars. rewrite (lstrip_chars_id l H).
  rewrite lstrip_chars_id by (now apply Forall_rev).
  apply rev_involutive.
Qed.

Lemma Forall_strip_chars (P : string -> Prop) l :
  Forall P l -> Forall P (strip_chars l).
Proof.
  rewrite !Forall_forall. intros H d Hd. now apply H, In_strip_chars.
Qed.

(** The characters of the text each method returns. *)
Lemma chars_str_strip s :
  Text.chars (str_strip s) = strip_chars (Text.chars s).
Proof.
  apply TextFacts.chars_text_of, Forall_strip_chars, TextFacts.is_char_chars.
Qed.

Lemma chars_str_upper s :
  Text.chars (str_upper s) = flat_map char_upper (Text.chars s).
Proof.
  apply TextFacts.chars_text_of. apply Forall_flat_map.
  apply Forall_forall. intros c _. apply is_char_char_upper.
Qed.

Lemma chars_str_replace a b s :
  Text.is_char b = true ->
  Text.chars (str_replace a b s) =
  map (fun c => if (c =? a)%string then b else c) (Text.chars s).
Proof.
  intros Hb. apply TextFacts.chars_text_of. apply Forall_map.
  eapply Forall_impl; [|apply TextFacts.is_char_chars].
  intros c Hc. simpl. now destruct (c =? a)%string.
Qed.

Lemma chars_str_remove_non_word s :
  Text.chars (str_remove_non_word s) =
  filter (fun c => isword c || (c =? "_")%string) (Text.chars s).
Proof.
  apply TextFacts.chars_text_of. apply Forall_forall. intros c Hc.
  apply filter_In in Hc as [Hc _].
  pose proof (TextFacts.is_char_chars s) as H.
  rewrite Forall_forall in H. now apply H.
Qed.

(** The characters of a cleaned name, from those of the name. *)
Lemma chars_clean_name s :
  Text.chars (clean_name s) =
  filter (fun c => isword c || (c =? "_")%string)
    (map (fun c => if (c =? "-")%string then "_" else c)
       (map (fun c => if (c =? " ")%string then "_" else c)
          (flat_map char_upper (strip_chars (Text.chars s))))).
Proof.
  unfold clean_name.
  rewrite chars_str_remove_non_word, !chars_str_replace by reflexivity.
  now rewrite chars_str_upper, chars_str_strip.
Qed.

Lemma clean_name_text s :
  clean_name s = Text.text_of (Text.chars (clean_name s)).
Proof.
  unfold clean_name. rewrite chars_str_remove_non_word. reflexivity.
Qed.

Lemma settled_underscore : settled "_".
Proof. repeat split. Qed.

(** Where a character of a cleaned name comes from: it is a word character,
    and it is the underscore or a character of the upper-case form of a
    character of the name. *)
Lemma clean_name_provenance s d :
  In d (Text.chars (clean_name s)) ->
  Text.is_char d = true /\ isword d = true /\
  (d = "_" \/ exists c, In c (Text.chars s) /\ In d (char_upper c)).
Proof.
  rewrite chars_clean_name. intros Hd.
  apply filter_In in Hd as [Hd Hkeep].
  apply in_map_iff in Hd as [e1 [<- Hd]].
  apply in_map_iff in Hd as [e [<- Hd]].
  destruct (e =? " ")%string eqn:E1; [repeat split; auto|].
  destruct (e =? "-")%string eqn:E2; [repeat split; auto|].
  apply in_flat_map in Hd as [c [Hc Hd]].
  apply In_strip_chars in Hc.
  split; [|split].
  - pose proof (is_char_char_upper c) as H.
    rewrite Forall_forall in H. now apply H.
  - apply orb_true_iff in Hkeep as [H|H]; [exact H|].
    apply String.eqb_eq in H. now subst e.
  - right. eauto.
Qed.

(** The upper-case form of an ASCII character is an ASCII character that is
    its own upper-case form and, if a word character, no whitespace. *)
Lemma char_upper_ascii c b d :
  Text.ascii_of c = Some b -> In d (char_upper c) ->
  (exists b', Text.ascii_of d = Some b') /\ char_upper d = [d].
Proof.
  intros E Hd. unfold char_upper in Hd. rewrite E in Hd.
  destruct Hd as [<-|[]].
  apply TextFacts.ascii_of_Some in E as [_ Hb].
  apply TextFacts.upper_char_ascii in Hb.
  assert (E' : Text.ascii_of (String (Text.upper_char b) EmptyString)
               = Some (Text.upper_char b))
    by (unfold Text.ascii_of; now rewrite Hb).
  split; [eauto|].
  unfold char_upper. rewrite E'. now rewrite TextFacts.upper_char_twice.
Qed.

Lemma ascii_word_not_space d b :
  Text.ascii_of d = Some b -> isword d = true -> isspace d = false.
Proof.
  unfold isword, isspace. intros ->. intros Hw.
  destruct (Text.is_space b) eqn:E; [|reflexivity].
  rewrite (TextFacts.space_not_word b E) in Hw. discriminate.
Qed.

(** The characters of an ASCII text are ASCII characters. *)
Lemma ascii_chars s c :
  Text.all_chars Text.is_ascii s -> In c (Text.chars s) ->
  exists b, Text.ascii_of c = Some b.
Proof.
  induction s as [|a r IH]; simpl; [tauto|].
  intros [Ha Hr]. rewrite (TextFacts.ascii_not_continuation a Ha), Ha.
  intros [<-|Hc]; [|auto].
  exists a. unfold Text.ascii_of. now rewrite Ha.
Qed.

(** Every character of a cleaned name is settled: by the property of the
    upper-case forms, or because the name is an ASCII text. *)
Lemma settled_clean_name s :
  upper_is_stable -> Forall settled (Text.chars (clean_name s)).
Proof.
  intros Hup. apply Forall_forall. intros d Hd.
  destruct (clean_name_provenance s d Hd) as (Hc & Hw & [->|[c [Hin Hdc]]]);
    [apply settled_underscore|].
  repeat split; auto. apply (Hup c d); [|exact Hdc].
  pose proof (TextFacts.is_char_chars s) as H.
  rewrite Forall_forall in H. now apply H.
Qed.

Lemma settled_clean_name_ascii s :
  Text.all_chars Text.is_ascii s -> Forall settled (Text.chars (clean_name s)).
Proof.
  intros Hs. apply Forall_forall. intros d Hd.
  destruct (clean_name_provenance s d Hd) as (Hc & Hw & [->|[c [Hin Hdc]]]);
    [apply settled_underscore|].
  destruct (ascii_chars s c Hs Hin) as [b Hb].
  repeat split; auto. now apply (char_upper_ascii c b d Hb).
Qed.

Lemma no_space_clean_name s :
  space_is_not_word ->
  Forall (fun c => isspace c = false) (Text.chars (clean_name s)).
Proof.
  intros Hsp. apply Forall_forall. intros d Hd.
  destruct (clean_name_provenance s d Hd) as (Hc & Hw & _).
  destruct (isspace d) eqn:E; [|reflexivity].
  rewrite (Hsp d Hc E) in Hw. discriminate.
Qed.

Lemma no_space_clean_name_ascii s :
  Text.all_chars Text.is_ascii s ->
  Forall (fun c => isspace c = false) (Text.chars (clean_name s)).
Proof.
  intros Hs. apply Forall_forall. intros d Hd.
  destruct (clean_name_provenance s d Hd) as (Hc & Hw & [->|[c [Hin Hdc]]]);
    [reflexivity|].
  destruct (ascii_chars s c Hs Hin) as [b Hb].
  destruct (char_upper_ascii c b d Hb Hdc) as [[b' Hb'] _].
  now apply (ascii_word_not_space d b').
Qed.

(** The renaming leaves a text of settled characters, none of them
    whitespace, as it is. *)
Lemma clean_name_settled s :
  Forall settled (Text.chars s) ->
  Forall (fun c => isspace c = false) (Text.chars s) ->
  clean_name s = Text.text_of (Text.chars s).
Proof.
  intros H Hsp. set (r := Text.chars s) in *.
  assert (H1 : strip_chars r = r) by now apply strip_chars_id.
  assert (H2 : flat_map char_upper r = r).
  { clear -H. induction H as [|c l (_ & _ & Hc) Hl IH]; simpl; [reflexivity|].
    now rewrite Hc, IH. }
  assert (H3 : forall a, isword a = false ->
                 map (fun c => if (c =? a)%string then "_" else c) r = r).
  { intros a Ha. clear -H Ha.
    induction H as [|c l (_ & Hw & _) Hl IH]; simpl; [reflexivity|].
    rewrite IH. destruct (String.eqb_spec c a) as [->|]; [congruence | reflexivity]. }
  assert (H4 : filter (fun c => isword c || (c =? "_")%string) r = r).
  { clear -H. induction H as [|c l (_ & Hw & _) Hl IH]; simpl; [reflexivity|].
    now rewrite Hw, IH. }
  rewrite (clean_name_text s), chars_clean_name. fold r in H1, H2, H3, H4 |- *.
  now rewrite H1, H2, (H3 " " eq_refl), (H3 "-" eq_refl), H4.
Qed.

(** Cleaning a cleaned name changes nothing. *)
Lemma clean_name_twice s :
  upper_is_stable -> space_is_not_word ->
  clean_name (clean_name s) = clean_name s.
Proof.
  intros Hup Hsp.
  rewrite (clean_name_settled (clean_name s) (settled_clean_name s Hup)
             (no_space_clean_name s Hsp)).
  symmetry. apply clean_name_text.
Qed.

Lemma clean_name_twice_ascii s :
  Text.all_chars Text.is_ascii s ->
  clean_name (clean_name s) = clean_name s.
Proof.
  intros Hs.
  rewrite (clean_name_settled (clean_name s) (settled_clean_name_ascii s Hs)
             (no_space_clean_name_ascii s Hs)).
  symmetry. apply clean_name_text.
Qed.

(** The bytes of a word character: a letter, a digit or the underscore of
    ASCII, or the bytes of a character outside ASCII. *)
Lemma word_bytes c :
  Text.is_char c = true -> isword c = true ->
  Text.all_chars (fun b => Text.is_word b || (128 <=? nat_of_ascii b)) c.
Proof.
  intros Hc Hw. destruct (Text.ascii_of c) as [b|] eqn:E.
  - unfold isword in Hw. rewrite E in Hw.
    apply TextFacts.ascii_of_Some in E as [-> _].
    cbn [Text.all_chars]. now rewrite Hw.
  - eapply TextFacts.all_chars_impl; [|apply (TextFacts.is_char_bytes c Hc E)].
    intros b Hb. rewrite Hb. apply orb_true_r.
Qed.

(** The bytes of a settled character: an upper-case letter, a digit or the
    underscore of ASCII, or the bytes of a character outside ASCII. *)
Lemma settled_bytes c :
  settled c ->
  Text.all_chars
    (fun b => Text.is_upper b || Text.is_digit b || Ascii.eqb b "_"%char
              || (128 <=? nat_of_ascii b)) c.
Proof.
  intros (Hc & Hw & Hu).
  destruct (Text.ascii_of c) as [b|] eqn:E.
  - unfold isword in Hw. unfold char_upper in Hu. rewrite E in Hw, Hu.
    apply TextFacts.ascii_of_Some in E as [-> _].
    injection Hu as Hu. apply TextFacts.upper_char_fixed in Hu.
    cbn [Text.all_chars]. split; [|trivial].
    unfold Text.is_word in Hw. rewrite Hu in Hw. cbn [orb] in Hw.
    destruct (Text.is_upper b); [reflexivity|].
    destruct (Text.is_digit b); [reflexivity|].
    cbn [orb] in Hw |- *. apply Nat.eqb_eq in Hw.
    assert (Eb : b = "_"%char).
    { rewrite <- (ascii_nat_embedding b), Hw. reflexivity. }
    subst b. reflexivity.
  - eapply TextFacts.all_chars_impl; [|apply (TextFacts.is_char_bytes c Hc E)].
    intros b Hb. rewrite Hb. apply orb_true_r.
Qed.

(** The bytes of a text whose characters all have bytes in [p], and of what
    [str_strip] leaves of it. *)
Lemma text_bytes (p : ascii -> bool) s :
  Forall (Text.all_chars p) (Text.chars (clean_name s)) ->
  Text.all_chars p (clean_name s).
Proof.
  intros H. rewrite clean_name_text. now apply TextFacts.all_chars_text_of.
Qed.

Lemma str_strip_bytes (p : ascii -> bool) s :
  Forall (Text.all_chars p) (Text.chars s) ->
  Text.all_chars p (str_strip s).
Proof.
  intros H. unfold str_strip.
  apply TextFacts.all_chars_text_of. now apply Forall_strip_chars.
Qed.

Lemma clean_name_word_chars s :
  Forall (Text.all_chars (fun b => Text.is_word b || (128 <=? nat_of_ascii b)))
         (Text.chars (clean_name s)).
Proof.
  apply Forall_forall. intros d Hd.
  destruct (clean_name_provenance s d Hd) as (Hc & Hw & _).
  now apply word_bytes.
Qed.

Lemma clean_name_settled_chars s :
  Text.all_chars Text.is_ascii s \/ upper_is_stable ->
  Forall (Text.all_chars
            (fun b => Text.is_upper b || Text.is_digit b || Ascii.eqb b "_"%char
                      || (128 <=? nat_of_ascii b)))
         (Text.chars (clean_name s)).
Proof.
  intros H.
  assert (Hs : Forall settled (Text.chars (clean_name s)))
    by (destruct H; [now apply settled_clean_name_ascii
                    | now apply settled_clean_name]).
  eapply Forall_impl; [|exact Hs]. intros c. apply settled_bytes.
Qed.

End NameFacts.

(** The tables of the reference library have the two properties. *)
Module ReferenceTables.

Lemma reference_upper_is_stable : @upper_is_stable Reference.library.
Proof.
  intros c d Hc Hd. unfold char_upper in Hd.
  destruct (Text.ascii_of c) as [b|] eqn:E.
  - destruct Hd as [<-|[]].
    apply TextFacts.ascii_of_Some in E as [_ Hb].
    apply TextFacts.upper_char_ascii in Hb.
    unfold char_upper, Text.ascii_of. rewrite Hb.
    now rewrite TextFacts.upper_char_twice.
  - cbn [unicode_upper Reference.library] in Hd. unfold Reference.upper_table in Hd.
    destruct (String.eqb_spec c Reference.e_acute) as [->|H1].
    { vm_compute in Hd. destruct Hd as [<-|[]]. vm_compute. reflexivity. }
    destruct (String.eqb_spec c Reference.sharp_s) as [->|H2].
    { vm_compute in Hd. destruct Hd as [<-|[<-|[]]]; vm_compute; reflexivity. }
    rewrite (TextFacts.chars_char c Hc) in Hd. destruct Hd as [<-|[]].
    unfold char_upper. rewrite E.
    cbn [unicode_upper Reference.library]. unfold Reference.upper_table.
    apply String.eqb_neq in H1, H2. rewrite H1, H2.
    now apply TextFacts.chars_char.
Qed.

Lemma reference_space_is_not_word : @space_is_not_word Reference.library.
Proof.
  intros c _. unfold isspace, isword.
  destruct (Text.ascii_of c) as [b|]; [apply TextFacts.space_not_word|].
  cbn [unicode_isspace unicode_isword Reference.library].
  unfold Reference.isspace_table, Reference.isword_table.
  intros H. now rewrite H.
Qed.

End ReferenceTables.

(* ----------------------------------------------------------------- *)
(** ** Columns by name *)

Section FrameFacts.

Context {lib : Library}.

Lemma assoc_set_same c s l : assoc c (assoc_set c s l) = Some s.
Proof.
  induction l as [|[k v] r IH]; simpl.
  - now rewrite String.eqb_refl.
  - destruct (String.eqb_spec k c) as [->|Hk]; simpl.
    + now rewrite String.eqb_refl.
    + apply String.eqb_neq in Hk. now rewrite Hk.
Qed.

Lemma assoc_set_other c c' s l :
  c <> c' -> assoc c (assoc_set c' s l) = assoc c l.
Proof.
  intros Hc. induction l as [|[k v] r IH]; simpl.
  - destruct (String.eqb_spec c' c); [congruence | reflexivity].
  - destruct (String.eqb_spec k c') as [->|Hk]; simpl.
    + destruct (String.eqb_spec c' c); [congruence | reflexivity].
    + now rewrite IH.
Qed.

Lemma assoc_filter_other c c' l :
  c <> c' ->
  assoc c (filter (fun kv => negb (fst kv =? c')%string) l) = assoc c l.
Proof.
  intros Hc. induction l as [|[k v] r IH]; simpl; [reflexivity|].
  destruct (String.eqb_spec k c') as [->|Hk]; simpl.
  - destruct (String.eqb_spec c' c); [congruence | exact IH].
  - now rewrite IH.
Qed.

Lemma assoc_filter_same c l :
  assoc c (filter (fun kv => negb (fst kv =? c)%string) l) = None.
Proof.
  induction l as [|[k v] r IH]; simpl; [reflexivity|].
  destruct (String.eqb_spec k c) as [->|Hk]; simpl; [exact IH|].
  apply String.eqb_neq in Hk. now rewrite Hk.
Qed.

Lemma assoc_set_twice c s s' l :
  assoc_set c s (assoc_set c s' l) = assoc_set c s l.
Proof.
  induction l as [|[k v] r IH]; simpl.
  - now rewrite String.eqb_refl.
  - destruct (String.eqb_spec k c) as [->|Hk]; simpl.
    + now rewrite String.eqb_refl.
    + apply String.eqb_neq in Hk. now rewrite Hk, IH.
Qed.

Lemma setitem_twice c s s' df :
  setitem c s (setitem c s' df) = setitem c s df.
Proof. unfold setitem. simpl. now rewrite assoc_set_twice. Qed.

Lemma getitem_setitem c s df : getitem c (setitem c s df) = Some s.
Proof. apply assoc_set_same. Qed.

Lemma getitem_setitem_other c c' s df :
  c <> c' -> getitem c (setitem c' s df) = getitem c df.
Proof. apply assoc_set_other. Qed.

Lemma getitem_drop c df : getitem c (drop c df) = None.
Proof. apply assoc_filter_same. Qed.

Lemma getitem_drop_other c c' df :
  c <> c' -> getitem c (drop c' df) = getitem c df.
Proof. apply assoc_filter_other. Qed.

Lemma getitem_update c f df :
  getitem c (update c f df) = option_map f (getitem c df).
Proof.
  unfold update. destruct (getitem c df) eqn:E; simpl.
  - apply getitem_setitem.
  - exact E.
Qed.

Lemma getitem_update_other c c' f df :
  c <> c' -> getitem c (update c' f df) = getitem c df.
Proof.
  intros Hc. unfold update. destruct (getitem c' df); [|reflexivity].
  now apply getitem_setitem_other.
Qed.

(** A loop [for col in cols: if col in df.columns: df[col] = f(col, df[col])]
    over distinct names rewrites the named columns and no other. *)
Lemma getitem_update_loop (f : string -> series -> series) cols :
  NoDup cols ->
  forall c df,
    getitem c (fold_left (fun d col => update col (f col) d) cols df) =
    if in_dec string_dec c cols then option_map (f c) (getitem c df)
    else getitem c df.
Proof.
  induction 1 as [|a cols Ha Hnd IH]; intros c df; simpl; [reflexivity|].
  rewrite IH.
  destruct (string_dec a c) as [->|Hac].
  - destruct (in_dec string_dec c cols) as [Hin|_]; [contradiction|].
    apply getitem_update.
  - rewrite getitem_update_other by congruence.
    destruct (in_dec string_dec c cols); reflexivity.
Qed.

Lemma NoDup_filter {A} (p : A -> bool) l : NoDup l -> NoDup (filter p l).
Proof.
  induction 1 as [|a l Ha Hl IH]; simpl; [constructor|].
  destruct (p a); [constructor|]; auto.
  rewrite filter_In. tauto.
Qed.

End FrameFacts.

(* ----------------------------------------------------------------- *)
(** ** Order statistics *)

Module StatsFacts.
Import Stats.

Lemma length_insert a l : List.length (insert a l) = S (List.length l).
Proof.
  induction l as [|b r IH]; simpl; [reflexivity|].
  destruct (Qle_bool a b); simpl; [reflexivity | now rewrite IH].
Qed.

Lemma length_sort l : List.length (sort l) = List.length l.
Proof.
  induction l as [|a r IH]; simpl; [reflexivity|].
  now rewrite length_insert, IH.
Qed.

Lemma dropna_nonempty x q : In (Some q) x -> dropna x <> [].
Proof.
  induction x as [|[p|] r IH]; simpl; [tauto | discriminate |].
  intros [H|H]; [discriminate | auto].
Qed.

Lemma median_some x : dropna x <> [] -> exists m, median x = Some m.
Proof.
  intros H. unfold median.
  destruct (List.length (sort (dropna x))) eqn:E.
  - rewrite length_sort in E. destruct (dropna x); [congruence | discriminate].
  - destruct (Nat.odd (S n)); eauto.
Qed.

Lemma median_none x : dropna x = [] -> median x = None.
Proof. intros H. unfold median. now rewrite H. Qed.

Lemma fillna_some m x : ~ In None (fillna (Some m) x).
Proof.
  unfold fillna. rewrite in_map_iff. intros [[q|] [H _]]; discriminate.
Qed.

Lemma nth_error_fillna v x i :
  nth_error (fillna v x) i =
  option_map (fun c => match c with Some q => Some q | None => v end)
             (nth_error x i).
Proof. unfold fillna. apply nth_error_map. Qed.

End StatsFacts.

(* ----------------------------------------------------------------- *)
(** ** handle_missing_values *)

Section MissingValues.

Context {lib : Library}.

Lemma potential_num_cols_NoDup : NoDup potential_num_cols.
Proof.
  unfold potential_num_cols.
  repeat (constructor; [simpl; intuition discriminate|]). constructor.
Qed.

Lemma potential_cat_cols_NoDup : NoDup potential_cat_cols.
Proof.
  unfold potential_cat_cols.
  repeat (constructor; [simpl; intuition discriminate|]). constructor.
Qed.

Lemma num_col_not_cat col :
  In col potential_num_cols -> ~ In col potential_cat_cols.
Proof.
  unfold potential_num_cols, potential_cat_cols. simpl.
  intros H. repeat (destruct H as [<-|H]; [intuition discriminate|]).
  contradiction.
Qed.

Lemma coerce_numeric col s : exists x, coerce col s = NumCol x.
Proof. unfold coerce. destruct (col =? "VOTES")%string; eauto. Qed.

(** What the three loops leave in a column of the numeric set. *)
Lemma handle_missing_values_getitem df col :
  In col potential_num_cols ->
  getitem col (handle_missing_values df) =
  option_map (fun s => fill_median (coerce col s))
             (getitem col (dropna_columns (rename str_strip df))).
Proof.
  intros Hcol. unfold handle_missing_values.
  set (df1 := dropna_columns (rename str_strip df)).
  set (num_cols := filter (fun c => has_column c df1) potential_num_cols).
  set (cat_cols := filter (fun c => has_column c df1) potential_cat_cols).
  assert (Hn : NoDup num_cols) by apply NoDup_filter, potential_num_cols_NoDup.
  assert (Hc : NoDup cat_cols) by apply NoDup_filter, potential_cat_cols_NoDup.
  rewrite (getitem_update_loop (fun _ => fill_unknown) cat_cols Hc).
  destruct (in_dec string_dec col cat_cols) as [Hin|_].
  { apply filter_In in Hin as [Hin _]. now apply num_col_not_cat in Hin. }
  rewrite (getitem_update_loop (fun _ => fill_median) num_cols Hn).
  rewrite (getitem_update_loop coerce num_cols Hn).
  destruct (in_dec string_dec col num_cols) as [Hin|Hout].
  - now destruct (getitem col df1).
  - assert (E : has_column col df1 = false).
    { destruct (has_column col df1) eqn:E; [|reflexivity].
      exfalso. apply Hout. apply filter_In. now split. }
    unfold has_column in E. now destruct (getitem col df1).
Qed.

End MissingValues.

(** C1, as amended.  For every library and table whose column names stay
    distinct once stripped, a column of the numeric set RATING, VOTES,
    RunTime, Gross that is present once the all-missing columns are dropped
    comes out of [handle_missing_values] as a numeric column: the coerced
    cells (VOTES with its commas removed first), every gap filled with the
    median of the coerced non-missing cells.  It holds no missing value as
    soon as one cell coerces to a number; if none does it stays as coerced,
    entirely missing.  With the reference library, VOTES "1,234", "  ",
    "500" becomes 1234, 867, 500. *)
Theorem handle_missing_values_numeric :
  (forall (lib : Library) (df : DataFrame) (col : string) (s0 : series),
      NoDup (map str_strip (names df)) ->
      In col potential_num_cols ->
      getitem col (dropna_columns (rename str_strip df)) = Some s0 ->
      exists x,
        coerce col s0 = NumCol x /\
        getitem col (handle_missing_values df) =
          Some (NumCol (Stats.fillna (Stats.median x) x)) /\
        (forall i, nth_error (Stats.fillna (Stats.median x) x) i =
                   option_map (fun c => match c with
                                        | Some q => Some q
                                        | None => Stats.median x
                                        end) (nth_error x i)) /\
        (Stats.dropna x <> [] ->
         ~ In None (Stats.fillna (Stats.median x) x)) /\
        (Stats.dropna x = [] ->
         Stats.fillna (Stats.median x) x = x /\ forall c, In c x -> c = None))
  /\
  (let df := {| index := [0; 1; 2];
                columns := [("VOTES", ObjCol [Str "1,234"; Str "  "; Str "500"])] |} in
   option_map (fun s => map (option_map Qred) (@to_numeric Reference.library s))
              (getitem "VOTES" (@handle_missing_values Reference.library df))
   = Some [Some 1234%Q; Some 867%Q; Some 500%Q]).
Proof.
  split; [|vm_compute; reflexivity].
  intros lib df col s0 _ Hcol Hget.
  destruct (coerce_numeric col s0) as [x Hx]. exists x.
  split; [exact Hx|]. split.
  { rewrite handle_missing_values_getitem by assumption.
    rewrite Hget. simpl. now rewrite Hx. }
  split; [intros i; apply StatsFacts.nth_error_fillna|]. split.
  - intros Hne. destruct (StatsFacts.median_some x Hne) as [m ->].
    apply StatsFacts.fillna_some.
  - intros He. rewrite (StatsFacts.median_none x He).
    assert (Hall : forall c, In c x -> c = None).
    { clear -He. induction x as [|[q|] r IH]; simpl in *;
        [tauto | discriminate |].
      intros c [<-|H]; auto. }
    split; [|exact Hall].
    unfold Stats.fillna. rewrite <- (map_id x) at 2.
    apply map_ext_in. intros c Hc. now rewrite (Hall c Hc).
Qed.

Lemma handle_missing_values_numeric_witness :
  let df := {| index := [0; 1; 2];
               columns := [(" VOTES", ObjCol [Str "1,234"; NaN; Str "500"]);
                           ("RATING", NumCol [Some 7; None; Some 9]%Q)] |} in
  exists x,
    @coerce Reference.library "RATING" (NumCol [Some 7; None; Some 9]%Q) = NumCol x /\
    getitem "RATING" (@handle_missing_values Reference.library df) =
      Some (NumCol (Stats.fillna (Stats.median x) x)) /\
    ~ In None (Stats.fillna (Stats.median x) x).
Proof.
  intros df.
  destruct (proj1 handle_missing_values_numeric Reference.library df "RATING"
              (NumCol [Some 7; None; Some 9]%Q))
    as [x (H1 & H2 & _ & H4 & _)].
  - simpl. repeat (constructor; [simpl; intuition discriminate|]). constructor.
  - simpl. auto.
  - reflexivity.
  - exists x. split; [exact H1|]. split; [exact H2|].
    apply H4. vm_compute in H1. injection H1 as <-. discriminate.
Defined.

(** C1, the claim as written fails: a RATING column none of whose cells is a
    number is still entirely missing after the handler. *)
Lemma handle_missing_values_leaves_unparsable_column_missing :
  let df := {| index := [0; 1];
               columns := [("RATING", ObjCol [Str "unrated"; Str "unrated"])] |} in
  getitem "RATING" (@handle_missing_values Reference.library df)
  = Some (NumCol [None; None]).
Proof. vm_compute. reflexivity. Qed.

(** In [main] the names are cleaned before the handler runs: no cleaned name
    contains a lower-case letter, so no column reaches the handler under the
    name RunTime or Gross. *)
Lemma clean_name_not_mixed_case (lib : Library) s :
  Text.all_chars Text.is_ascii s \/ upper_is_stable ->
  clean_name s <> "RunTime" /\ clean_name s <> "Gross".
Proof.
  intros Hs. pose proof (text_bytes _ s (clean_name_settled_chars s Hs)) as H.
  split; intros E; rewrite E in H; vm_compute in H; intuition discriminate.
Qed.

(** A RunTime column goes through the normalizer and the handler without
    being coerced or filled: it arrives as RUNTIME. *)
Example runtime_column_is_not_recognized :
  let df := {| index := [0; 1; 2; 3];
               columns := [("RATING", ObjCol [Str "7"; NaN; Str "9"; Str "8"]);
                           ("RunTime", ObjCol [Str "90"; NaN; Str "120"; Str "x"])] |} in
  @handle_missing_values Reference.library
    (@clean_column_names Reference.library df)
  = {| index := [0; 1; 2; 3];
       columns := [("RATING", NumCol [Some 7; Some 8; Some 9; Some 8]%Q);
                   ("RUNTIME", ObjCol [Str "90"; NaN; Str "120"; Str "x"])] |}.
Proof. vm_compute. reflexivity. Qed.

(* ----------------------------------------------------------------- *)
(** ** clean_column_names *)

(** C9.  The new column names are [clean_name] applied to the old ones, name
    by name, whatever the columns hold; and cleaning names that are already
    clean changes nothing, on a list of names and on a frame.  For ASCII
    names this holds as it stands; for names of any script it holds by two
    facts about the characters of Python: the characters of an upper-case
    form are their own upper-case forms, and whitespace is no word
    character. *)
Theorem clean_column_names_idempotent (lib : Library) :
  (forall df : DataFrame,
      names (clean_column_names df) = map clean_name (names df)) /\
  (forall l : list string,
      Forall (Text.all_chars Text.is_ascii) l ->
      map clean_name (map clean_name l) = map clean_name l) /\
  (forall df : DataFrame,
      Forall (Text.all_chars Text.is_ascii) (names df) ->
      clean_column_names (clean_column_names df) = clean_column_names df) /\
  (upper_is_stable ->
   space_is_not_word ->
   (forall l : list string,
       map clean_name (map clean_name l) = map clean_name l) /\
   (forall df : DataFrame,
       clean_column_names (clean_column_names df) = clean_column_names df)).
Proof.
  split; [|split; [|split]].
  - intros df. unfold names, clean_column_names, rename. simpl.
    rewrite !map_map. reflexivity.
  - intros l Hl. rewrite map_map. apply map_ext_in. intros s Hs.
    rewrite Forall_forall in Hl. now apply clean_name_twice_ascii, Hl.
  - intros df Hl. unfold clean_column_names, rename. simpl. f_equal.
    rewrite map_map. apply map_ext_in. intros [k v] Hk. simpl. f_equal.
    rewrite Forall_forall in Hl. apply clean_name_twice_ascii, Hl.
    unfold names. apply in_map_iff. now exists (k, v).
  - intros Hup Hsp.
    assert (H : forall s, clean_name (clean_name s) = clean_name s)
      by (intros s; now apply clean_name_twice).
    split.
    + intros l. rewrite map_map. apply map_ext. exact H.
    + intros df. unfold clean_column_names, rename. simpl. f_equal.
      rewrite map_map. apply map_ext. intros [k v]. simpl. now rewrite H.
Qed.

Lemma clean_column_names_idempotent_witness :
  let l := [" Run-Time (min) ";
            (" caf" ++ Reference.e_acute ++ "-" ++ Reference.sharp_s
             ++ Reference.euro_sign ++ Reference.no_break_space)%string] in
  map (@clean_name Reference.library) (map (@clean_name Reference.library) l)
  = map (@clean_name Reference.library) l /\
  map (@clean_name Reference.library)
      (map (@clean_name Reference.library) [" Run-Time (min) "])
  = map (@clean_name Reference.library) [" Run-Time (min) "].
Proof.
  intros l.
  destruct (clean_column_names_idempotent Reference.library) as (_ & H2 & _ & H4).
  split.
  - apply (H4 ReferenceTables.reference_upper_is_stable
              ReferenceTables.reference_space_is_not_word).
  - apply H2. repeat constructor.
Defined.

(** With the reference tables: the blanks and the no-break space around a
    name go, e-acute and sharp s become E-acute and SS, blank and hyphen
    become underscores, and the parentheses and the euro sign are dropped. *)
Example clean_name_values :
  @clean_name Reference.library " Run-Time (min) " = "RUN_TIME_MIN" /\
  @clean_name Reference.library
    (" caf" ++ Reference.e_acute ++ "-" ++ Reference.sharp_s
     ++ Reference.euro_sign ++ Reference.no_break_space)%string
  = ("CAF" ++ Reference.capital_e_acute ++ "_SS")%string.
Proof. split; vm_compute; reflexivity. Qed.

(* ----------------------------------------------------------------- *)
(** ** load_data and main *)

(** C8.  When the source path does not exist [load_data] raises
    [FileNotFoundError]; [main] then stops with that error and leaves the
    files as they were.  In every run, an error of any stage leaves the files
    untouched, and the output file is written only with the frame that came
    out of the last stage. *)
Theorem missing_source_writes_nothing (lib : Library) (fs : file_system) :
  (forall path, read_file path fs = None ->
                load_data path fs = Raise FileNotFoundError) /\
  (read_file input_path fs = None ->
   main fs = (Raise FileNotFoundError, fs)) /\
  (forall r fs', main fs = (r, fs') ->
     (exists e, r = Raise e /\ fs' = fs) \/
     (exists df0 df, load_data input_path fs = Ok df0 /\ clean df0 = Ok df /\
                     r = Ok tt /\ fs' = save_cleaned_data df output_path fs)).
Proof.
  split; [|split].
  - intros path H. unfold load_data. now rewrite H.
  - intros H. unfold main, load_data. now rewrite H.
  - intros r fs'. unfold main.
    destruct (load_data input_path fs) as [df0|e] eqn:E0; simpl.
    + destruct (clean df0) as [df|e] eqn:E1; intros [= <- <-].
      * right. exists df0, df. auto.
      * left. eauto.
    + intros [= <- <-]. left. eauto.
Qed.

Lemma missing_source_writes_nothing_witness :
  let fs := [("notes.txt", "no table here")] in
  @main Reference.library fs = (Raise FileNotFoundError, fs).
Proof.
  intros fs.
  apply (proj1 (proj2 (missing_source_writes_nothing Reference.library fs))).
  reflexivity.
Defined.

(** The rows of a file whose lines hold one field more than its header are
    labelled by their first field; [load_data] returns them so, and
    [remove_outliers], whose mask is labelled 0, 1, 2, cannot select with
    it. *)
Example load_data_row_labels :
  let fs := [("movies.csv", "MOVIES,RATING
10,a,5
11,b,5
12,c,5
")] in
  @load_data Reference.library "movies.csv" fs
  = Ok {| index := [10; 11; 12];
          columns := [("MOVIES", ObjCol [Str "a"; Str "b"; Str "c"]);
                      ("RATING", NumCol [Some 5; Some 5; Some 5]%Q)] |} /\
  @main Reference.library fs = (Raise IndexingError, fs).
Proof. split; vm_compute; reflexivity. Qed.

(* ----------------------------------------------------------------- *)
(** ** extract_year_info *)

Section YearFacts.

Context {lib : Library}.

Lemma series_of_numeric_cells x : series_of_cells (map cell_of_num x) = NumCol x.
Proof.
  unfold series_of_cells.
  assert (H1 : forallb is_number_cell (map cell_of_num x) = true).
  { induction x as [|[q|] r IH]; simpl; auto. }
  rewrite H1. f_equal. clear H1.
  induction x as [|[q|] r IH]; simpl; congruence.
Qed.

(** Writing NaN into the cells that are already NaN changes nothing. *)
Lemma scatter_nothing x :
  scatter (map isna_cell (map cell_of_num x)) [] (map cell_of_num x)
  = map cell_of_num x.
Proof.
  induction x as [|[q|] r IH]; simpl; [reflexivity | |]; now rewrite IH.
Qed.

Lemma to_numeric_extracted search x :
  to_numeric (ObjCol (ex_cells (str_extract search x))) =
  map (fun t => match search_cell search t with
                | Some y => to_numeric_str y
                | None => None
                end) x.
Proof.
  simpl. rewrite map_map. apply map_ext. intros t.
  now destruct (search_cell search t).
Qed.

(** Whatever MOVIES holds, YEAR_CLEANED is the primary extraction: the frame
    that the fallback extraction returns has no column called YEAR_CLEANED,
    so the assignment through [.loc] writes NaN over the cells that were
    NaN. *)
Lemma extract_year_info_primary_only df year movies :
  getitem "YEAR" df = Some year ->
  getitem "MOVIES" df = Some movies ->
  extract_year_info df =
  Ok (setitem "YEAR_CLEANED"
        (NumCol (map primary_year (astype_str year))) df).
Proof.
  intros Hy Hm. unfold extract_year_info. rewrite Hy.
  set (raw := ObjCol (ex_cells (str_extract search_year (astype_str year)))).
  set (yc := map primary_year (astype_str year)).
  assert (Hyc : to_numeric raw = yc) by apply to_numeric_extracted.
  assert (E1 : update "YEAR_CLEANED" (fun s => NumCol (to_numeric s))
                 (setitem "YEAR_CLEANED" raw df)
               = setitem "YEAR_CLEANED" (NumCol yc) df).
  { unfold update. rewrite getitem_setitem, Hyc. apply setitem_twice. }
  rewrite E1. rewrite getitem_setitem.
  destruct (existsb id (isna (NumCol yc))); [|reflexivity].
  rewrite getitem_setitem_other by discriminate. rewrite Hm.
  f_equal. unfold loc_setitem_frame. simpl ex_label. simpl label_eqb.
  cbv iota.
  assert (E2 : forall d, getitem "YEAR_CLEANED" d = Some (NumCol yc) ->
               update "YEAR_CLEANED"
                 (fun s => series_of_cells
                             (scatter (isna (NumCol yc)) [] (cells_of s))) d
               = setitem "YEAR_CLEANED" (NumCol yc) d).
  { intros d Hd. unfold update. rewrite Hd. simpl cells_of.
    unfold isna. simpl cells_of.
    now rewrite scatter_nothing, series_of_numeric_cells. }
  rewrite E2 by apply getitem_setitem.
  unfold update. rewrite getitem_setitem. simpl to_numeric.
  now rewrite !setitem_twice.
Qed.

End YearFacts.

(* ----------------------------------------------------------------- *)
(** ** The reference parser on a run of digits *)

Module ReferenceFacts.
Import Text Reference.

Lemma digit_not_space c : is_digit c = true -> negb (is_space c) = true.
Proof.
  unfold is_digit, is_space. intros H.
  apply andb_true_iff in H as [H1 H2].
  apply Nat.leb_le in H1. apply Nat.leb_le in H2.
  apply negb_true_iff, orb_false_iff. split; apply andb_false_iff.
  - right. apply Nat.leb_gt. lia.
  - right. apply Nat.leb_gt. lia.
Qed.

Lemma digit_not (a : ascii) c :
  is_digit a = false -> is_digit c = true -> Ascii.eqb c a = false.
Proof.
  intros Ha Hc. destruct (Ascii.eqb_spec c a) as [->|]; [congruence | reflexivity].
Qed.

Lemma all_digits_chars y : all_digits y = true -> all_chars is_digit y.
Proof.
  induction y as [|c r IH]; simpl; [trivial|].
  intros H. apply andb_true_iff in H as [Hc Hr]. auto.
Qed.

Lemma split_dot_digits y : all_digits y = true -> split_dot y = (y, EmptyString).
Proof.
  induction y as [|c r IH]; simpl; [reflexivity|].
  intros H. apply andb_true_iff in H as [Hc Hr].
  rewrite (digit_not "."%char c eq_refl Hc), (IH Hr). reflexivity.
Qed.

Lemma append_empty y : (y ++ "")%string = y.
Proof. induction y as [|c r IH]; simpl; congruence. Qed.

(** The reference parser reads a non-empty run of digits as its value. *)
Lemma decimal_digits y :
  all_digits y = true -> y <> EmptyString ->
  decimal y = Some (Qred (Qmake (digits_value y) 1)).
Proof.
  intros Hd Hne. unfold decimal.
  assert (Hs : strip y = y).
  { unfold strip.
    assert (H : all_chars (fun c => negb (is_space c)) y).
    { eapply TextFacts.all_chars_impl; [apply digit_not_space|].
      now apply all_digits_chars. }
    now rewrite (TextFacts.lstrip_id y H), (TextFacts.rstrip_id y H). }
  rewrite Hs. destruct y as [|c r]; [congruence|].
  pose proof Hd as Hd'. simpl in Hd'. apply andb_true_iff in Hd' as [Hc _].
  rewrite (digit_not "-"%char c eq_refl Hc), (digit_not "+"%char c eq_refl Hc).
  rewrite (split_dot_digits _ Hd), Hd, append_empty. reflexivity.
Qed.

Lemma isdigit_ascii c :
  @isdigit library c = true ->
  exists b, c = String b EmptyString /\ is_digit b = true.
Proof.
  unfold isdigit. destruct (ascii_of c) as [b|] eqn:E; [|discriminate].
  apply TextFacts.ascii_of_Some in E as [-> _]. eauto.
Qed.

Lemma four_digits_here_digits l y :
  @four_digits_here library l = Some y ->
  all_digits y = true /\ y <> EmptyString.
Proof.
  unfold four_digits_here.
  destruct l as [|a [|b [|c [|d r]]]]; try discriminate.
  destruct (isdigit a) eqn:Ea, (isdigit b) eqn:Eb, (isdigit c) eqn:Ec,
           (isdigit d) eqn:Ed; simpl; try discriminate.
  apply isdigit_ascii in Ea as [a' [-> Ea]]. apply isdigit_ascii in Eb as [b' [-> Eb]].
  apply isdigit_ascii in Ec as [c' [-> Ec]]. apply isdigit_ascii in Ed as [d' [-> Ed]].
  intros [= <-]. simpl. rewrite Ea, Eb, Ec, Ed. split; [reflexivity | discriminate].
Qed.

Lemma search_year_digits s y :
  @search_year library s = Some y -> all_digits y = true /\ y <> EmptyString.
Proof.
  unfold search_year. induction (chars s) as [|c r IH].
  - simpl. discriminate.
  - cbn [search_year_from].
    destruct (four_digits_here (c :: r)) as [z|] eqn:E.
    + intros [= <-]. now apply four_digits_here_digits in E.
    + exact IH.
Qed.

(** With the reference parser, the year read from a cell is the number that
    its leftmost four digits spell. *)
Lemma primary_year_value t y :
  @search_year library t = Some y ->
  exists q, @primary_year library (Some t) = Some q /\
            q == inject_Z (digits_value y).
Proof.
  intros H. unfold primary_year. simpl search_cell. rewrite H.
  destruct (search_year_digits t y H) as [Hd Hne].
  simpl to_numeric_str. rewrite (decimal_digits y Hd Hne).
  eexists. split; [reflexivity|]. apply Qred_correct.
Qed.


End ReferenceFacts.

(** C5, the code against the claim.  With YEAR and MOVIES present,
    YEAR_CLEANED is the year parsed from the leftmost four digits of the text
    of the YEAR cell (with the reference parser: the number these digits
    spell), and nothing else: the fallback never fills a cell.  For YEAR
    "N/A" and MOVIES "Movie X (2016)" the derived year stays missing, where
    the claim has 2016. *)
Theorem extract_year_info_fallback_never_fills :
  (forall (lib : Library) (df : DataFrame) (year movies : series),
      getitem "YEAR" df = Some year ->
      getitem "MOVIES" df = Some movies ->
      exists out,
        extract_year_info df = Ok out /\
        getitem "YEAR_CLEANED" out =
          Some (NumCol (map primary_year (astype_str year)))) /\
  (forall t y : string,
      @search_year Reference.library t = Some y ->
      exists q, @primary_year Reference.library (Some t) = Some q /\
                q == inject_Z (Text.digits_value y)) /\
  (let df := {| index := [0; 1];
                columns := [("YEAR", ObjCol [Str "(2015)"; Str "N/A"]);
                            ("MOVIES", ObjCol [Str "Movie X (2016)";
                                               Str "Movie X (2016)"])] |} in
   exists out,
     @extract_year_info Reference.library df = Ok out /\
     getitem "YEAR_CLEANED" out = Some (NumCol [Some 2015%Q; None])).
Proof.
  split; [|split].
  - intros lib df year movies Hy Hm.
    rewrite (extract_year_info_primary_only df year movies Hy Hm).
    eexists. split; [reflexivity|]. apply getitem_setitem.
  - exact ReferenceFacts.primary_year_value.
  - eexists. split; vm_compute; reflexivity.
Qed.

Lemma extract_year_info_fallback_never_fills_witness :
  let df := {| index := [0];
               columns := [("YEAR", ObjCol [Str "unknown"]);
                           ("MOVIES", ObjCol [Str "Heat (1995)"])] |} in
  exists out,
    @extract_year_info Reference.library df = Ok out /\
    getitem "YEAR_CLEANED" out = Some (NumCol [None]).
Proof.
  intros df.
  destruct (proj1 extract_year_info_fallback_never_fills Reference.library df
              (ObjCol [Str "unknown"]) (ObjCol [Str "Heat (1995)"])
              eq_refl eq_refl) as [out [H1 H2]].
  exists out. split; [exact H1 | exact H2].
Defined.

(* ----------------------------------------------------------------- *)
(** ** encode_categorical *)

Section EncoderFacts.

Context {lib : Library}.

Lemma object_columns_names l : forall c, In c (object_columns l) -> In c (map fst l).
Proof.
  induction l as [|[k [x|x]] r IH]; simpl; intros c H; auto.
  destruct H; auto.
Qed.

Lemma object_columns_NoDup l : NoDup (map fst l) -> NoDup (object_columns l).
Proof.
  induction l as [|[k [x|x]] r IH]; simpl; intros H.
  - constructor.
  - inversion H; subst. auto.
  - inversion H; subst. constructor; auto.
    intros Hin. now apply object_columns_names in Hin.
Qed.

Lemma assoc_object_column c x l :
  assoc c l = Some (ObjCol x) -> In c (object_columns l).
Proof.
  induction l as [|[k v] r IH]; simpl; [discriminate|].
  destruct (String.eqb_spec k c) as [->|Hk].
  - intros [= ->]. simpl. auto.
  - intros H. destruct v; simpl; auto.
Qed.

Lemma assoc_numeric_column c x l :
  NoDup (map fst l) -> assoc c l = Some (NumCol x) -> ~ In c (object_columns l).
Proof.
  induction l as [|[k v] r IH]; simpl; [discriminate|].
  intros Hnd. inversion Hnd as [|? ? Hk' Hr]; subst.
  destruct (String.eqb_spec k c) as [->|Hk].
  - intros [= ->] Hin. now apply object_columns_names in Hin.
  - intros H. destruct v; simpl.
    + now apply IH.
    + intros [?|Hin]; [congruence|]. now apply (IH Hr H).
Qed.

Lemma getitem_encode_step c df :
  getitem c (encode_step df c) =
  match getitem c df with
  | Some s => encode_outcome s
  | None => None
  end.
Proof.
  unfold encode_step, encode_outcome. destruct (getitem c df) as [s|] eqn:E.
  - destruct (1 <? nunique s); [apply getitem_setitem | apply getitem_drop].
  - exact E.
Qed.

Lemma getitem_encode_step_other c c' df :
  c <> c' -> getitem c (encode_step df c') = getitem c df.
Proof.
  intros Hc. unfold encode_step. destruct (getitem c' df) as [s|]; [|reflexivity].
  destruct (1 <? nunique s);
    [now apply getitem_setitem_other | now apply getitem_drop_other].
Qed.

Lemma getitem_encode_loop cols :
  NoDup cols ->
  forall c df,
    getitem c (fold_left encode_step cols df) =
    if in_dec string_dec c cols then
      match getitem c df with
      | Some s => encode_outcome s
      | None => None
      end
    else getitem c df.
Proof.
  induction 1 as [|a cols Ha Hnd IH]; intros c df; simpl; [reflexivity|].
  rewrite IH.
  destruct (string_dec a c) as [->|Hac].
  - destruct (in_dec string_dec c cols) as [Hin|_]; [contradiction|].
    apply getitem_encode_step.
  - rewrite getitem_encode_step_other by congruence.
    destruct (in_dec string_dec c cols); reflexivity.
Qed.

Lemma index_encode_step df col : index (encode_step df col) = index df.
Proof.
  unfold encode_step. destruct (getitem col df) as [s|]; [|reflexivity].
  now destruct (1 <? nunique s).
Qed.

Lemma index_encode_categorical df : index (encode_categorical df) = index df.
Proof.
  unfold encode_categorical. set (cols := filter _ _). clearbody cols.
  revert df. induction cols as [|c r IH]; intros df; simpl; [reflexivity|].
  now rewrite IH, index_encode_step.
Qed.

(** A column of dtype object other than MOVIES is visited by the loop. *)
Lemma getitem_encode_object df col x :
  NoDup (names df) ->
  col <> "MOVIES" ->
  getitem col df = Some (ObjCol x) ->
  getitem col (encode_categorical df) = encode_outcome (ObjCol x).
Proof.
  intros Hnd Hcol Hget. unfold encode_categorical.
  rewrite getitem_encode_loop
    by (apply NoDup_filter, object_columns_NoDup; exact Hnd).
  destruct (in_dec string_dec col _) as [_|Hout].
  - now rewrite Hget.
  - exfalso. apply Hout. apply filter_In. split.
    + now apply assoc_object_column with (x := x).
    + apply negb_true_iff. now apply String.eqb_neq.
Qed.

Lemma In_insert_str a b l : In a (insert_str b l) <-> a = b \/ In a l.
Proof.
  induction l as [|c r IH]; simpl; [intuition|].
  destruct (String.eqb_spec b c) as [->|Hbc].
  - simpl. intuition.
  - destruct (String.leb b c); simpl; [intuition|].
    rewrite IH. intuition.
Qed.

Lemma In_classes a l : In a (classes l) <-> In a l.
Proof.
  induction l as [|b r IH]; simpl; [tauto|].
  rewrite In_insert_str, IH. intuition.
Qed.


Lemma position_bound a l : In a l -> position a l < List.length l.
Proof.
  induction l as [|c r IH]; simpl; [tauto|].
  intros Ha. destruct (String.eqb_spec a c) as [->|Hac]; [lia|].
  destruct Ha; [congruence|]. apply IH in H. lia.
Qed.

End EncoderFacts.

(** The code [fit_transform] gives one cell. *)
Lemma nth_error_fit_transform (x : list (option string)) i :
  nth_error (fit_transform x) i =
  option_map (fun a => match a with
                       | Some t => position t (classes (present x))
                       | None => List.length (classes (present x))
                       end) (nth_error x i).
Proof. unfold fit_transform. apply nth_error_map. Qed.

Lemma In_present a (x : list (option string)) :
  In a (present x) <-> In (Some a) x.
Proof.
  induction x as [|[b|] r IH]; simpl; [tauto | |].
  - rewrite IH. split; intros [H|H]; auto; left; congruence.
  - rewrite IH. split; [auto | intros [H|H]; [discriminate | exact H]].
Qed.



(** A column with missing cells that is kept: z, a and two missing cells.
    Where [astype(str)] leaves the missing cells missing they get the last
    code, 2; where it writes "nan" for them, that text is ranked between
    "a" and "z". *)
Example encode_categorical_missing_cells :
  let df := {| index := [0; 1; 2; 3];
               columns := [("GENRE", ObjCol [NaN; Str "z"; Str "a"; NaN])] |} in
  @encode_categorical Reference.library df
  = {| index := [0; 1; 2; 3];
       columns := [("GENRE", NumCol [Some 2%Q; Some 1%Q; Some 0%Q; Some 2%Q])] |} /\
  @encode_categorical Reference.library_nan_text df
  = {| index := [0; 1; 2; 3];
       columns := [("GENRE", NumCol [Some 1%Q; Some 2%Q; Some 0%Q; Some 1%Q])] |}.
Proof. split; vm_compute; reflexivity. Qed.


(* ----------------------------------------------------------------- *)
(** ** Mean and variance *)

Module ScaleFacts.
Import Stats.

Local Open Scope Q_scope.

Lemma Qnat_S n : Qnat (S n) == Qnat n + 1.
Proof.
  unfold Qnat. rewrite Nat2Z.inj_succ. unfold Z.succ.
  now rewrite inject_Z_plus.
Qed.

Lemma Qnat_nonneg n : 0 <= Qnat n.
Proof.
  unfold Qnat. change 0 with (inject_Z 0). rewrite <- Zle_Qle. lia.
Qed.

Lemma Qnat_pos n : (0 < n)%nat -> 0 < Qnat n.
Proof.
  intros H. unfold Qnat. change 0 with (inject_Z 0). rewrite <- Zlt_Qlt. lia.
Qed.



Lemma dropna_present a x : In a (dropna x) <-> In (Some a) x.
Proof.
  induction x as [|[q|] r IH]; simpl; [tauto | |].
  - rewrite IH. split; intros [H|H]; auto; left; congruence.
  - rewrite IH. split; [auto | intros [H|H]; [discriminate | exact H]].
Qed.

End ScaleFacts.

(* ----------------------------------------------------------------- *)
(** ** scale_features *)

Section ScalerFacts.

Context {lib : Library}.




Lemma standard_scale_present x i a :
  nth_error x i = Some (Some a) ->
  exists z, nth_error (standard_scale x) i = Some (Some z).
Proof.
  intros Hi. unfold standard_scale.
  destruct (Stats.dropna x) as [|b v] eqn:E.
  - apply nth_error_In in Hi. apply ScaleFacts.dropna_present in Hi.
    rewrite E in Hi. contradiction.
  - rewrite nth_error_map, Hi. simpl. eauto.
Qed.


Lemma getitem_scale_step df d a c :
  getitem c (scale_step df d a) =
  match getitem c df with
  | Some (NumCol x) =>
      if string_dec a c then Some (NumCol (standard_scale x)) else getitem c d
  | _ => getitem c d
  end.
Proof.
  unfold scale_step. destruct (string_dec a c) as [->|Hac].
  - destruct (getitem c df) as [[x|x]|]; try reflexivity.
    apply getitem_setitem.
  - assert (E : getitem c (match getitem a df with
                           | Some (NumCol x) =>
                               setitem a (NumCol (standard_scale x)) d
                           | _ => d
                           end) = getitem c d).
    { destruct (getitem a df) as [[x|x]|]; try reflexivity.
      apply getitem_setitem_other. congruence. }
    rewrite E. destruct (getitem c df) as [[x|x]|]; reflexivity.
Qed.

Lemma getitem_scale_loop df cols :
  forall c d,
    getitem c (fold_left (scale_step df) cols d) =
    match getitem c df with
    | Some (NumCol x) =>
        if in_dec string_dec c cols then Some (NumCol (standard_scale x))
        else getitem c d
    | _ => getitem c d
    end.
Proof.
  induction cols as [|a cols IH]; intros c d; simpl fold_left.
  - destruct (getitem c df) as [[x|x]|]; reflexivity.
  - rewrite IH, getitem_scale_step.
    destruct (getitem c df) as [[x|x]|]; try reflexivity.
    destruct (string_dec a c) as [->|Hac];
      destruct (in_dec string_dec c cols), (in_dec string_dec c (_ :: cols));
      try reflexivity; exfalso; simpl in *; tauto.
Qed.

Lemma assoc_numeric_columns c x l :
  assoc c l = Some (NumCol x) -> In c (map fst (numeric_columns l)).
Proof.
  induction l as [|[k v] r IH]; simpl; [discriminate|].
  destruct (String.eqb_spec k c) as [->|Hk].
  - intros [= ->]. simpl. auto.
  - intros H. destruct v; simpl; auto.
Qed.

(** [scale_features] returns on every frame that has a row, and then holds
    the standardized cells in every numeric column whose name does not end
    in _ENCODED. *)
Lemma scale_features_returns df col x :
  index df <> [] ->
  getitem col df = Some (NumCol x) ->
  Text.endswith col "_ENCODED" = false ->
  exists out,
    scale_features df = Ok out /\
    getitem col out = Some (NumCol (standard_scale x)).
Proof.
  intros Hidx Hget Hend. unfold scale_features.
  set (cols := filter _ _).
  assert (Hin : In col cols).
  { apply filter_In. split.
    - now apply assoc_numeric_columns with (x := x).
    - now rewrite Hend. }
  destruct (0 <? List.length cols) eqn:E.
  - destruct (index df) eqn:Ei; [congruence|].
    eexists. split; [reflexivity|].
    rewrite getitem_scale_loop, Hget.
    destruct (in_dec string_dec col cols); [reflexivity | contradiction].
  - apply Nat.ltb_ge in E. destruct cols; [contradiction | simpl in E; lia].
Qed.

Lemma scale_features_raises df e :
  scale_features df = Raise e -> e = ValueError /\ index df = [].
Proof.
  unfold scale_features.
  destruct (0 <? _); [|discriminate].
  destruct (index df); [|discriminate].
  now intros [= <-].
Qed.

End ScalerFacts.

(** C3, the code against the claim.  A column of dtype object that the
    encoder turns into codes keeps its name, and unless that name happens to
    end in _ENCODED the scaler standardizes the codes like any numeric
    column: the test on the suffix excludes nothing the encoder produced.
    GENRE "Drama", "Action" is encoded as 1, 0 and leaves the scaler as
    1, -1. *)
Theorem scale_features_rescales_encoded_column :
  (forall (lib : Library) (df : DataFrame) (col : string) (x : list cell),
      NoDup (names df) ->
      index df <> [] ->
      col <> "MOVIES" ->
      getitem col df = Some (ObjCol x) ->
      1 < nunique (ObjCol x) ->
      Text.endswith col "_ENCODED" = false ->
      let codes := map (fun k => Some (Stats.Qnat k))
                       (fit_transform (astype_str (ObjCol x))) in
      getitem col (encode_categorical df) = Some (NumCol codes) /\
      exists out,
        scale_features (encode_categorical df) = Ok out /\
        getitem col out = Some (NumCol (standard_scale codes))) /\
  (let df := {| index := [0; 1];
                columns := [("MOVIES", ObjCol [Str "a"; Str "b"]);
                            ("GENRE", ObjCol [Str "Drama"; Str "Action"])] |} in
   let coded := @encode_categorical Reference.library df in
   getitem "GENRE" coded = Some (NumCol [Some 1%Q; Some 0%Q]) /\
   exists out,
     @scale_features Reference.library coded = Ok out /\
     option_map (fun s => map (option_map Qred) (@to_numeric Reference.library s))
                (getitem "GENRE" out)
     = Some [Some 1%Q; Some (-1)%Q]).
Proof.
  split.
  - intros lib df col x Hnd Hidx Hcol Hget Hun Hend codes.
    assert (Hcoded : getitem col (encode_categorical df) = Some (NumCol codes)).
    { rewrite (getitem_encode_object df col x Hnd Hcol Hget).
      unfold encode_outcome. apply Nat.ltb_lt in Hun. now rewrite Hun. }
    split; [exact Hcoded|].
    apply scale_features_returns; [|exact Hcoded | exact Hend].
    now rewrite index_encode_categorical.
  - split; [vm_compute; reflexivity|].
    eexists. split; vm_compute; reflexivity.
Qed.

Lemma scale_features_rescales_encoded_column_witness :
  let df := {| index := [0; 1; 2];
               columns := [("MOVIES", ObjCol [Str "a"; Str "b"; Str "c"]);
                           ("STARS", ObjCol [Str "Y"; Str "X"; Str "Y"])] |} in
  let codes := [Some 1; Some 0; Some 1]%Q in
  getitem "STARS" (@encode_categorical Reference.library df) = Some (NumCol codes) /\
  exists out,
    @scale_features Reference.library (@encode_categorical Reference.library df)
    = Ok out /\
    getitem "STARS" out = Some (NumCol (@standard_scale Reference.library codes)).
Proof.
  intros df codes.
  assert (Hnd : NoDup (names df)).
  { simpl. repeat (constructor; [simpl; intuition discriminate|]). constructor. }
  apply (proj1 scale_features_rescales_encoded_column Reference.library df
           "STARS" [Str "Y"; Str "X"; Str "Y"] Hnd).
  - discriminate.
  - discriminate.
  - reflexivity.
  - vm_compute. lia.
  - reflexivity.
Defined.




(* ----------------------------------------------------------------- *)
(** ** Boolean Series and masks *)

Module MaskFacts.

Lemma lookup_not_in l m : ~ In l (map fst m) -> lookup l m = None.
Proof.
  induction m as [|[k b] r IH]; simpl; [reflexivity|].
  intros H. destruct (Nat.eqb_spec k l) as [->|Hk]; [tauto|].
  apply IH. tauto.
Qed.

Lemma lookup_in l m : In l (map fst m) -> exists b, lookup l m = Some b.
Proof.
  induction m as [|[k b] r IH]; simpl; [tauto|].
  intros H. destruct (Nat.eqb_spec k l) as [->|Hk]; [eauto|].
  apply IH. destruct H; [contradiction | assumption].
Qed.

Lemma existsb_eqb_In l U : existsb (Nat.eqb l) U = true <-> In l U.
Proof.
  rewrite existsb_exists. split.
  - intros [k [Hk E]]. apply Nat.eqb_eq in E. now subst.
  - intros H. exists l. split; [exact H | apply Nat.eqb_refl].
Qed.

Lemma lookup_graph (f : nat -> bool) l U :
  lookup l (map (fun k => (k, f k)) U) =
  if existsb (Nat.eqb l) U then Some (f l) else None.
Proof.
  induction U as [|k r IH]; simpl; [reflexivity|].
  rewrite (Nat.eqb_sym l k).
  destruct (Nat.eqb_spec k l) as [->|Hk]; simpl; [reflexivity | exact IH].
Qed.

Lemma In_union l a b : In l (union a b) <-> In l a \/ In l b.
Proof.
  unfold union. rewrite in_app_iff, filter_In. split.
  - intros [H|[H _]]; auto.
  - intros [H|H]; [auto|].
    destruct (existsb (Nat.eqb l) a) eqn:E.
    + left. now apply existsb_eqb_In.
    + right. split; [exact H | reflexivity].
Qed.

Lemma labels_series_and a b :
  map fst (series_and a b) = union (map fst a) (map fst b).
Proof.
  unfold series_and. rewrite map_map. simpl. apply map_id.
Qed.

(** [&] is the conjunction of the two values at every label, a label absent
    on one side counting as False there. *)
Lemma value_at_series_and l a b :
  value_at l (series_and a b) = value_at l a && value_at l b.
Proof.
  unfold value_at at 1. unfold series_and. rewrite lookup_graph.
  destruct (existsb _ _) eqn:E; [reflexivity|].
  assert (Ha : ~ In l (map fst a)).
  { intros H. assert (In l (union (map fst a) (map fst b)))
      by (apply In_union; auto).
    apply existsb_eqb_In in H0. congruence. }
  unfold value_at. now rewrite (lookup_not_in l a Ha).
Qed.

Lemma reindex_values labels m keep :
  reindex labels m = Some keep -> keep = map (fun l => value_at l m) labels.
Proof.
  revert keep. induction labels as [|l r IH]; simpl; intros keep.
  - now intros [= <-].
  - unfold value_at. destruct (lookup l m) as [b|]; [|discriminate].
    destruct (reindex r m) as [bs|]; [|discriminate].
    intros [= <-]. now rewrite (IH bs eq_refl).
Qed.

Lemma reindex_total labels m :
  (forall l, In l labels -> In l (map fst m)) ->
  reindex labels m = Some (map (fun l => value_at l m) labels).
Proof.
  induction labels as [|l r IH]; simpl; intros H; [reflexivity|].
  destruct (lookup_in l m (H l (or_introl eq_refl))) as [b Hb].
  unfold value_at at 1. rewrite Hb, IH by auto. reflexivity.
Qed.

Lemma reindex_missing labels m l :
  In l labels -> ~ In l (map fst m) -> reindex labels m = None.
Proof.
  induction labels as [|k r IH]; simpl; [tauto|].
  intros [->|H] Hm.
  - now rewrite (lookup_not_in l m Hm).
  - rewrite (IH H Hm). now destruct (lookup k m).
Qed.

(** The value of a Series at the label of position [i]. *)
Lemma value_at_combine labels :
  NoDup labels ->
  forall (ys : list bool) i,
    i < List.length labels -> List.length ys = List.length labels ->
    value_at (nth i labels 0) (combine labels ys) = nth i ys false.
Proof.
  induction 1 as [|k r Hk Hnd IH]; intros ys i Hi Hlen; simpl in *; [lia|].
  destruct ys as [|y ys]; [discriminate|]. simpl in Hlen.
  unfold value_at. simpl. destruct i as [|i].
  - now rewrite Nat.eqb_refl.
  - destruct (Nat.eqb_spec k (nth i r 0)) as [E|_].
    + exfalso. apply Hk. rewrite E. apply nth_In. lia.
    + apply IH; lia.
Qed.

Lemma labels_combine {B : Type} (labels : list nat) (ys : list B) :
  List.length ys = List.length labels ->
  map (@fst nat B) (combine labels ys) = labels.
Proof.
  revert ys. induction labels as [|k r IH]; intros [|y ys]; simpl;
    try discriminate; try reflexivity.
  intros [= H]. now rewrite IH.
Qed.

(** The Series [pd.Series([True] * n)]: True at the labels below [n]. *)
Lemma value_at_all_true n l :
  value_at l (combine (seq 0 n) (repeat true n)) = (l <? n).
Proof.
  destruct (Nat.ltb_spec l n) as [Hl|Hl].
  - pose proof (value_at_combine (seq 0 n) (seq_NoDup n 0) (repeat true n) l)
      as H.
    rewrite length_seq, repeat_length in H.
    rewrite seq_nth in H by exact Hl. simpl in H.
    rewrite H by (auto; lia).
    apply nth_repeat_lt. exact Hl.
  - unfold value_at. rewrite lookup_not_in; [reflexivity|].
    rewrite labels_combine by (now rewrite length_seq, repeat_length).
    rewrite in_seq. lia.
Qed.

End MaskFacts.

(* ----------------------------------------------------------------- *)
(** ** remove_outliers *)

Module OutlierFacts.
Import MaskFacts.

Lemma value_at_outlier_step labels m x l :
  value_at l (outlier_step labels m x) = value_at l m && passes labels x l.
Proof.
  unfold outlier_step, passes. destruct (fence x) as [[lo hi]|].
  - apply value_at_series_and.
  - now rewrite andb_true_r.
Qed.

Lemma value_at_mask_loop labels cols :
  forall m l,
    value_at l (mask_loop labels cols m) =
    value_at l m && forallb (fun col => passes labels (snd col) l) cols.
Proof.
  induction cols as [|c r IH]; intros m l; simpl.
  - now rewrite andb_true_r.
  - unfold mask_loop in *. simpl. rewrite IH, value_at_outlier_step.
    now rewrite andb_assoc.
Qed.

Lemma labels_outlier_step labels m x l :
  In l (map fst m) -> In l (map fst (outlier_step labels m x)).
Proof.
  intros H. unfold outlier_step. destruct (fence x) as [[lo hi]|]; [|exact H].
  rewrite labels_series_and. apply In_union. auto.
Qed.

Lemma labels_mask_loop labels cols :
  forall m l, In l (map fst m) -> In l (map fst (mask_loop labels cols m)).
Proof.
  induction cols as [|c r IH]; intros m l H; simpl; [exact H|].
  unfold mask_loop in *. simpl. apply IH. now apply labels_outlier_step.
Qed.

Lemma In_numeric_columns k x l :
  In (k, x) (numeric_columns l) -> In (k, NumCol x) l.
Proof.
  induction l as [|[k' [y|y]] r IH]; simpl; [tauto | |]; intros H.
  - destruct H as [[= -> ->]|H]; auto.
  - auto.
Qed.

Lemma numeric_column_length df k x :
  well_formed df -> In (k, x) (numeric_columns (columns df)) ->
  List.length x = List.length (index df).
Proof.
  intros (_ & _ & Hlen) H. apply In_numeric_columns in H.
  rewrite Forall_forall in Hlen. specialize (Hlen _ H). simpl in Hlen.
  now rewrite length_map in Hlen.
Qed.

Lemma passes_position df col i :
  well_formed df -> In col (numeric_columns (columns df)) ->
  i < List.length (index df) ->
  passes (index df) (snd col) (nth i (index df) 0) =
  match fence (snd col) with
  | Some (lo, hi) => between lo hi (nth i (snd col) None)
  | None => true
  end.
Proof.
  intros Hwf Hin Hi. destruct col as [k x]. simpl.
  pose proof (numeric_column_length df k x Hwf Hin) as Hlen.
  unfold passes. destruct (fence x) as [[lo hi]|]; [|reflexivity].
  destruct Hwf as (Hnd & _).
  rewrite value_at_combine by (auto; now rewrite length_map).
  change false with (between lo hi None). apply map_nth.
Qed.

Lemma forallb_ext_in {A : Type} (f g : A -> bool) (l : list A) :
  (forall a, In a l -> f a = g a) -> forallb f l = forallb g l.
Proof.
  induction l as [|a r IH]; simpl; intros H; [reflexivity|].
  rewrite (H a) by auto. rewrite IH by auto. reflexivity.
Qed.

Lemma map_over_positions {B : Type} (f : nat -> B) (labels : list nat) :
  map f labels =
  map (fun i => f (nth i labels 0)) (seq 0 (List.length labels)).
Proof.
  induction labels as [|l r IH]; simpl; [reflexivity|].
  f_equal. rewrite <- seq_shift, map_map. exact IH.
Qed.

(** The rows a mask built by the loop keeps, position by position. *)
Lemma mask_loop_keep df :
  well_formed df ->
  let n := List.length (index df) in
  map (fun l => value_at l
                  (mask_loop (index df) (numeric_columns (columns df))
                     (combine (seq 0 n) (repeat true n))))
      (index df)
  = map (fun i => (nth i (index df) 0 <? n) && within_fences df i) (seq 0 n).
Proof.
  intros Hwf n.
  rewrite map_over_positions. fold n.
  apply map_ext_in. intros i Hi. apply in_seq in Hi.
  rewrite value_at_mask_loop, value_at_all_true. f_equal.
  unfold within_fences. apply forallb_ext_in.
  intros col Hcol. apply passes_position; auto. unfold n in Hi. lia.
Qed.

Lemma select_all_true {A} (x : list A) n :
  List.length x = n -> select (repeat true n) x = x.
Proof.
  revert n. induction x as [|a r IH]; intros [|n]; simpl; try discriminate;
    try reflexivity.
  intros [= H]. now rewrite IH.
Qed.

Lemma take_rows_all df :
  well_formed df ->
  take_rows (repeat true (List.length (index df))) df = df.
Proof.
  intros (_ & _ & Hlen). destruct df as [idx cols]. unfold take_rows. simpl in *.
  f_equal; [now apply select_all_true|].
  induction cols as [|[k s] r IH]; simpl; [reflexivity|].
  inversion Hlen as [|? ? Hs Hr]; subst. rewrite IH by assumption.
  f_equal. f_equal. simpl in Hs. destruct s as [x|x]; simpl in *; f_equal;
    apply select_all_true; [now rewrite length_map in Hs | exact Hs].
Qed.

(** The frame [remove_outliers] returns, when it returns one and there was
    a row and a numeric column: the rows whose label is below the number of
    rows and that lie within every fence. *)
Lemma remove_outliers_rows df out :
  well_formed df ->
  index df <> [] ->
  numeric_columns (columns df) <> [] ->
  remove_outliers df = Ok out ->
  let n := List.length (index df) in
  out = take_rows
          (map (fun i => (nth i (index df) 0 <? n) && within_fences df i)
               (seq 0 n)) df.
Proof.
  intros Hwf Hidx Hnum. unfold remove_outliers.
  destruct (numeric_columns (columns df)) as [|c cs] eqn:Ec; [congruence|].
  cbn [List.length Nat.ltb Nat.leb]. rewrite <- Ec.
  set (n := List.length (index df)).
  set (mask := mask_loop _ _ _).
  assert (H0 : In 0 (map fst mask)).
  { apply labels_mask_loop.
    rewrite labels_combine by (now rewrite length_seq, repeat_length).
    apply in_seq. unfold n. destruct (index df); [congruence | simpl; lia]. }
  unfold getitem_mask. destruct mask as [|p mask'] eqn:Em; [contradiction|].
  rewrite <- Em. clear H0.
  destruct (reindex (index df) mask) as [keep|] eqn:Er; [|discriminate].
  intros [= <-]. simpl. f_equal.
  rewrite (reindex_values _ _ _ Er). unfold mask. subst n.
  apply (mask_loop_keep df Hwf).
Qed.


End OutlierFacts.

(* ----------------------------------------------------------------- *)
(** ** Quartiles *)

Module QuantileFacts.
Import Stats.

Local Open Scope Q_scope.

Lemma insert_sorted a l :
  StronglySorted Qle l -> StronglySorted Qle (insert a l).
Proof.
  induction 1 as [|b r Hr IH Hb]; simpl.
  - repeat constructor.
  - destruct (Qle_bool a b) eqn:E.
    + apply Qle_bool_iff in E. constructor; [now constructor|].
      constructor; [exact E|].
      eapply Forall_impl; [|exact Hb]. intros c Hc. lra.
    + assert (Hba : b <= a).
      { destruct (Qlt_le_dec b a) as [H|H]; [lra|].
        apply Qle_bool_iff in H. congruence. }
      constructor; [exact IH|].
      clear -Hb Hba. induction r as [|c r IH]; simpl.
      * constructor; [exact Hba | constructor].
      * inversion Hb; subst. destruct (Qle_bool a c); constructor; auto.
Qed.

Lemma sort_sorted l : StronglySorted Qle (sort l).
Proof.
  induction l as [|a r IH]; simpl; [constructor | now apply insert_sorted].
Qed.

Lemma sorted_nth v :
  StronglySorted Qle v ->
  forall i j, (i <= j)%nat -> (j < List.length v)%nat ->
              nth i v 0 <= nth j v 0.
Proof.
  induction 1 as [|a r Hr IH Ha]; intros i j Hij Hj; simpl in *; [lia|].
  destruct i as [|i], j as [|j]; try lia.
  - lra.
  - rewrite Forall_forall in Ha. apply Ha, nth_In. lia.
  - apply IH; lia.
Qed.

Lemma Qnat_le a b : (a <= b)%nat -> Qnat a <= Qnat b.
Proof. intros H. unfold Qnat. rewrite <- Zle_Qle. lia. Qed.

Lemma Qnat_le_inv a b : Qnat a <= Qnat b -> (a <= b)%nat.
Proof. unfold Qnat. rewrite <- Zle_Qle. lia. Qed.

Lemma Qnat_lt_inv a b : Qnat a < Qnat b -> (a < b)%nat.
Proof. unfold Qnat. rewrite <- Zlt_Qlt. lia. Qed.

(** The integer part of a position that is not negative. *)
Lemma floor_position pos :
  0 <= pos ->
  let lo := Z.to_nat (Qfloor pos) in
  Qnat lo <= pos /\ pos < Qnat lo + 1.
Proof.
  intros Hpos lo.
  assert (H0 : (0 <= Qfloor pos)%Z).
  { change 0%Z with (Qfloor 0). now apply Qfloor_resp_le. }
  assert (E : Qnat lo = inject_Z (Qfloor pos)).
  { unfold Qnat, lo. now rewrite Z2Nat.id. }
  rewrite E. split; [apply Qfloor_le|].
  pose proof (Qlt_floor pos) as H. rewrite inject_Z_plus in H. exact H.
Qed.

Lemma interpolate_bounds v pos :
  StronglySorted Qle v ->
  0 <= pos -> pos <= Qnat (List.length v - 1) -> (0 < List.length v)%nat ->
  let lo := Z.to_nat (Qfloor pos) in
  (lo <= List.length v - 1)%nat /\
  nth lo v 0 <= interpolate v pos /\
  interpolate v pos <= nth (Nat.min (lo + 1) (List.length v - 1)) v 0.
Proof.
  intros Hs Hpos Hmax Hn lo.
  destruct (floor_position pos Hpos) as [H1 H2]. fold lo in H1, H2.
  assert (Hlo : (lo <= List.length v - 1)%nat).
  { apply Qnat_le_inv. lra. }
  split; [exact Hlo|].
  unfold interpolate. fold lo.
  set (a := nth lo v 0). set (b := nth (Nat.min _ _) v 0).
  assert (Hab : a <= b) by (apply sorted_nth; auto; lia).
  split; nra.
Qed.

(** Interpolation on a sorted list does not decrease with the position. *)
Lemma interpolate_monotone v pos pos' :
  StronglySorted Qle v ->
  0 <= pos -> pos <= pos' -> pos' <= Qnat (List.length v - 1) ->
  (0 < List.length v)%nat ->
  interpolate v pos <= interpolate v pos'.
Proof.
  intros Hs H0 Hle Hmax Hn.
  assert (H0' : 0 <= pos') by lra.
  assert (Hmax' : pos <= Qnat (List.length v - 1)) by lra.
  destruct (interpolate_bounds v pos Hs H0 Hmax' Hn) as (Hlo & Ha & Hb).
  destruct (interpolate_bounds v pos' Hs H0' Hmax Hn) as (Hlo' & Ha' & Hb').
  destruct (floor_position pos H0) as [F1 F2].
  destruct (floor_position pos' H0') as [F1' F2'].
  set (lo := Z.to_nat (Qfloor pos)) in *.
  set (lo' := Z.to_nat (Qfloor pos')) in *.
  assert (Hll : (lo <= lo')%nat).
  { assert (Qnat lo < Qnat lo' + 1) by lra.
    assert (Qnat lo < Qnat (S lo')) by (rewrite ScaleFacts.Qnat_S; lra).
    apply Qnat_lt_inv in H1. lia. }
  destruct (Nat.eq_dec lo lo') as [E|E].
  - unfold interpolate. fold lo lo'. rewrite <- E.
    set (a := nth lo v 0). set (b := nth (Nat.min _ _) v 0).
    assert (Hab : a <= b) by (apply sorted_nth; auto; lia).
    rewrite <- E in F1', F2'. nra.
  - assert (Hmid : nth (Nat.min (lo + 1) (List.length v - 1)) v 0
                   <= nth lo' v 0) by (apply sorted_nth; auto; lia).
    lra.
Qed.

(** Q3 is not below Q1. *)
Lemma iqr_nonneg x i : iqr x = Some i -> 0 <= i.
Proof.
  unfold iqr, quantile.
  set (v := sort (dropna x)).
  destruct (List.length v) as [|m] eqn:En; [discriminate|].
  intros [= <-].
  pose proof (ScaleFacts.Qnat_nonneg m) as Hm.
  assert (H : interpolate v ((1 # 4) * Qnat m)
              <= interpolate v ((3 # 4) * Qnat m)).
  { apply interpolate_monotone.
    - apply sort_sorted.
    - nra.
    - nra.
    - rewrite En. simpl. rewrite Nat.sub_0_r. nra.
    - lia. }
  lra.
Qed.

(** A column whose IQR is a number other than zero has a fence. *)
Lemma fence_of_iqr x i :
  iqr x = Some i -> ~ i == 0 -> exists lo hi, fence x = Some (lo, hi).
Proof.
  intros Hi Hne. pose proof (iqr_nonneg x i Hi) as Hpos.
  unfold iqr in Hi. unfold fence.
  destruct (quantile (1 # 4) x) as [q1|]; [|discriminate].
  destruct (quantile (3 # 4) x) as [q3|]; [|discriminate].
  injection Hi as <-.
  destruct (Qle_bool (q3 - q1) 0) eqn:E; simpl; [|eauto].
  apply Qle_bool_iff in E. exfalso. apply Hne. lra.
Qed.

(** A column without a fence: no quartiles, or an IQR of zero. *)
Lemma no_fence_iqr x :
  fence x = None -> iqr x = None \/ exists i, iqr x = Some i /\ i == 0.
Proof.
  intros Hf. destruct (iqr x) as [i|] eqn:Ei; [|auto].
  right. exists i. split; [reflexivity|].
  destruct (Qeq_dec i 0) as [E|E]; [exact E|].
  destruct (fence_of_iqr x i Ei E) as (lo & hi & H). congruence.
Qed.

End QuantileFacts.

(* ----------------------------------------------------------------- *)
(** ** Rows kept and rows dropped *)

Module RowFacts.
Import MaskFacts OutlierFacts.

Lemma In_select {A : Type} (keep : list bool) (x : list A) a :
  In a (select keep x) ->
  exists p, nth_error keep p = Some true /\ nth_error x p = Some a.
Proof.
  revert x. induction keep as [|k keep IH]; intros [|b x]; simpl; try tauto.
  destruct k; simpl.
  - intros [<-|H].
    + exists 0. auto.
    + destruct (IH x H) as [p Hp]. exists (S p). exact Hp.
  - intros H. destruct (IH x H) as [p Hp]. exists (S p). exact Hp.
Qed.

Lemma assoc_map_values (f : series -> series) c l :
  assoc c (map (fun kv => (fst kv, f (snd kv))) l) = option_map f (assoc c l).
Proof.
  induction l as [|[k v] r IH]; simpl; [reflexivity|].
  destruct (k =? c)%string; [reflexivity | exact IH].
Qed.

Lemma getitem_take_rows keep c df :
  getitem c (take_rows keep df) = option_map (select_series keep) (getitem c df).
Proof. apply assoc_map_values. Qed.

Lemma names_take_rows keep df : names (take_rows keep df) = names df.
Proof. unfold names, take_rows. simpl. now rewrite map_map. Qed.

Lemma assoc_In_numeric c x l :
  assoc c l = Some (NumCol x) -> In (c, x) (numeric_columns l).
Proof.
  induction l as [|[k v] r IH]; simpl; [discriminate|].
  destruct (String.eqb_spec k c) as [->|Hk].
  - intros [= ->]. simpl. auto.
  - intros H. destruct v; simpl; auto.
Qed.

Lemma nth_error_Some_lt {A : Type} (l : list A) p a :
  nth_error l p = Some a -> p < List.length l.
Proof. intros H. apply nth_error_Some. congruence. Qed.

Lemma nth_error_map_seq {B : Type} (f : nat -> B) n p :
  p < n -> nth_error (map f (seq 0 n)) p = Some (f p).
Proof.
  intros H. rewrite nth_error_map, nth_error_seq.
  destruct (Nat.ltb_spec p n); [reflexivity | lia].
Qed.

Lemma nth_error_map_seq_inv {B : Type} (f : nat -> B) n p b :
  nth_error (map f (seq 0 n)) p = Some b -> p < n /\ b = f p.
Proof.
  intros H.
  assert (Hp : p < n).
  { apply nth_error_Some_lt in H. now rewrite length_map, length_seq in H. }
  rewrite (nth_error_map_seq f n p Hp) in H. injection H as <-. auto.
Qed.

(** A row with a missing cell in a column that has a fence is not within
    the fences. *)
Lemma missing_not_within_fences df col x lo hi p :
  getitem col df = Some (NumCol x) ->
  fence x = Some (lo, hi) ->
  nth_error x p = Some None ->
  within_fences df p = false.
Proof.
  intros Hget Hf Hp. apply assoc_In_numeric in Hget.
  destruct (within_fences df p) eqn:E; [|reflexivity].
  unfold within_fences in E. rewrite forallb_forall in E.
  specialize (E _ Hget). simpl in E. rewrite Hf in E.
  rewrite (nth_error_nth _ _ _ Hp) in E. discriminate.
Qed.

End RowFacts.

(** C10.  Whenever the Outlier Filter returns a frame (the input being well
    formed), a numeric column whose IQR before filtering is a number other
    than zero has no missing value left in the result, and every row that
    held a missing value in that column is gone. *)
Theorem remove_outliers_removes_missing (df out : DataFrame) (col : string)
    (x : list (option Q)) (i : Q) :
  well_formed df ->
  remove_outliers df = Ok out ->
  getitem col df = Some (NumCol x) ->
  iqr x = Some i ->
  ~ i == 0 ->
  (forall s, getitem col out = Some s -> exists y, s = NumCol y /\ ~ In None y) /\
  (forall p, nth_error x p = Some None ->
             ~ In (nth p (index df) 0) (index out)).
Proof.
  intros Hwf Hout Hget Hi Hne.
  destruct (QuantileFacts.fence_of_iqr x i Hi Hne) as (lo & hi & Hf).
  pose proof (RowFacts.assoc_In_numeric _ _ _ Hget) as Hin.
  destruct (index df) as [|l0 ls] eqn:Eidx.
  - (* no row *)
    unfold remove_outliers in Hout.
    destruct (numeric_columns (columns df)) as [|c cs] eqn:Ec; [contradiction|].
    cbn [List.length Nat.ltb Nat.leb] in Hout. rewrite Eidx in Hout.
    cbn [List.length seq repeat combine] in Hout.
    assert (E : forall l, mask_loop [] l [] = []).
    { assert (Hs : forall y, outlier_step [] [] y = []).
      { intros y. unfold outlier_step. now destruct (fence y) as [[a b]|]. }
      unfold mask_loop. induction l as [|a r IH]; simpl; [reflexivity|].
      now rewrite Hs. }
    rewrite E in Hout. unfold getitem_mask in Hout. injection Hout as <-.
    simpl. split; [discriminate | intros p _ H; rewrite Eidx in H; exact H].
  - assert (Hne' : index df <> []) by (rewrite Eidx; discriminate).
    assert (Hnum : numeric_columns (columns df) <> [])
      by (intros C; rewrite C in Hin; contradiction).
    pose proof (OutlierFacts.remove_outliers_rows df out Hwf Hne' Hnum Hout) as E.
    cbv zeta in E. rewrite <- Eidx. set (n := List.length (index df)) in *.
    set (keep := map _ (seq 0 n)) in E.
    assert (Hkeep : forall p, nth_error keep p = Some true ->
                              nth_error x p <> Some None).
    { intros p Hp Hx. apply RowFacts.nth_error_map_seq_inv in Hp as [_ Hp].
      symmetry in Hp. apply andb_true_iff in Hp as [_ Hp].
      rewrite (RowFacts.missing_not_within_fences df col x lo hi p Hget Hf Hx)
        in Hp. discriminate. }
    subst out. split.
    + intros s. rewrite RowFacts.getitem_take_rows, Hget. simpl.
      intros [= <-]. eexists. split; [reflexivity|].
      intros Hnone. apply RowFacts.In_select in Hnone as [p [Hp Hx]].
      now apply (Hkeep p).
    + intros p Hx Hin'. simpl in Hin'.
      apply RowFacts.In_select in Hin' as [p' [Hp' Hl]].
      assert (Hp : p < List.length (index df)).
      { destruct Hwf as (_ & _ & Hlen). rewrite Forall_forall in Hlen.
        apply OutlierFacts.In_numeric_columns in Hin.
        specialize (Hlen _ Hin). simpl in Hlen. rewrite length_map in Hlen.
        rewrite <- Hlen. apply RowFacts.nth_error_Some_lt in Hx. exact Hx. }
      assert (p' = p).
      { destruct Hwf as (Hnd & _).
        rewrite (NoDup_nth_error (index df)) in Hnd.
        apply Hnd.
        - apply RowFacts.nth_error_Some_lt in Hl. exact Hl.
        - rewrite Hl. symmetry. now apply nth_error_nth'. }
      subst p'. now apply (Hkeep p).
Qed.

Lemma remove_outliers_removes_missing_witness :
  let df := {| index := [0; 1; 2; 3; 4];
               columns := [("MOVIES", ObjCol [Str "a"; Str "b"; Str "c"; Str "d"; Str "e"]);
                           ("YEAR_CLEANED",
                            NumCol [Some 2000; None; Some 2010; Some 2020; Some 2030]%Q)] |} in
  exists out, remove_outliers df = Ok out /\ ~ In 1 (index out).
Proof.
  intros df.
  destruct (remove_outliers df) as [out|e] eqn:Hout;
    [|vm_compute in Hout; discriminate].
  exists out. split; [reflexivity|].
  assert (Hwf : well_formed df).
  { unfold well_formed, names. simpl. repeat split.
    - repeat (constructor; [simpl; intuition discriminate|]). constructor.
    - repeat (constructor; [simpl; intuition discriminate|]). constructor.
    - repeat constructor. }
  set (x := [Some 2000; None; Some 2010; Some 2020; Some 2030]%Q).
  destruct (iqr x) as [i|] eqn:Ei; [|vm_compute in Ei; discriminate].
  destruct (remove_outliers_removes_missing df out "YEAR_CLEANED" x i
              Hwf Hout eq_refl Ei) as [_ H].
  - vm_compute in Ei. injection Ei as <-. intros C. vm_compute in C.
    discriminate.
  - apply (H 1). reflexivity.
Defined.

(** C2, the code against the claim.  Where the filter returns a frame of a
    table with a row and a numeric column, it keeps the rows that lie within
    every fence and whose label is below the number of rows: the mask starts
    as [pd.Series([True] * len(df))], labelled 0, 1, ..., n-1 and not by the
    labels of the frame.  Once [remove_duplicates] has removed a row that is
    not the last one, the two differ.  First table: RATING 1, 1, 2, 3 keeps
    the rows labelled 0, 2, 3; all three lie within the fence of RATING, and
    the filter drops the row labelled 3.  Second table: RATING has an IQR of
    zero, no column constrains anything, and the filter raises
    [IndexingError] instead of keeping the rows. *)
Theorem remove_outliers_after_duplicates :
  (forall df out : DataFrame,
      well_formed df ->
      index df <> [] ->
      numeric_columns (columns df) <> [] ->
      remove_outliers df = Ok out ->
      out = take_rows
              (map (fun i => (nth i (index df) 0 <? List.length (index df))
                             && within_fences df i)
                   (seq 0 (List.length (index df)))) df) /\
  (let df := {| index := [0; 1; 2; 3];
                columns := [("RATING", NumCol [Some 1; Some 1; Some 2; Some 3]%Q)] |} in
   let unique := remove_duplicates df in
   unique = {| index := [0; 2; 3];
               columns := [("RATING", NumCol [Some 1; Some 2; Some 3]%Q)] |} /\
   map (within_fences unique) [0; 1; 2] = [true; true; true] /\
   remove_outliers unique
   = Ok {| index := [0; 2];
           columns := [("RATING", NumCol [Some 1; Some 2]%Q)] |}) /\
  (let df := {| index := [0; 1; 2];
                columns := [("MOVIES", ObjCol [Str "a"; Str "a"; Str "b"]);
                            ("RATING", NumCol [Some 5; Some 5; Some 5]%Q)] |} in
   let unique := remove_duplicates df in
   unique = {| index := [0; 2];
               columns := [("MOVIES", ObjCol [Str "a"; Str "b"]);
                           ("RATING", NumCol [Some 5; Some 5]%Q)] |} /\
   fence [Some 5; Some 5]%Q = None /\
   remove_outliers unique = Raise IndexingError).
Proof.
  split; [|split; repeat split; vm_compute; reflexivity].
  intros df out Hwf Hidx Hnum Hout.
  exact (OutlierFacts.remove_outliers_rows df out Hwf Hidx Hnum Hout).
Qed.

Lemma remove_outliers_after_duplicates_witness :
  let df := {| index := [0; 2; 3];
               columns := [("RATING", NumCol [Some 1; Some 2; Some 3]%Q)] |} in
  remove_outliers df = Ok (take_rows [true; true; false] df).
Proof.
  intros df.
  assert (Hwf : well_formed df).
  { unfold well_formed, names. simpl. repeat split.
    - repeat (constructor; [simpl; intuition discriminate|]). constructor.
    - repeat (constructor; [simpl; intuition discriminate|]). constructor.
    - repeat constructor. }
  destruct (remove_outliers df) as [out|e] eqn:Hout;
    [|vm_compute in Hout; discriminate].
  rewrite (proj1 remove_outliers_after_duplicates df out Hwf);
    [vm_compute; reflexivity | discriminate | discriminate | exact Hout].
Defined.

(* ----------------------------------------------------------------- *)
(** ** A missing derived year in the later stages *)

Section LaterStages.

Context {lib : Library}.

(** The encoder leaves a numeric column as it is. *)
Lemma getitem_encode_numeric df col x :
  NoDup (names df) -> getitem col df = Some (NumCol x) ->
  getitem col (encode_categorical df) = Some (NumCol x).
Proof.
  intros Hnd Hget. unfold encode_categorical.
  rewrite getitem_encode_loop by (apply NoDup_filter, object_columns_NoDup; exact Hnd).
  destruct (in_dec string_dec col _) as [Hin|_]; [|exact Hget].
  apply filter_In in Hin as [Hin _].
  now apply (assoc_numeric_column col x (columns df) Hnd Hget) in Hin.
Qed.





End LaterStages.





(* ----------------------------------------------------------------- *)
(** ** A complete run *)

(** With the reference library: the second row loses its derived year and is
    removed by the Outlier Filter, GENRE is left with one value and dropped,
    YEAR is encoded and then scaled together with RATING and YEAR_CLEANED,
    and the output file is written next to the input. *)
Example main_writes_cleaned_table :
  @main Reference.library
    [("movies.csv", "MOVIES,YEAR,RATING,GENRE
a,(2015),1,x
b,TBA,2,y
c,2001,3,x
")]
  = (Ok tt,
     [("cleaned_movies_data.csv", "MOVIES,YEAR,RATING,YEAR_CLEANED
a,-1,-1,1
c,1,1,-1
");
      ("movies.csv", "MOVIES,YEAR,RATING,GENRE
a,(2015),1,x
b,TBA,2,y
c,2001,3,x
")]).
Proof. vm_compute. reflexivity. Qed.

(* ================================================================= *)
(** * Further properties of the stages *)

(* ----------------------------------------------------------------- *)
(** ** Row labels through the stages *)

Section RowLabels.

Context {lib : Library}.

Lemma index_update c f df : index (update c f df) = index df.
Proof. unfold update. now destruct (getitem c df). Qed.

Lemma index_update_loop (f : string -> series -> series) cols :
  forall df,
    index (fold_left (fun d col => update col (f col) d) cols df) = index df.
Proof.
  induction cols as [|c r IH]; intros df; simpl; [reflexivity|].
  now rewrite IH, index_update.
Qed.

Lemma index_handle_missing_values df :
  index (handle_missing_values df) = index df.
Proof.
  unfold handle_missing_values.
  rewrite (index_update_loop (fun _ => fill_unknown)).
  rewrite (index_update_loop (fun _ => fill_median)).
  rewrite (index_update_loop coerce). reflexivity.
Qed.

Lemma index_scale_loop df cols :
  forall d, index (fold_left (scale_step df) cols d) = index d.
Proof.
  induction cols as [|c r IH]; intros d; simpl; [reflexivity|].
  rewrite IH. unfold scale_step. now destruct (getitem c df) as [[x|x]|].
Qed.

Lemma index_scale_features df out :
  scale_features df = Ok out -> index out = index df.
Proof.
  unfold scale_features. destruct (0 <? _).
  - destruct (index df) eqn:E; [discriminate|].
    intros [= <-]. now rewrite index_scale_loop.
  - now intros [= <-].
Qed.

(** What [extract_year_info] returns on a frame that has a YEAR column: the
    frame with YEAR_CLEANED set to the years read from YEAR, or [KeyError]
    when a year is missing and there is no MOVIES column to fall back on. *)
Lemma extract_year_info_result df year :
  getitem "YEAR" df = Some year ->
  let yc := map primary_year (astype_str year) in
  extract_year_info df =
  if existsb id (isna (NumCol yc)) then
    match getitem "MOVIES" df with
    | Some _ => Ok (setitem "YEAR_CLEANED" (NumCol yc) df)
    | None => Raise KeyError
    end
  else Ok (setitem "YEAR_CLEANED" (NumCol yc) df).
Proof.
  intros Hy yc.
  destruct (getitem "MOVIES" df) as [movies|] eqn:Hm.
  - rewrite (extract_year_info_primary_only df year movies Hy Hm). fold yc.
    now destruct (existsb id (isna (NumCol yc))).
  - unfold extract_year_info. rewrite Hy.
    set (raw := ObjCol (ex_cells (str_extract search_year (astype_str year)))).
    assert (Hyc : to_numeric raw = yc) by apply to_numeric_extracted.
    assert (E1 : update "YEAR_CLEANED" (fun s => NumCol (to_numeric s))
                   (setitem "YEAR_CLEANED" raw df)
                 = setitem "YEAR_CLEANED" (NumCol yc) df).
    { unfold update. rewrite getitem_setitem, Hyc. apply setitem_twice. }
    rewrite E1, getitem_setitem.
    destruct (existsb id (isna (NumCol yc))); [|reflexivity].
    rewrite getitem_setitem_other by discriminate. now rewrite Hm.
Qed.

Lemma index_extract_year_info df out :
  extract_year_info df = Ok out -> index out = index df.
Proof.
  destruct (getitem "YEAR" df) as [year|] eqn:Hy.
  - rewrite (extract_year_info_result df year Hy). cbv zeta.
    destruct (existsb _ _); [destruct (getitem "MOVIES" df)|];
      try discriminate; now intros [= <-].
  - unfold extract_year_info. rewrite Hy. now intros [= <-].
Qed.

End RowLabels.

(** Only the Deduplicator and the Outlier Filter touch the rows: renaming
    the columns, handling missing values, extracting the year, encoding and
    scaling all return a frame with the row labels they were given. *)
Theorem stages_keep_row_labels (lib : Library) (df : DataFrame) :
  index (clean_column_names df) = index df /\
  index (handle_missing_values df) = index df /\
  (forall out, extract_year_info df = Ok out -> index out = index df) /\
  index (encode_categorical df) = index df /\
  (forall out, scale_features df = Ok out -> index out = index df).
Proof.
  split; [reflexivity|]. split; [apply index_handle_missing_values|].
  split; [apply index_extract_year_info|].
  split; [apply index_encode_categorical | apply index_scale_features].
Qed.

Lemma stages_keep_row_labels_witness :
  let df := {| index := [4; 7];
               columns := [("MOVIES", ObjCol [Str "a"; Str "b"]);
                           ("YEAR", ObjCol [Str "1999"; Str "soon"]);
                           ("RATING", NumCol [Some 1; Some 3]%Q)] |} in
  exists out1 out2,
    @extract_year_info Reference.library df = Ok out1 /\ index out1 = [4; 7] /\
    @scale_features Reference.library df = Ok out2 /\ index out2 = [4; 7].
Proof.
  intros df.
  destruct (stages_keep_row_labels Reference.library df) as (_ & _ & H3 & _ & H5).
  destruct (@extract_year_info Reference.library df) as [out1|e] eqn:E1;
    [|vm_compute in E1; discriminate].
  destruct (@scale_features Reference.library df) as [out2|e] eqn:E2;
    [|vm_compute in E2; discriminate].
  exists out1, out2. split; [reflexivity|]. split; [exact (H3 out1 eq_refl)|].
  split; [reflexivity | exact (H5 out2 eq_refl)].
Defined.

(* ----------------------------------------------------------------- *)
(** ** extract_year_info: errors and frame *)

Section YearErrors.

Context {lib : Library}.

Lemma any_missing_year (texts : list (option string)) :
  existsb id (isna (NumCol (map primary_year texts))) = true <->
  exists t, In t texts /\ primary_year t = None.
Proof.
  unfold isna. simpl. rewrite existsb_exists. split.
  - intros [b [Hb Hid]]. unfold id in Hid. subst b.
    rewrite !map_map in Hb. apply in_map_iff in Hb as [t [Ht Hin]].
    exists t. split; [exact Hin|].
    destruct (primary_year t); [discriminate | reflexivity].
  - intros [t [Hin Ht]]. exists true. split; [|reflexivity].
    rewrite !map_map. apply in_map_iff. exists t. split; [|exact Hin].
    now rewrite Ht.
Qed.

End YearErrors.

(** The only error of [extract_year_info] is [KeyError], and it is raised
    exactly when the frame has a YEAR column, no MOVIES column, and a YEAR
    cell in whose text no year is found: the fallback then asks for a column
    that is not there. *)
Theorem extract_year_info_key_error (lib : Library) (df : DataFrame) :
  (forall e, extract_year_info df = Raise e -> e = KeyError) /\
  (extract_year_info df = Raise KeyError <->
   exists year,
     getitem "YEAR" df = Some year /\
     getitem "MOVIES" df = None /\
     exists t, In t (astype_str year) /\ primary_year t = None).
Proof.
  destruct (getitem "YEAR" df) as [year|] eqn:Hy.
  - rewrite (extract_year_info_result df year Hy). cbv zeta.
    destruct (existsb id (isna (NumCol (map primary_year (astype_str year)))))
      eqn:Ea.
    + apply any_missing_year in Ea.
      destruct (getitem "MOVIES" df) as [movies|] eqn:Hm.
      * split; [discriminate|]. split; [discriminate|].
        intros (y & _ & C & _). discriminate.
      * split; [now intros e [= <-]|]. split; [|reflexivity].
        intros _. exists year. auto.
    + split; [discriminate|]. split; [discriminate|].
      intros (y & [= <-] & _ & Ht).
      apply any_missing_year in Ht. congruence.
  - unfold extract_year_info. rewrite Hy.
    split; [discriminate|]. split; [discriminate|].
    intros (y & C & _). discriminate.
Qed.

Lemma extract_year_info_key_error_witness :
  let df := {| index := [0; 1];
               columns := [("YEAR", ObjCol [Str "2010"; Str "soon"])] |} in
  @extract_year_info Reference.library df = Raise KeyError.
Proof.
  intros df.
  apply (proj2 (extract_year_info_key_error Reference.library df)).
  exists (ObjCol [Str "2010"; Str "soon"]).
  split; [reflexivity|]. split; [reflexivity|].
  exists (Some "soon"). split; [simpl; auto | reflexivity].
Defined.

(** [extract_year_info] writes one column and nothing else.  Without a YEAR
    column the frame is returned as it is; with one, YEAR_CLEANED holds the
    year read from each YEAR cell, and every other column, YEAR and MOVIES
    included, is what it was. *)
Theorem extract_year_info_frame (lib : Library) (df out : DataFrame) :
  extract_year_info df = Ok out ->
  (getitem "YEAR" df = None -> out = df) /\
  (forall year, getitem "YEAR" df = Some year ->
     getitem "YEAR_CLEANED" out =
     Some (NumCol (map primary_year (astype_str year)))) /\
  (forall c, c <> "YEAR_CLEANED" -> getitem c out = getitem c df).
Proof.
  intros Hout.
  destruct (getitem "YEAR" df) as [year|] eqn:Hy.
  - rewrite (extract_year_info_result df year Hy) in Hout. cbv zeta in Hout.
    assert (E : out = setitem "YEAR_CLEANED"
                        (NumCol (map primary_year (astype_str year))) df).
    { destruct (existsb _ _); [destruct (getitem "MOVIES" df)|];
        try discriminate; now injection Hout as <-. }
    subst out. split; [discriminate|]. split.
    + intros y [= <-]. apply getitem_setitem.
    + intros c Hc. now apply getitem_setitem_other.
  - unfold extract_year_info in Hout. rewrite Hy in Hout.
    injection Hout as <-. split; [reflexivity|]. split; [discriminate|].
    reflexivity.
Qed.

Lemma extract_year_info_frame_witness :
  let df := {| index := [0; 1];
               columns := [("MOVIES", ObjCol [Str "Heat (1995)"; Str "Ran"]);
                           ("YEAR", ObjCol [Str "1995-"; Str "(I) (1985)"])] |} in
  exists out,
    @extract_year_info Reference.library df = Ok out /\
    getitem "YEAR_CLEANED" out
    = Some (NumCol (map (@primary_year Reference.library)
                        [Some "1995-"; Some "(I) (1985)"])) /\
    getitem "MOVIES" out = getitem "MOVIES" df.
Proof.
  intros df.
  destruct (@extract_year_info Reference.library df) as [out|e] eqn:E;
    [|vm_compute in E; discriminate].
  destruct (extract_year_info_frame Reference.library df out E) as (_ & H2 & H3).
  exists out. split; [reflexivity|]. split.
  - apply (H2 (ObjCol [Str "1995-"; Str "(I) (1985)"])). reflexivity.
  - apply H3. discriminate.
Defined.

(* ----------------------------------------------------------------- *)
(** ** handle_missing_values: the other columns *)

Section HandlerColumns.

Context {lib : Library}.

Lemma cells_of_series_of_cells x : cells_of (series_of_cells x) = x.
Proof.
  unfold series_of_cells. destruct (forallb is_number_cell x) eqn:E;
    [|reflexivity].
  simpl. rewrite map_map. rewrite <- (map_id x) at 2.
  apply map_ext_in. intros c Hc.
  rewrite forallb_forall in E. specialize (E c Hc).
  destruct c; simpl in *; congruence.
Qed.

(** The cells after the third loop: the sentinel in every gap, the other
    cells as they were. *)
Lemma cells_fill_unknown s :
  cells_of (fill_unknown s) =
  map (fun c => if isna_cell c then Str "Unknown" else c) (cells_of s).
Proof.
  unfold fill_unknown. destruct (forallb id (isna s)) eqn:E.
  - simpl. apply map_ext_in. intros c Hc.
    rewrite forallb_forall in E.
    assert (H : isna_cell c = true).
    { apply (E (isna_cell c)). unfold isna. now apply in_map. }
    now rewrite H.
  - destruct s as [x|x]; simpl; [apply cells_of_series_of_cells | reflexivity].
Qed.

Lemma getitem_dropna_columns d col :
  NoDup (names d) ->
  getitem col (dropna_columns d) =
  match getitem col d with
  | Some s => if forallb id (isna s) then None else Some s
  | None => None
  end.
Proof.
  unfold getitem, dropna_columns, names. simpl.
  induction (columns d) as [|[k v] r IH]; simpl; intros Hnd; [reflexivity|].
  inversion Hnd as [|? ? Hk Hr]; subst.
  destruct (String.eqb_spec k col) as [->|Hne].
  - destruct (forallb id (isna v)); simpl.
    + rewrite IH by assumption.
      assert (E : assoc col r = None).
      { clear -Hk. induction r as [|[k' v'] r IH]; simpl in *; [reflexivity|].
        destruct (String.eqb_spec k' col) as [->|_]; [tauto|].
        apply IH. tauto. }
      now rewrite E.
    + now rewrite String.eqb_refl.
  - destruct (forallb id (isna v)); simpl.
    + now apply IH.
    + apply String.eqb_neq in Hne. rewrite Hne. now apply IH.
Qed.

Lemma handle_missing_values_getitem_cat df col :
  In col potential_cat_cols ->
  getitem col (handle_missing_values df) =
  option_map fill_unknown (getitem col (dropna_columns (rename str_strip df))).
Proof.
  intros Hcol. unfold handle_missing_values.
  set (df1 := dropna_columns (rename str_strip df)).
  set (num_cols := filter (fun c => has_column c df1) potential_num_cols).
  set (cat_cols := filter (fun c => has_column c df1) potential_cat_cols).
  assert (Hn : NoDup num_cols) by apply NoDup_filter, potential_num_cols_NoDup.
  assert (Hc : NoDup cat_cols) by apply NoDup_filter, potential_cat_cols_NoDup.
  assert (Hnum : ~ In col num_cols).
  { intros Hin. apply filter_In in Hin as [Hin _].
    now apply num_col_not_cat in Hin. }
  rewrite (getitem_update_loop (fun _ => fill_unknown) cat_cols Hc).
  rewrite (getitem_update_loop (fun _ => fill_median) num_cols Hn).
  rewrite (getitem_update_loop coerce num_cols Hn).
  destruct (in_dec string_dec col num_cols) as [Hin|_]; [contradiction|].
  destruct (in_dec string_dec col cat_cols) as [_|Hout]; [reflexivity|].
  assert (E : has_column col df1 = false).
  { destruct (has_column col df1) eqn:E; [|reflexivity].
    exfalso. apply Hout. apply filter_In. now split. }
  unfold has_column in E. now destruct (getitem col df1).
Qed.

Lemma handle_missing_values_getitem_other df col :
  ~ In col potential_num_cols -> ~ In col potential_cat_cols ->
  getitem col (handle_missing_values df) =
  getitem col (dropna_columns (rename str_strip df)).
Proof.
  intros Hnum Hcat. unfold handle_missing_values.
  set (df1 := dropna_columns (rename str_strip df)).
  set (num_cols := filter (fun c => has_column c df1) potential_num_cols).
  set (cat_cols := filter (fun c => has_column c df1) potential_cat_cols).
  assert (Hn : NoDup num_cols) by apply NoDup_filter, potential_num_cols_NoDup.
  assert (Hc : NoDup cat_cols) by apply NoDup_filter, potential_cat_cols_NoDup.
  rewrite (getitem_update_loop (fun _ => fill_unknown) cat_cols Hc).
  rewrite (getitem_update_loop (fun _ => fill_median) num_cols Hn).
  rewrite (getitem_update_loop coerce num_cols Hn).
  destruct (in_dec string_dec col cat_cols) as [Hin|_].
  { apply filter_In in Hin as [Hin _]. contradiction. }
  destruct (in_dec string_dec col num_cols) as [Hin|_]; [|reflexivity].
  apply filter_In in Hin as [Hin _]. contradiction.
Qed.

(** The loops never create a column. *)
Lemma handle_missing_values_getitem_none df col :
  getitem col (dropna_columns (rename str_strip df)) = None ->
  getitem col (handle_missing_values df) = None.
Proof.
  intros H. unfold handle_missing_values.
  set (df1 := dropna_columns (rename str_strip df)) in *.
  set (num_cols := filter (fun c => has_column c df1) potential_num_cols).
  set (cat_cols := filter (fun c => has_column c df1) potential_cat_cols).
  assert (Hn : NoDup num_cols) by apply NoDup_filter, potential_num_cols_NoDup.
  assert (Hc : NoDup cat_cols) by apply NoDup_filter, potential_cat_cols_NoDup.
  rewrite (getitem_update_loop (fun _ => fill_unknown) cat_cols Hc).
  rewrite (getitem_update_loop (fun _ => fill_median) num_cols Hn).
  rewrite (getitem_update_loop coerce num_cols Hn).
  rewrite H.
  destruct (in_dec string_dec col cat_cols), (in_dec string_dec col num_cols);
    reflexivity.
Qed.

Lemma names_rename f df : names (rename f df) = map f (names df).
Proof. unfold names, rename. simpl. now rewrite !map_map. Qed.

Lemma assoc_not_in c (l : list (string * series)) :
  ~ In c (map fst l) -> assoc c l = None.
Proof.
  induction l as [|[k v] r IH]; simpl; [reflexivity|].
  intros H. destruct (String.eqb_spec k c) as [->|_]; [tauto|].
  apply IH. tauto.
Qed.

End HandlerColumns.

(** A column of the categorical set MOVIES, YEAR, GENRE, ONE-LINE, STARS
    that is present once the all-missing columns are dropped leaves
    [handle_missing_values] without a missing cell: every gap holds
    "Unknown", every other cell is what it was. *)
Theorem handle_missing_values_categorical (lib : Library) (df : DataFrame)
    (col : string) (s0 : series) :
  NoDup (map str_strip (names df)) ->
  In col potential_cat_cols ->
  getitem col (dropna_columns (rename str_strip df)) = Some s0 ->
  exists s,
    getitem col (handle_missing_values df) = Some s /\
    cells_of s = map (fun c => if isna_cell c then Str "Unknown" else c)
                     (cells_of s0) /\
    ~ In NaN (cells_of s).
Proof.
  intros _ Hcol Hget. exists (fill_unknown s0).
  split; [now rewrite handle_missing_values_getitem_cat, Hget|].
  split; [apply cells_fill_unknown|].
  rewrite cells_fill_unknown, in_map_iff. intros [c [Hc _]].
  destruct c; simpl in Hc; discriminate.
Qed.

Lemma handle_missing_values_categorical_witness :
  let df := {| index := [0; 1; 2];
               columns := [("GENRE ", ObjCol [Str "Drama"; NaN; Str "Action"])] |} in
  exists s,
    getitem "GENRE" (@handle_missing_values Reference.library df) = Some s /\
    cells_of s = [Str "Drama"; Str "Unknown"; Str "Action"].
Proof.
  intros df.
  destruct (handle_missing_values_categorical Reference.library df "GENRE"
              (ObjCol [Str "Drama"; NaN; Str "Action"]))
    as [s (H1 & H2 & _)].
  - simpl. repeat (constructor; [simpl; intuition discriminate|]). constructor.
  - simpl. auto.
  - reflexivity.
  - exists s. split; [exact H1 | exact H2].
Defined.

(** A column outside both recognized sets passes through
    [handle_missing_values] with its name stripped and its cells as they
    were, unless all its cells are missing; a column whose cells are all
    missing is dropped, recognized or not. *)
Theorem handle_missing_values_other_columns (lib : Library) (df : DataFrame)
    (col : string) (s : series) :
  NoDup (map str_strip (names df)) ->
  getitem col (rename str_strip df) = Some s ->
  (forallb id (isna s) = true ->
   getitem col (handle_missing_values df) = None) /\
  (forallb id (isna s) = false ->
   ~ In col potential_num_cols -> ~ In col potential_cat_cols ->
   getitem col (handle_missing_values df) = Some s).
Proof.
  intros Hnd Hget.
  assert (Hnd' : NoDup (names (rename str_strip df)))
    by (now rewrite names_rename).
  pose proof (getitem_dropna_columns (rename str_strip df) col Hnd') as E.
  rewrite Hget in E. split.
  - intros Hall. rewrite Hall in E.
    now apply handle_missing_values_getitem_none.
  - intros Hsome Hnum Hcat. rewrite Hsome in E.
    now rewrite handle_missing_values_getitem_other.
Qed.

Lemma handle_missing_values_other_columns_witness :
  let df := {| index := [0; 1];
               columns := [("DIRECTOR", ObjCol [Str "Mann"; NaN]);
                           ("RATING", ObjCol [NaN; NaN])] |} in
  getitem "RATING" (@handle_missing_values Reference.library df) = None /\
  getitem "DIRECTOR" (@handle_missing_values Reference.library df)
  = Some (ObjCol [Str "Mann"; NaN]).
Proof.
  intros df.
  assert (Hnd : NoDup (map (@str_strip Reference.library) (names df))).
  { simpl. repeat (constructor; [simpl; intuition discriminate|]). constructor. }
  split.
  - apply (proj1 (handle_missing_values_other_columns Reference.library df
                    "RATING" (ObjCol [NaN; NaN]) Hnd eq_refl)).
    reflexivity.
  - apply (proj2 (handle_missing_values_other_columns Reference.library df
                    "DIRECTOR" (ObjCol [Str "Mann"; NaN]) Hnd eq_refl)).
    + reflexivity.
    + simpl. intuition discriminate.
    + simpl. intuition discriminate.
Defined.

(** In [main] the handler runs on cleaned names, and a cleaned name is never
    RunTime, Gross or ONE-LINE: these three entries of the handler's lists
    match no column.  A cleaned name holds no hyphen, whatever the table;
    and it holds no lower-case letter when the names of the table are ASCII
    texts, or, for names of any script, because the characters of an
    upper-case form are their own upper-case forms. *)
Theorem handler_after_normalizer (lib : Library) (df : DataFrame) :
  let out := handle_missing_values (clean_column_names df) in
  getitem "ONE-LINE" out = None /\
  (Forall (Text.all_chars Text.is_ascii) (names df) \/ upper_is_stable ->
   getitem "RunTime" out = None /\ getitem "Gross" out = None).
Proof.
  assert (H : forall col (p : ascii -> bool),
            (forall k, In k (names df) ->
               Forall (Text.all_chars p) (Text.chars (clean_name k))) ->
            ~ Text.all_chars p col ->
            getitem col (handle_missing_values (clean_column_names df)) = None).
  { intros col p Hp Hcol. apply handle_missing_values_getitem_none.
    unfold getitem, dropna_columns. simpl. apply assoc_not_in.
    intros Hin. apply in_map_iff in Hin as [[k v] [Hk Hin]].
    apply filter_In in Hin as [Hin _].
    apply in_map_iff in Hin as [[k1 v1] [E1 Hin]].
    apply in_map_iff in Hin as [[k0 v0] [E0 Hin]].
    simpl in *. injection E1 as <- _. injection E0 as <- _. subst col.
    apply Hcol. apply str_strip_bytes. apply Hp.
    unfold names. apply in_map_iff. now exists (k0, v0). }
  split.
  - apply (H _ (fun b => Text.is_word b || (128 <=? nat_of_ascii b))).
    + intros k _. apply clean_name_word_chars.
    + vm_compute. intuition discriminate.
  - intros Hn.
    assert (Hp : forall k, In k (names df) ->
              Forall (Text.all_chars
                        (fun b => Text.is_upper b || Text.is_digit b
                                  || Ascii.eqb b "_"%char
                                  || (128 <=? nat_of_ascii b)))
                     (Text.chars (clean_name k))).
    { intros k Hk. apply clean_name_settled_chars.
      destruct Hn as [Hn|Hn]; [left|now right].
      rewrite Forall_forall in Hn. now apply Hn. }
    split; apply (H _ _ Hp); vm_compute; intuition discriminate.
Qed.

Lemma handler_after_normalizer_witness :
  let df := {| index := [0; 1];
               columns := [("RunTime", ObjCol [Str "90"; NaN]);
                           ("ONE-LINE", ObjCol [Str "A heist."; NaN])] |} in
  let out := @handle_missing_values Reference.library
               (@clean_column_names Reference.library df) in
  getitem "ONE-LINE" out = None /\ getitem "RunTime" out = None.
Proof.
  intros df out.
  destruct (handler_after_normalizer Reference.library df) as [H1 H2].
  split; [exact H1|]. apply H2. left.
  repeat constructor.
Defined.

(* ----------------------------------------------------------------- *)
(** ** The order of strings and the classes of the encoder *)

Module StringOrder.

Lemma ascii_compare_refl a : Ascii.compare a a = Eq.
Proof. unfold Ascii.compare. apply N.compare_refl. Qed.

Lemma ascii_compare_lt_trans a b c :
  Ascii.compare a b = Lt -> Ascii.compare b c = Lt -> Ascii.compare a c = Lt.
Proof.
  unfold Ascii.compare. rewrite !N.compare_lt_iff. apply N.lt_trans.
Qed.

Lemma compare_refl s : String.compare s s = Eq.
Proof.
  induction s as [|a s IH]; simpl; [reflexivity|].
  now rewrite ascii_compare_refl.
Qed.

Lemma compare_lt_trans s1 :
  forall s2 s3,
    String.compare s1 s2 = Lt -> String.compare s2 s3 = Lt ->
    String.compare s1 s3 = Lt.
Proof.
  induction s1 as [|a s1 IH]; intros [|b s2] [|c s3]; simpl;
    try discriminate; try reflexivity.
  destruct (Ascii.compare a b) eqn:Eab, (Ascii.compare b c) eqn:Ebc;
    try discriminate.
  - apply Ascii.compare_eq_iff in Eab, Ebc. subst.
    rewrite ascii_compare_refl. apply IH.
  - apply Ascii.compare_eq_iff in Eab. subst. now rewrite Ebc.
  - apply Ascii.compare_eq_iff in Ebc. subst. now rewrite Eab.
  - now rewrite (ascii_compare_lt_trans a b c Eab Ebc).
Qed.

Lemma lt_trans s t u : string_lt s t -> string_lt t u -> string_lt s u.
Proof.
  unfold string_lt, String.ltb. intros H1 H2.
  destruct (String.compare s t) eqn:E1; try discriminate.
  destruct (String.compare t u) eqn:E2; try discriminate.
  now rewrite (compare_lt_trans s t u E1 E2).
Qed.

Lemma lt_irrefl s : ~ string_lt s s.
Proof. unfold string_lt, String.ltb. now rewrite compare_refl. Qed.

Lemma lt_asym s t : string_lt s t -> ~ string_lt t s.
Proof. intros H1 H2. exact (lt_irrefl s (lt_trans s t s H1 H2)). Qed.

(** Two different strings are ordered one way or the other. *)
Lemma lt_total s t : s <> t -> string_lt s t \/ string_lt t s.
Proof.
  intros Hne. unfold string_lt, String.ltb.
  rewrite (String.compare_antisym t s).
  destruct (String.compare s t) eqn:E; simpl; auto.
  apply String.compare_eq_iff in E. contradiction.
Qed.

Lemma leb_not_eq_lt s t : String.leb s t = true -> s <> t -> string_lt s t.
Proof.
  unfold String.leb, string_lt, String.ltb. intros H Hne.
  destruct (String.compare s t) eqn:E; try discriminate; [|reflexivity].
  apply String.compare_eq_iff in E. contradiction.
Qed.

Lemma not_leb_lt s t : String.leb s t = false -> string_lt t s.
Proof.
  unfold String.leb, string_lt, String.ltb. rewrite (String.compare_antisym t s).
  now destruct (String.compare s t).
Qed.

Lemma insert_str_sorted a l :
  StronglySorted string_lt l -> StronglySorted string_lt (insert_str a l).
Proof.
  induction 1 as [|b r Hr IH Hb]; simpl.
  - repeat constructor.
  - destruct (String.eqb_spec a b) as [->|Hab]; [now constructor|].
    destruct (String.leb a b) eqn:E.
    + pose proof (leb_not_eq_lt a b E Hab) as Hlt.
      constructor; [now constructor|].
      constructor; [exact Hlt|].
      eapply Forall_impl; [|exact Hb]. intros c Hc.
      exact (lt_trans a b c Hlt Hc).
    + pose proof (not_leb_lt a b E) as Hlt.
      constructor; [exact IH|].
      rewrite Forall_forall in *. intros c Hc.
      apply In_insert_str in Hc as [->|Hc]; auto.
Qed.

(** [np.unique]: strictly increasing, hence without repetition. *)
Lemma classes_sorted l : StronglySorted string_lt (classes l).
Proof.
  induction l as [|a r IH]; simpl; [constructor | now apply insert_str_sorted].
Qed.

Lemma sorted_NoDup l : StronglySorted string_lt l -> NoDup l.
Proof.
  induction 1 as [|a r Hr IH Ha]; constructor; auto.
  intros Hin. rewrite Forall_forall in Ha. exact (lt_irrefl a (Ha a Hin)).
Qed.

Lemma position_order l :
  StronglySorted string_lt l ->
  forall a b, In a l -> In b l -> (position a l < position b l <-> string_lt a b).
Proof.
  induction 1 as [|c r Hr IH Hc]; intros a b Ha Hb; simpl in *; [tauto|].
  rewrite Forall_forall in Hc.
  destruct (String.eqb_spec a c) as [->|Hac], (String.eqb_spec b c) as [->|Hbc].
  - split; [lia | intros H; now apply lt_irrefl in H].
  - split; [intros _ | lia].
    apply Hc. destruct Hb; [congruence | assumption].
  - split; [lia|]. intros H. exfalso.
    assert (Hin : In a r) by (destruct Ha; [congruence | assumption]).
    exact (lt_asym a c H (Hc a Hin)).
  - rewrite <- Nat.succ_lt_mono. apply IH.
    + destruct Ha; [congruence | assumption].
    + destruct Hb; [congruence | assumption].
Qed.

Lemma position_nth l :
  NoDup l -> forall j, j < List.length l -> position (nth j l EmptyString) l = j.
Proof.
  induction 1 as [|c r Hc Hr IH]; intros j Hj; simpl in *; [lia|].
  destruct j as [|j]; [now rewrite String.eqb_refl|].
  destruct (String.eqb_spec (nth j r EmptyString) c) as [E|_].
  - exfalso. apply Hc. rewrite <- E. apply nth_In. lia.
  - f_equal. apply IH. lia.
Qed.

End StringOrder.

(** The codes of [LabelEncoder] are ranks.  On the cells of a column, the
    classes of the texts are strictly increasing in the order of strings; a
    text that comes before another gets the smaller code; a missing cell
    gets the code after the last text; and the codes used are exactly
    0, 1, ..., k-1 for k distinct cells. *)
Theorem fit_transform_ranks (x : list (option string)) :
  let texts := classes (present x) in
  let missing := existsb (fun a => match a with
                                   | Some _ => false
                                   | None => true
                                   end) x in
  let k := List.length texts + (if missing then 1 else 0) in
  StronglySorted string_lt texts /\
  (forall a b, In (Some a) x -> In (Some b) x ->
     (position a texts < position b texts <-> String.ltb a b = true)) /\
  (forall i, nth_error x i = Some None ->
     nth_error (fit_transform x) i = Some (List.length texts)) /\
  (forall i a, nth_error x i = Some (Some a) ->
     nth_error (fit_transform x) i = Some (position a texts) /\
     position a texts < List.length texts) /\
  (forall c, In c (fit_transform x) <-> c < k).
Proof.
  intros texts missing k.
  pose proof (StringOrder.classes_sorted (present x)) as Hs. fold texts in Hs.
  assert (Hin : forall a, In (Some a) x -> In a texts)
    by (intros a Ha; now apply In_classes, In_present).
  split; [exact Hs|]. split; [|split; [|split]].
  - intros a b Ha Hb. apply (StringOrder.position_order _ Hs); auto.
  - intros i Hi. now rewrite nth_error_fit_transform, Hi.
  - intros i a Hi. rewrite nth_error_fit_transform, Hi.
    split; [reflexivity|]. apply position_bound, Hin.
    eapply nth_error_In; eauto.
  - intros c. unfold fit_transform. fold texts. rewrite in_map_iff. split.
    + intros [[a|] [<- Ha]].
      * apply Hin, position_bound in Ha. unfold k. lia.
      * assert (Hm : missing = true).
        { unfold missing. apply existsb_exists. exists None. auto. }
        unfold k. rewrite Hm. lia.
    + intros Hc. destruct (Nat.lt_ge_cases c (List.length texts)) as [Hlt|Hge].
      * exists (Some (nth c texts EmptyString)). split.
        -- apply StringOrder.position_nth; [|exact Hlt].
           now apply StringOrder.sorted_NoDup.
        -- apply In_present, In_classes. apply nth_In. exact Hlt.
      * unfold k in Hc. destruct missing eqn:Hm; [|lia].
        unfold missing in Hm. apply existsb_exists in Hm as [[a|] [Ha Hb]];
          [discriminate|].
        exists None. split; [lia | exact Ha].
Qed.

(* ----------------------------------------------------------------- *)
(** ** encode_categorical and scale_features: the columns they leave *)

(** The encoder touches neither MOVIES nor a numeric column, and what it
    returns has no column of dtype object other than MOVIES: each was
    encoded or dropped. *)
Theorem encode_categorical_frame (lib : Library) (df : DataFrame) :
  NoDup (names df) ->
  getitem "MOVIES" (encode_categorical df) = getitem "MOVIES" df /\
  (forall col x, getitem col df = Some (NumCol x) ->
                 getitem col (encode_categorical df) = Some (NumCol x)) /\
  (forall col s, getitem col (encode_categorical df) = Some s ->
                 col <> "MOVIES" -> exists x, s = NumCol x).
Proof.
  intros Hnd.
  assert (Hc : NoDup (filter (fun col => negb (col =? "MOVIES")%string)
                        (object_columns (columns df))))
    by (apply NoDup_filter, object_columns_NoDup; exact Hnd).
  split; [|split].
  - unfold encode_categorical. rewrite (getitem_encode_loop _ Hc).
    destruct (in_dec string_dec "MOVIES" _) as [Hin|_]; [|reflexivity].
    apply filter_In in Hin as [_ Hin]. discriminate.
  - intros col x. apply getitem_encode_numeric. exact Hnd.
  - intros col s Hget Hcol. unfold encode_categorical in Hget.
    rewrite (getitem_encode_loop _ Hc) in Hget.
    destruct (in_dec string_dec col _) as [_|Hout].
    + destruct (getitem col df) as [s0|]; [|discriminate].
      unfold encode_outcome in Hget. destruct (1 <? nunique s0); [|discriminate].
      injection Hget as <-. unfold encoded. eauto.
    + destruct s as [x|x]; [eauto|].
      exfalso. apply Hout. apply filter_In. split.
      * now apply assoc_object_column with (x := x).
      * apply negb_true_iff. now apply String.eqb_neq.
Qed.

Lemma encode_categorical_frame_witness :
  let df := {| index := [0; 1];
               columns := [("MOVIES", ObjCol [Str "a"; Str "b"]);
                           ("RATING", NumCol [Some 1; None]%Q);
                           ("GENRE", ObjCol [Str "x"; Str "y"])] |} in
  getitem "MOVIES" (@encode_categorical Reference.library df)
  = Some (ObjCol [Str "a"; Str "b"]) /\
  getitem "RATING" (@encode_categorical Reference.library df)
  = Some (NumCol [Some 1; None]%Q).
Proof.
  intros df.
  assert (Hnd : NoDup (names df)).
  { simpl. repeat (constructor; [simpl; intuition discriminate|]). constructor. }
  destruct (encode_categorical_frame Reference.library df Hnd) as (H1 & H2 & _).
  split; [exact H1 | now apply H2].
Defined.

(** The scaler writes only into the numeric columns whose name does not end
    in _ENCODED: a column of dtype object, and a numeric column with that
    suffix, come back as they went in. *)
Theorem scale_features_frame (lib : Library) (df out : DataFrame) (col : string) :
  scale_features df = Ok out ->
  (forall x, getitem col df = Some (ObjCol x) ->
             getitem col out = Some (ObjCol x)) /\
  (Text.endswith col "_ENCODED" = true -> getitem col out = getitem col df) /\
  (getitem col df = None -> getitem col out = None).
Proof.
  unfold scale_features. set (cols := filter _ _).
  destruct (0 <? List.length cols).
  - destruct (index df); [discriminate|]. intros [= <-].
    rewrite getitem_scale_loop. split; [|split].
    + now intros x ->.
    + intros Hend. destruct (getitem col df) as [[x|x]|]; try reflexivity.
      destruct (in_dec string_dec col cols) as [Hin|_]; [|reflexivity].
      apply filter_In in Hin as [_ Hin]. rewrite Hend in Hin. discriminate.
    + now intros ->.
  - intros [= <-]. split; [|split]; auto.
Qed.

Lemma scale_features_frame_witness :
  let df := {| index := [0; 1];
               columns := [("MOVIES", ObjCol [Str "a"; Str "b"]);
                           ("RATING", NumCol [Some 1; Some 3]%Q);
                           ("GENRE_ENCODED", NumCol [Some 0; Some 1]%Q)] |} in
  exists out,
    @scale_features Reference.library df = Ok out /\
    getitem "GENRE_ENCODED" out = Some (NumCol [Some 0; Some 1]%Q) /\
    getitem "MOVIES" out = Some (ObjCol [Str "a"; Str "b"]).
Proof.
  intros df.
  destruct (@scale_features Reference.library df) as [out|e] eqn:E;
    [|vm_compute in E; discriminate].
  exists out. split; [reflexivity|]. split.
  - apply (proj1 (proj2 (scale_features_frame Reference.library df out
                           "GENRE_ENCODED" E))). reflexivity.
  - apply (proj1 (scale_features_frame Reference.library df out "MOVIES" E)).
    reflexivity.
Defined.

(** [scale_features] raises only [ValueError], and exactly when the frame
    has no row and has a numeric column whose name does not end in
    _ENCODED. *)
Theorem scale_features_value_error (lib : Library) (df : DataFrame) :
  (forall e, scale_features df = Raise e -> e = ValueError) /\
  (scale_features df = Raise ValueError <->
   index df = [] /\
   exists col x, In (col, x) (numeric_columns (columns df)) /\
                 Text.endswith col "_ENCODED" = false).
Proof.
  unfold scale_features. set (cols := filter _ _).
  assert (Hcols : cols <> [] <->
                  exists col x, In (col, x) (numeric_columns (columns df)) /\
                                Text.endswith col "_ENCODED" = false).
  { split.
    - intros Hne. destruct cols as [|c r] eqn:E; [congruence|].
      assert (Hin : In c cols) by (rewrite E; now left).
      apply filter_In in Hin as [Hin Hend].
      apply in_map_iff in Hin as [[k x] [<- Hin]].
      exists k, x. split; [exact Hin|]. now apply negb_true_iff in Hend.
    - intros (col & x & Hin & Hend) E.
      assert (H : In col cols).
      { apply filter_In. split; [|now rewrite Hend].
        apply in_map_iff. now exists (col, x). }
      rewrite E in H. contradiction. }
  destruct cols as [|c r] eqn:E; simpl.
  - split; [discriminate|]. split; [discriminate|].
    intros [_ H]. apply Hcols in H. congruence.
  - destruct (index df).
    + split; [now intros e [= <-]|]. split; [|reflexivity].
      intros _. split; [reflexivity|]. apply Hcols. discriminate.
    + split; [discriminate|]. split; [discriminate|].
      intros [C _]. discriminate.
Qed.

Lemma scale_features_value_error_witness :
  let df := {| index := []; columns := [("RATING", NumCol [])] |} in
  @scale_features Reference.library df = Raise ValueError.
Proof.
  intros df.
  apply (proj2 (scale_features_value_error Reference.library df)).
  split; [reflexivity|]. exists "RATING", []. split; [simpl; auto | reflexivity].
Defined.

(* ----------------------------------------------------------------- *)
(** ** Rows picked by a mask *)

Module SelectFacts.

Lemma select_map {A B : Type} (f : A -> B) keep (x : list A) :
  select keep (map f x) = map f (select keep x).
Proof.
  revert x. induction keep as [|k keep IH]; intros [|a x]; simpl;
    try reflexivity.
  destruct k; simpl; now rewrite IH.
Qed.

Lemma cells_select_series keep s :
  cells_of (select_series keep s) = select keep (cells_of s).
Proof. destruct s as [x|x]; simpl; [now rewrite select_map | reflexivity]. Qed.

Lemma length_select {A : Type} keep (x : list A) :
  List.length keep = List.length x ->
  List.length (select keep x) = List.length (filter id keep).
Proof.
  revert x. induction keep as [|k keep IH]; intros [|a x]; simpl;
    try discriminate; try reflexivity.
  intros [= H]. destruct k; simpl; now rewrite IH.
Qed.

Lemma In_select_In {A : Type} keep (x : list A) a :
  In a (select keep x) -> In a x.
Proof.
  revert x. induction keep as [|k keep IH]; intros [|b x]; simpl; try tauto.
  destruct k; simpl; intros H; [destruct H|]; auto.
Qed.

Lemma NoDup_select {A : Type} keep (x : list A) :
  NoDup x -> NoDup (select keep x).
Proof.
  intros H. revert keep. induction H as [|a x Ha Hx IH]; intros [|k keep];
    simpl; try constructor.
  destruct k; [constructor|]; auto.
  intros Hin. apply Ha. now apply In_select_In in Hin.
Qed.

(** The cell at position [a] of the selection is the cell at the position
    [kept_position keep a] of the source, a position the mask keeps. *)
Lemma nth_error_select {A : Type} keep :
  forall (x : list A) a,
    List.length keep = List.length x ->
    a < List.length (select keep x) ->
    nth_error (select keep x) a = nth_error x (kept_position keep a) /\
    nth_error keep (kept_position keep a) = Some true.
Proof.
  induction keep as [|k keep IH]; intros [|b x] a Hlen Ha; simpl in *;
    try lia; try discriminate.
  injection Hlen as Hlen. destruct k; simpl in *.
  - destruct a as [|a]; simpl; [auto|]. apply IH; [exact Hlen | lia].
  - now apply IH.
Qed.

Lemma kept_position_increasing {A : Type} keep :
  forall (x : list A) a b,
    List.length keep = List.length x ->
    a < b -> b < List.length (select keep x) ->
    kept_position keep a < kept_position keep b.
Proof.
  induction keep as [|k keep IH]; intros [|c x] a b Hlen Hab Hb; simpl in *;
    try lia; try discriminate.
  injection Hlen as Hlen. destruct k; simpl in *.
  - destruct b as [|b]; [lia|]. destruct a as [|a]; [lia|].
    apply -> Nat.succ_lt_mono. apply (IH x); [exact Hlen | lia | lia].
  - apply -> Nat.succ_lt_mono. now apply (IH x).
Qed.

Lemma kept_position_of_kept {A : Type} keep :
  forall (x : list A) p,
    List.length keep = List.length x ->
    nth_error keep p = Some true ->
    exists a, a < List.length (select keep x) /\ kept_position keep a = p.
Proof.
  induction keep as [|k keep IH]; intros [|c x] p Hlen Hp; simpl in *;
    try discriminate; try (destruct p; discriminate).
  injection Hlen as Hlen. destruct p as [|p]; simpl in Hp.
  - injection Hp as ->. exists 0. simpl. split; [lia | reflexivity].
  - destruct (IH x p Hlen Hp) as [a [Ha Ea]]. destruct k; simpl.
    + exists (S a). split; [lia | now rewrite Ea].
    + exists a. split; [exact Ha | now rewrite Ea].
Qed.

Lemma nth_of_nth_error {A : Type} (l l' : list A) a b d :
  a < List.length l -> nth_error l a = nth_error l' b -> nth a l d = nth b l' d.
Proof.
  intros Ha E. destruct (nth_error l a) as [v|] eqn:Ev.
  - rewrite (nth_error_nth _ _ d Ev). symmetry in E.
    now rewrite (nth_error_nth _ _ d E).
  - apply nth_error_None in Ev. lia.
Qed.

Lemma column_length df kv :
  well_formed df -> In kv (columns df) ->
  List.length (cells_of (snd kv)) = List.length (index df).
Proof.
  intros (_ & _ & H) Hin. rewrite Forall_forall in H. now apply H.
Qed.

(** A row of the selection is a row of the source. *)
Lemma row_take_rows df keep a :
  well_formed df ->
  List.length keep = List.length (index df) ->
  a < List.length (index (take_rows keep df)) ->
  row (take_rows keep df) a = row df (kept_position keep a) /\
  nth a (index (take_rows keep df)) 0 = nth (kept_position keep a) (index df) 0.
Proof.
  intros Hwf Hlen Ha. simpl in Ha. split.
  - unfold row, take_rows. simpl. rewrite map_map. apply map_ext_in.
    intros kv Hin. simpl. rewrite cells_select_series.
    pose proof (column_length df kv Hwf Hin) as Hc.
    assert (Hk : List.length keep = List.length (cells_of (snd kv))) by congruence.
    assert (Ha' : a < List.length (select keep (cells_of (snd kv)))).
    { rewrite (length_select keep _ Hk).
      now rewrite <- (length_select keep (index df) Hlen). }
    apply nth_of_nth_error; [exact Ha'|].
    now apply nth_error_select.
  - simpl. apply nth_of_nth_error; [exact Ha|]. now apply nth_error_select.
Qed.

Lemma well_formed_take_rows df keep :
  well_formed df ->
  List.length keep = List.length (index df) ->
  well_formed (take_rows keep df).
Proof.
  intros Hwf Hlen. pose proof Hwf as (Hi & Hn & Hc). repeat split.
  - simpl. now apply NoDup_select.
  - now rewrite RowFacts.names_take_rows.
  - simpl. rewrite Forall_forall. intros kv Hin.
    apply in_map_iff in Hin as [kv0 [<- Hin0]]. simpl.
    rewrite cells_select_series.
    rewrite (length_select keep (index df) Hlen).
    apply length_select. rewrite Hlen. symmetry.
    now apply column_length.
Qed.

End SelectFacts.

(* ----------------------------------------------------------------- *)
(** ** remove_duplicates *)

Module DuplicateFacts.
Import SelectFacts.

Lemma cell_eqb_refl c : cell_eqb c c = true.
Proof.
  destruct c; simpl; [reflexivity | apply Qeq_bool_refl | apply String.eqb_refl].
Qed.

Lemma cell_eqb_sym a b : cell_eqb a b = cell_eqb b a.
Proof.
  destruct a, b; simpl; try reflexivity;
    [apply Qeq_bool_comm | apply String.eqb_sym].
Qed.

Lemma cell_eqb_trans a b c :
  cell_eqb a b = true -> cell_eqb b c = true -> cell_eqb a c = true.
Proof.
  destruct a, b, c; simpl; try discriminate; try reflexivity.
  - apply Qeq_bool_trans.
  - intros H1 H2. apply String.eqb_eq in H1, H2. subst. apply String.eqb_refl.
Qed.

Lemma row_eqb_refl r : row_eqb r r = true.
Proof.
  induction r as [|c r IH]; simpl; [reflexivity|].
  now rewrite cell_eqb_refl, IH.
Qed.

Lemma row_eqb_trans r1 :
  forall r2 r3,
    row_eqb r1 r2 = true -> row_eqb r2 r3 = true -> row_eqb r1 r3 = true.
Proof.
  induction r1 as [|a r1 IH]; intros [|b r2] [|c r3]; simpl;
    try discriminate; try reflexivity.
  intros H1 H2. apply andb_true_iff in H1 as [Ha H1].
  apply andb_true_iff in H2 as [Hb H2].
  now rewrite (cell_eqb_trans a b c Ha Hb), (IH r2 r3 H1 H2).
Qed.

Lemma length_duplicated df :
  List.length (map negb (duplicated df)) = List.length (index df).
Proof. unfold duplicated. now rewrite !length_map, length_seq. Qed.

(** The mask of [drop_duplicates] keeps position [p] exactly when no
    earlier row equals the row at [p]. *)
Lemma kept_by_duplicated df p :
  nth_error (map negb (duplicated df)) p = Some true ->
  forall j, j < p -> row_eqb (row df j) (row df p) = false.
Proof.
  unfold duplicated. rewrite map_map. intros H j Hj.
  apply RowFacts.nth_error_map_seq_inv in H as [_ H].
  symmetry in H. apply negb_true_iff in H.
  destruct (row_eqb (row df j) (row df p)) eqn:E; [|reflexivity].
  assert (C : existsb (fun j => row_eqb (row df j) (row df p)) (seq 0 p) = true).
  { apply existsb_exists. exists j. split; [apply in_seq; lia | exact E]. }
  congruence.
Qed.

Lemma dropped_by_duplicated df p :
  p < List.length (index df) ->
  nth_error (map negb (duplicated df)) p <> Some true ->
  exists j, j < p /\ row_eqb (row df j) (row df p) = true.
Proof.
  unfold duplicated. rewrite map_map. intros Hp H.
  rewrite (RowFacts.nth_error_map_seq _ _ p Hp) in H.
  destruct (existsb (fun j => row_eqb (row df j) (row df p)) (seq 0 p)) eqn:E.
  - apply existsb_exists in E as [j [Hj E]]. apply in_seq in Hj.
    exists j. split; [lia | exact E].
  - simpl in H. congruence.
Qed.

(** The frame [remove_duplicates] returns when there is a row and a
    column. *)
Lemma remove_duplicates_take_rows df :
  index df <> [] -> columns df <> [] ->
  remove_duplicates df = take_rows (map negb (duplicated df)) df.
Proof.
  intros Hi Hc. unfold remove_duplicates.
  destruct (index df); [congruence|]. destruct (columns df); [congruence|].
  reflexivity.
Qed.

Lemma remove_duplicates_empty df :
  index df = [] \/ columns df = [] -> remove_duplicates df = df.
Proof.
  intros H. unfold remove_duplicates.
  destruct (index df); [reflexivity|]. destruct (columns df); [reflexivity|].
  destruct H; discriminate.
Qed.

Lemma distinct_after_remove_duplicates df a b :
  well_formed df -> columns df <> [] ->
  a < b -> b < List.length (index (remove_duplicates df)) ->
  row_eqb (row (remove_duplicates df) a) (row (remove_duplicates df) b) = false.
Proof.
  intros Hwf Hc Hab Hb.
  destruct (index df) as [|l0 ls] eqn:Ei.
  { rewrite remove_duplicates_empty in Hb by auto. rewrite Ei in Hb.
    simpl in Hb. lia. }
  assert (Hi : index df <> []) by (rewrite Ei; discriminate).
  rewrite (remove_duplicates_take_rows df Hi Hc) in *.
  set (keep := map negb (duplicated df)) in *.
  pose proof (length_duplicated df) as Hlen. fold keep in Hlen.
  destruct (row_take_rows df keep a Hwf Hlen) as [Ra _]; [lia|].
  destruct (row_take_rows df keep b Hwf Hlen) as [Rb _]; [exact Hb|].
  rewrite Ra, Rb. simpl in Hb.
  apply kept_by_duplicated.
  - now apply (nth_error_select keep (index df) b Hlen).
  - now apply (kept_position_increasing keep (index df)).
Qed.

Lemma well_formed_remove_duplicates df :
  well_formed df -> well_formed (remove_duplicates df).
Proof.
  intros Hwf.
  destruct (index df) as [|l0 ls] eqn:Ei.
  { now rewrite remove_duplicates_empty by auto. }
  destruct (columns df) as [|c0 cs] eqn:Ec.
  { now rewrite remove_duplicates_empty by auto. }
  rewrite remove_duplicates_take_rows by congruence.
  apply well_formed_take_rows; [exact Hwf | apply length_duplicated].
Qed.

End DuplicateFacts.

(** After [remove_duplicates] no two rows are equal, in a well-formed frame
    with at least one column.  (A frame without columns is returned as it
    is, all its rows being empty.) *)
Theorem remove_duplicates_distinct_rows (df : DataFrame) (a b : nat) :
  well_formed df ->
  columns df <> [] ->
  a < b ->
  b < List.length (index (remove_duplicates df)) ->
  row_eqb (row (remove_duplicates df) a) (row (remove_duplicates df) b) = false.
Proof. apply DuplicateFacts.distinct_after_remove_duplicates. Qed.

Lemma remove_duplicates_distinct_rows_witness :
  let df := {| index := [0; 1; 2; 3];
               columns := [("MOVIES", ObjCol [Str "a"; Str "b"; Str "a"; Str "c"]);
                           ("RATING", NumCol [Some 1; None; Some (2 # 2); None]%Q)] |} in
  index (remove_duplicates df) = [0; 1; 3] /\
  row_eqb (row (remove_duplicates df) 1) (row (remove_duplicates df) 2) = false.
Proof.
  intros df. split; [reflexivity|].
  apply (remove_duplicates_distinct_rows df 1 2).
  - unfold well_formed, names. simpl. repeat split.
    + repeat (constructor; [simpl; intuition discriminate|]). constructor.
    + repeat (constructor; [simpl; intuition discriminate|]). constructor.
    + repeat constructor.
  - discriminate.
  - lia.
  - simpl. lia.
Defined.

(** [remove_duplicates] keeps the first of equal rows: every row of the
    input equals a row at the same or an earlier position that is in the
    output, with its label, cell for cell as it was. *)
Theorem remove_duplicates_keeps_first (df : DataFrame) (p : nat) :
  well_formed df ->
  columns df <> [] ->
  p < List.length (index df) ->
  exists q a,
    q <= p /\
    row_eqb (row df q) (row df p) = true /\
    a < List.length (index (remove_duplicates df)) /\
    row (remove_duplicates df) a = row df q /\
    nth a (index (remove_duplicates df)) 0 = nth q (index df) 0.
Proof.
  intros Hwf Hc. induction p as [p IH] using lt_wf_ind. intros Hp.
  assert (Hi : index df <> []) by (destruct (index df); [simpl in Hp; lia | discriminate]).
  set (keep := map negb (duplicated df)).
  pose proof (DuplicateFacts.length_duplicated df) as Hlen. fold keep in Hlen.
  destruct (nth_error keep p) as [[|]|] eqn:Ek.
  - destruct (SelectFacts.kept_position_of_kept keep (index df) p Hlen Ek)
      as [a [Ha Ea]].
    exists p, a. split; [lia|]. split; [apply DuplicateFacts.row_eqb_refl|].
    rewrite (DuplicateFacts.remove_duplicates_take_rows df Hi Hc). fold keep.
    split; [exact Ha|].
    destruct (SelectFacts.row_take_rows df keep a Hwf Hlen Ha) as [R L].
    now rewrite R, L, Ea.
  - destruct (DuplicateFacts.dropped_by_duplicated df p Hp) as [j [Hj Ej]].
    { fold keep. congruence. }
    destruct (IH j Hj) as (q & a & Hq & Eq & Ha & R & L); [lia|].
    exists q, a. split; [lia|]. split; [|auto].
    exact (DuplicateFacts.row_eqb_trans _ _ _ Eq Ej).
  - apply nth_error_None in Ek. lia.
Qed.

Lemma remove_duplicates_keeps_first_witness :
  let df := {| index := [0; 1; 2];
               columns := [("MOVIES", ObjCol [Str "a"; Str "b"; Str "a"])] |} in
  exists q a,
    q <= 2 /\ row_eqb (row df q) (row df 2) = true /\
    a < List.length (index (remove_duplicates df)) /\
    row (remove_duplicates df) a = row df q /\
    nth a (index (remove_duplicates df)) 0 = nth q (index df) 0.
Proof.
  intros df. apply (remove_duplicates_keeps_first df 2).
  - unfold well_formed, names. simpl. repeat split.
    + repeat (constructor; [simpl; intuition discriminate|]). constructor.
    + repeat (constructor; [simpl; intuition discriminate|]). constructor.
    + repeat constructor.
  - discriminate.
  - simpl. lia.
Defined.

Lemma map_true_seq (f : nat -> bool) m :
  forall s, (forall i, s <= i < s + m -> f i = true) ->
            map f (seq s m) = repeat true m.
Proof.
  induction m as [|m IH]; intros s H; simpl; [reflexivity|].
  rewrite H by lia. f_equal. apply IH. intros i Hi. apply H. lia.
Qed.

(** Removing duplicates twice is removing them once. *)
Theorem remove_duplicates_idempotent (df : DataFrame) :
  well_formed df ->
  remove_duplicates (remove_duplicates df) = remove_duplicates df.
Proof.
  intros Hwf. set (R := remove_duplicates df).
  pose proof (DuplicateFacts.well_formed_remove_duplicates df Hwf) as HR.
  fold R in HR.
  destruct (index R) as [|l0 ls] eqn:Ei.
  { apply DuplicateFacts.remove_duplicates_empty. auto. }
  destruct (columns R) as [|c0 cs] eqn:Ec.
  { apply DuplicateFacts.remove_duplicates_empty. auto. }
  assert (Hc : columns df <> []).
  { intros C. unfold R in Ec.
    rewrite DuplicateFacts.remove_duplicates_empty in Ec by auto. congruence. }
  rewrite DuplicateFacts.remove_duplicates_take_rows by congruence.
  rewrite <- (OutlierFacts.take_rows_all R HR) at 3. f_equal.
  unfold duplicated. rewrite map_map. apply map_true_seq.
  intros i Hi. apply negb_true_iff.
  destruct (existsb _ (seq 0 i)) eqn:E; [|reflexivity].
  apply existsb_exists in E as [j [Hj E]]. apply in_seq in Hj.
  unfold R in E.
  rewrite DuplicateFacts.distinct_after_remove_duplicates in E;
    [discriminate | exact Hwf | exact Hc | lia | fold R; lia].
Qed.

Lemma remove_duplicates_idempotent_witness :
  let df := {| index := [0; 1; 2];
               columns := [("MOVIES", ObjCol [Str "a"; Str "a"; Str "b"])] |} in
  remove_duplicates (remove_duplicates df) = remove_duplicates df.
Proof.
  intros df. apply (remove_duplicates_idempotent df).
  unfold well_formed, names. simpl. repeat split.
  - repeat (constructor; [simpl; intuition discriminate|]). constructor.
  - repeat (constructor; [simpl; intuition discriminate|]). constructor.
  - repeat constructor.
Defined.

(** The two stages that remove rows keep the frame well formed: the labels
    stay distinct, the names stay distinct, and every column still has one
    cell per row. *)
Theorem row_filters_keep_well_formed (df : DataFrame) :
  well_formed df ->
  well_formed (remove_duplicates df) /\
  (forall out, remove_outliers df = Ok out -> well_formed out).
Proof.
  intros Hwf. split; [now apply DuplicateFacts.well_formed_remove_duplicates|].
  intros out Hout.
  destruct (numeric_columns (columns df)) as [|c cs] eqn:Ec.
  { unfold remove_outliers in Hout. rewrite Ec in Hout. simpl in Hout.
    now injection Hout as <-. }
  destruct (index df) as [|l0 ls] eqn:Ei.
  - unfold remove_outliers in Hout. rewrite Ec, Ei in Hout.
    cbn [List.length Nat.ltb Nat.leb seq repeat combine] in Hout.
    assert (E : forall l, mask_loop [] l [] = []).
    { assert (Hs : forall y, outlier_step [] [] y = []).
      { intros y. unfold outlier_step. now destruct (fence y) as [[a b]|]. }
      unfold mask_loop. induction l as [|a r IH]; simpl; [reflexivity|].
      now rewrite Hs. }
    rewrite E in Hout. unfold getitem_mask in Hout. injection Hout as <-.
    unfold well_formed, names. simpl. rewrite Ei. repeat split; constructor.
  - assert (Hi : index df <> []) by (rewrite Ei; discriminate).
    assert (Hn : numeric_columns (columns df) <> []) by (rewrite Ec; discriminate).
    rewrite (OutlierFacts.remove_outliers_rows df out Hwf Hi Hn Hout).
    apply SelectFacts.well_formed_take_rows; [exact Hwf|].
    now rewrite length_map, length_seq.
Qed.

Lemma row_filters_keep_well_formed_witness :
  let df := {| index := [0; 1; 2; 3];
               columns := [("RATING", NumCol [Some 1; Some 1; Some 2; Some 3]%Q)] |} in
  well_formed (remove_duplicates df) /\
  exists out, remove_outliers df = Ok out /\ well_formed out.
Proof.
  intros df.
  assert (Hwf : well_formed df).
  { unfold well_formed, names. simpl. repeat split.
    - repeat (constructor; [simpl; intuition discriminate|]). constructor.
    - repeat (constructor; [simpl; intuition discriminate|]). constructor.
    - repeat constructor. }
  destruct (row_filters_keep_well_formed df Hwf) as [H1 H2].
  split; [exact H1|].
  destruct (remove_outliers df) as [out|e] eqn:E;
    [|vm_compute in E; discriminate].
  exists out. split; [reflexivity | now apply H2].
Defined.

(* ----------------------------------------------------------------- *)
(** ** remove_outliers: when it raises, and what it keeps on fresh labels *)

Module OutlierErrors.
Import MaskFacts OutlierFacts.

Lemma mask_loop_no_fence labels cols :
  (forall col, In col cols -> fence (snd col) = None) ->
  forall m, mask_loop labels cols m = m.
Proof.
  unfold mask_loop. induction cols as [|c r IH]; intros H m; simpl;
    [reflexivity|].
  unfold outlier_step at 2. rewrite (H c) by (now left).
  apply IH. intros col Hc. apply H. now right.
Qed.

Lemma labels_step_fence labels m x lo hi :
  fence x = Some (lo, hi) ->
  List.length x = List.length labels ->
  forall l, In l labels -> In l (map fst (outlier_step labels m x)).
Proof.
  intros Hf Hlen l Hl. unfold outlier_step. rewrite Hf.
  rewrite labels_series_and. apply In_union. right.
  rewrite labels_combine by (now rewrite length_map). exact Hl.
Qed.

Lemma labels_mask_loop_fence labels cols :
  (forall col, In col cols -> List.length (snd col) = List.length labels) ->
  (exists col, In col cols /\ fence (snd col) <> None) ->
  forall m l, In l labels -> In l (map fst (mask_loop labels cols m)).
Proof.
  induction cols as [|c r IH]; intros Hlen [col [Hin Hf]] m l Hl;
    [contradiction|].
  unfold mask_loop. simpl. fold (mask_loop labels r (outlier_step labels m (snd c))).
  destruct (fence (snd c)) as [[lo hi]|] eqn:Ec.
  - apply labels_mask_loop.
    apply (labels_step_fence labels m (snd c) lo hi Ec); auto.
    apply Hlen. now left.
  - apply IH; auto.
    + intros col' Hc'. apply Hlen. now right.
    + exists col. split; [|exact Hf].
      destruct Hin as [<-|Hin]; [congruence | exact Hin].
Qed.


Lemma getitem_mask_nonempty mask df :
  mask <> [] ->
  getitem_mask mask df =
  match reindex (index df) mask with
  | Some keep => Ok (take_rows keep df)
  | None => Raise IndexingError
  end.
Proof. destruct mask; [congruence | reflexivity]. Qed.

Lemma forallb_false_exists {A : Type} (f : A -> bool) l :
  forallb f l = false -> exists a, In a l /\ f a = false.
Proof.
  induction l as [|a r IH]; simpl; [discriminate|].
  destruct (f a) eqn:E; simpl.
  - intros H. destruct (IH H) as [b [Hb Eb]]. exists b. auto.
  - intros _. exists a. auto.
Qed.

End OutlierErrors.

(** [remove_outliers] raises only [IndexingError], and on a well-formed
    frame exactly when there is a numeric column, no numeric column has a
    fence (no IQR above zero), and some row label is not below the number of
    rows: the mask then still carries the labels 0, 1, ..., n-1 only. *)
Theorem remove_outliers_indexing_error (df : DataFrame) :
  well_formed df ->
  (forall e, remove_outliers df = Raise e -> e = IndexingError) /\
  (remove_outliers df = Raise IndexingError <->
   numeric_columns (columns df) <> [] /\
   (forall col, In col (numeric_columns (columns df)) -> fence (snd col) = None) /\
   exists l, In l (index df) /\ List.length (index df) <= l).
Proof.
  intros Hwf.
  destruct (numeric_columns (columns df)) as [|c cs] eqn:Ec.
  { unfold remove_outliers. rewrite Ec. simpl.
    split; [discriminate|]. split; [discriminate | intros [C _]; congruence]. }
  unfold remove_outliers. rewrite Ec. cbn [List.length Nat.ltb Nat.leb].
  rewrite <- Ec. set (n := List.length (index df)).
  set (mask0 := combine (seq 0 n) (repeat true n)).
  assert (Hdom0 : map fst mask0 = seq 0 n)
    by (apply MaskFacts.labels_combine; now rewrite length_seq, repeat_length).
  assert (Hlen : forall col, In col (numeric_columns (columns df)) ->
                             List.length (snd col) = List.length (index df)).
  { intros [k x] Hin. now apply (OutlierFacts.numeric_column_length df k x). }
  assert (Hnum : numeric_columns (columns df) <> []) by (rewrite Ec; discriminate).
  destruct (forallb (fun col => match fence (snd col) with
                                | None => true
                                | Some _ => false
                                end) (numeric_columns (columns df))) eqn:Ef.
  - (* no column has a fence *)
    assert (Hnone : forall col, In col (numeric_columns (columns df)) ->
                                fence (snd col) = None).
    { intros col Hin. rewrite forallb_forall in Ef. specialize (Ef col Hin).
      now destruct (fence (snd col)). }
    rewrite (OutlierErrors.mask_loop_no_fence _ _ Hnone).
    destruct (Nat.eq_dec n 0) as [Hz|Hnz].
    + (* no row *)
      assert (Hnil : index df = []) by (now apply length_zero_iff_nil).
      unfold mask0. rewrite Hz. simpl.
      split; [discriminate|]. split; [discriminate|].
      intros (_ & _ & l & Hl & _). rewrite Hnil in Hl. contradiction.
    + assert (Hne : mask0 <> []).
      { intros C. rewrite C in Hdom0. simpl in Hdom0.
        destruct n; [congruence | discriminate]. }
      rewrite (OutlierErrors.getitem_mask_nonempty _ _ Hne).
      destruct (existsb (fun l => n <=? l) (index df)) eqn:Ex.
      * apply existsb_exists in Ex as [l [Hl Hge]]. apply Nat.leb_le in Hge.
        rewrite (MaskFacts.reindex_missing (index df) mask0 l Hl).
        -- split; [now intros e [= <-]|]. split; [|reflexivity].
           intros _. split; [exact Hnum|]. split; [exact Hnone|]. eauto.
        -- rewrite Hdom0, in_seq. lia.
      * rewrite MaskFacts.reindex_total.
        -- split; [discriminate|]. split; [discriminate|].
           intros (_ & _ & l & Hl & Hge).
           assert (C : existsb (fun l => n <=? l) (index df) = true).
           { apply existsb_exists. exists l. split; [exact Hl|].
             now apply Nat.leb_le. }
           congruence.
        -- intros l Hl. rewrite Hdom0, in_seq.
           destruct (Nat.le_gt_cases n l) as [Hge|Hlt]; [|lia].
           exfalso.
           assert (C : existsb (fun l => n <=? l) (index df) = true).
           { apply existsb_exists. exists l. split; [exact Hl|].
             now apply Nat.leb_le. }
           congruence.
  - (* some column has a fence: the mask covers the labels of the frame *)
    assert (Hsome : exists col, In col (numeric_columns (columns df)) /\
                                fence (snd col) <> None).
    { destruct (OutlierErrors.forallb_false_exists
                  (fun col => match fence (snd col) with
                              | None => true
                              | Some _ => false
                              end) (numeric_columns (columns df)) Ef)
        as [col [Hin Hc]].
      exists col. split; [exact Hin|]. intros C. now rewrite C in Hc. }
    assert (Hnot : ~ (forall col, In col (numeric_columns (columns df)) ->
                                  fence (snd col) = None)).
    { intros C. destruct Hsome as [col [Hin Hc]]. now apply Hc, C. }
    set (mask := mask_loop _ _ mask0).
    assert (Hcover : forall l, In l (index df) -> In l (map fst mask))
      by (intros l Hl; now apply OutlierErrors.labels_mask_loop_fence).
    unfold getitem_mask. destruct mask as [|p m'] eqn:Em.
    + split; [discriminate|]. split; [discriminate|]. intros (_ & C & _).
      contradiction.
    + rewrite (MaskFacts.reindex_total _ _ Hcover).
      split; [discriminate|]. split; [discriminate|]. intros (_ & C & _).
      contradiction.
Qed.

Lemma remove_outliers_indexing_error_witness :
  let df := {| index := [0; 2];
               columns := [("MOVIES", ObjCol [Str "a"; Str "b"]);
                           ("RATING", NumCol [Some 5; Some 5]%Q)] |} in
  remove_outliers df = Raise IndexingError.
Proof.
  intros df.
  assert (Hwf : well_formed df).
  { unfold well_formed, names. simpl. repeat split.
    - repeat (constructor; [simpl; intuition discriminate|]). constructor.
    - repeat (constructor; [simpl; intuition discriminate|]). constructor.
    - repeat constructor. }
  apply (proj2 (remove_outliers_indexing_error df Hwf)).
  split; [discriminate|]. split.
  - intros col [<-|[]]. reflexivity.
  - exists 2. split; [simpl; auto | simpl; lia].
Defined.



(* ----------------------------------------------------------------- *)
(** ** Median and quartiles stay within the observed values *)

Module RangeFacts.
Import Stats.

Local Open Scope Q_scope.

Lemma In_insert a b l : In a (insert b l) <-> a = b \/ In a l.
Proof.
  induction l as [|c r IH]; simpl; [intuition|].
  destruct (Qle_bool b c); simpl; [intuition|].
  rewrite IH. intuition.
Qed.

Lemma In_sort a l : In a (sort l) <-> In a l.
Proof.
  induction l as [|b r IH]; simpl; [tauto|].
  rewrite In_insert, IH. intuition.
Qed.

Lemma In_dropna a x : In a (dropna x) <-> In (Some a) x.
Proof.
  induction x as [|[q|] r IH]; simpl; [tauto | |].
  - rewrite IH. split; intros [H|H]; auto; [left; congruence|].
    left. congruence.
  - rewrite IH. split; [auto|]. intros [H|H]; [discriminate | exact H].
Qed.

(** The smallest and the largest observed value bound every element of the
    sorted values. *)
Lemma sorted_values_bounds x k :
  List.length (sort (dropna x)) = S k ->
  let v := sort (dropna x) in
  In (Some (nth 0 v 0)) x /\ In (Some (nth k v 0)) x /\
  forall i, (i <= k)%nat -> nth 0 v 0 <= nth i v 0 /\ nth i v 0 <= nth k v 0.
Proof.
  intros Hlen v. fold v in Hlen. split; [|split].
  - apply In_dropna, In_sort. apply nth_In. fold v. lia.
  - apply In_dropna, In_sort. apply nth_In. fold v. lia.
  - intros i Hi. pose proof (QuantileFacts.sort_sorted (dropna x)) as Hs.
    fold v in Hs. split; apply QuantileFacts.sorted_nth; auto; lia.
Qed.

End RangeFacts.

(** The median and every quantile of a column lie between two of its
    observed values: what [fillna] writes into the gaps, and the quartiles the
    fences are built from, never leave the range of the data. *)
Theorem statistics_within_observed_range (x : list (option Q)) :
  (forall m, Stats.median x = Some m ->
     exists a b, In (Some a) x /\ In (Some b) x /\ (a <= m)%Q /\ (m <= b)%Q) /\
  (forall q v, (0 <= q)%Q -> (q <= 1)%Q -> Stats.quantile q x = Some v ->
     exists a b, In (Some a) x /\ In (Some b) x /\ (a <= v)%Q /\ (v <= b)%Q).
Proof.
  split.
  - intros m. unfold Stats.median.
    destruct (List.length (Stats.sort (Stats.dropna x))) as [|k] eqn:En;
      [discriminate|].
    destruct (RangeFacts.sorted_values_bounds x k En) as (Ha & Hb & Hbnd).
    set (v := Stats.sort (Stats.dropna x)) in *.
    assert (Hhalf : (S k / 2 <= k)%nat).
    { apply Nat.lt_succ_r. apply Nat.div_lt; lia. }
    set (h := (S k / 2)%nat) in *. clearbody h.
    intros Hm.
    exists (nth 0 v 0%Q), (nth k v 0%Q). split; [exact Ha|]. split; [exact Hb|].
    destruct (Nat.odd (S k)); injection Hm as <-.
    + apply Hbnd. exact Hhalf.
    + destruct (Hbnd h Hhalf) as [H1 H2].
      destruct (Hbnd (h - 1)%nat) as [H3 H4]; [lia|].
      split.
      * apply Qle_shift_div_l; [reflexivity | lra].
      * apply Qle_shift_div_r; [reflexivity | lra].
  - intros q v Hq0 Hq1. unfold Stats.quantile.
    destruct (List.length (Stats.sort (Stats.dropna x))) as [|k] eqn:En;
      [discriminate|].
    intros [= <-].
    destruct (RangeFacts.sorted_values_bounds x k En) as (Ha & Hb & Hbnd).
    set (s := Stats.sort (Stats.dropna x)) in *.
    pose proof (ScaleFacts.Qnat_nonneg k) as Hk.
    destruct (QuantileFacts.interpolate_bounds s (q * Stats.Qnat k))
      as (Hlo & H1 & H2).
    + apply QuantileFacts.sort_sorted.
    + nra.
    + rewrite En. simpl. rewrite Nat.sub_0_r. nra.
    + lia.
    + rewrite En in Hlo, H2.
      replace (S k - 1)%nat with k in Hlo, H2 by lia.
      exists (nth 0 s 0%Q), (nth k s 0%Q). split; [exact Ha|]. split; [exact Hb|].
      destruct (Hbnd _ Hlo) as [B1 _].
      destruct (Hbnd (Nat.min (Z.to_nat (Qfloor (q * Stats.Qnat k)) + 1) k))
        as [_ B2]; [lia|].
      split; lra.
Qed.

Lemma statistics_within_observed_range_witness :
  let x := [Some 4; None; Some 1; Some 9]%Q in
  exists m a b, Stats.median x = Some m /\
                In (Some a) x /\ In (Some b) x /\ (a <= m)%Q /\ (m <= b)%Q.
Proof.
  intros x. exists 4%Q.
  destruct (proj1 (statistics_within_observed_range x) 4%Q eq_refl)
    as (a & b & H).
  exists a, b. split; [reflexivity | exact H].
Defined.

(* ----------------------------------------------------------------- *)
(** ** The files after a run *)

Section Files.

Context {lib : Library}.

Lemma read_write_same path text fs :
  read_file path (write_file path text fs) = Some text.
Proof. unfold write_file. simpl. now rewrite String.eqb_refl. Qed.

Lemma read_write_other path path' text fs :
  path' <> path -> read_file path' (write_file path text fs) = read_file path' fs.
Proof.
  intros Hne. unfold write_file. simpl.
  destruct (String.eqb_spec path path') as [E|_]; [congruence|].
  induction fs as [|[p t] r IH]; simpl; [reflexivity|].
  destruct (String.eqb_spec p path) as [->|Hp]; simpl.
  - destruct (String.eqb_spec path path'); [congruence | exact IH].
  - now rewrite IH.
Qed.

End Files.

(** A run reads the input file and writes at most the output file: whatever
    the outcome, every other path, the input among them, reads as before;
    and after a run that succeeded the output path holds the text of the
    frame the last stage returned. *)
Theorem main_touches_only_the_output (lib : Library) (fs fs' : file_system)
    (r : result unit) :
  main fs = (r, fs') ->
  (forall path, path <> output_path -> read_file path fs' = read_file path fs) /\
  read_file input_path fs' = read_file input_path fs /\
  (r = Ok tt ->
   exists df0 df,
     load_data input_path fs = Ok df0 /\ clean df0 = Ok df /\
     read_file output_path fs' = Some (to_csv (columns df))).
Proof.
  unfold main.
  destruct (load_data input_path fs) as [df0|e] eqn:E0; simpl.
  - destruct (clean df0) as [df|e] eqn:E1; intros [= <- <-].
    + unfold save_cleaned_data.
      split; [intros path Hp; now apply read_write_other|].
      split; [apply read_write_other; discriminate|].
      intros _. exists df0, df. split; [reflexivity|]. split; [exact E1|].
      apply read_write_same.
    + split; [reflexivity|]. split; [reflexivity | discriminate].
  - intros [= <- <-]. split; [reflexivity|]. split; [reflexivity | discriminate].
Qed.

Lemma main_touches_only_the_output_witness :
  let fs := [("movies.csv", "MOVIES,RATING
a,1
b,3
"); ("cleaned_movies_data.csv", "old"); ("notes.txt", "keep me")] in
  read_file "notes.txt" (snd (@main Reference.library fs)) = Some "keep me" /\
  read_file input_path (snd (@main Reference.library fs)) = read_file input_path fs.
Proof.
  intros fs.
  destruct (main_touches_only_the_output Reference.library fs
              (snd (@main Reference.library fs)) (fst (@main Reference.library fs)))
    as (H1 & H2 & _).
  - now destruct (@main Reference.library fs).
  - split; [|exact H2]. rewrite H1 by discriminate. reflexivity.
Defined.

(* ----------------------------------------------------------------- *)
(** ** The characters of a cleaned name *)

(** A cleaned column name holds no blank, no hyphen and no lower-case
    letter: each of its ASCII characters is an upper-case letter, a digit or
    the underscore.  That it is a letter, a digit or the underscore holds
    whatever the name; that a letter is upper-case holds for a name that is
    an ASCII text and, for a name of any script, because the characters of
    an upper-case form are their own upper-case forms. *)
Theorem clean_name_characters (lib : Library) (s : string) :
  Text.all_chars (fun c => Text.is_word c || (128 <=? nat_of_ascii c))
    (clean_name s) /\
  (Text.all_chars Text.is_ascii s \/ upper_is_stable ->
   Text.all_chars
     (fun c => Text.is_upper c || Text.is_digit c || Ascii.eqb c "_"%char
               || (128 <=? nat_of_ascii c))
     (clean_name s)).
Proof.
  split.
  - apply text_bytes, clean_name_word_chars.
  - intros H. now apply text_bytes, clean_name_settled_chars.
Qed.

Lemma clean_name_characters_witness :
  Text.all_chars
    (fun c => Text.is_upper c || Text.is_digit c || Ascii.eqb c "_"%char
              || (128 <=? nat_of_ascii c))
    (@clean_name Reference.library
       (" one-line: caf" ++ Reference.e_acute ++ " " ++ Reference.sharp_s)%string).
Proof.
  apply (proj2 (clean_name_characters Reference.library _)).
  right. exact ReferenceTables.reference_upper_is_stable.
Defined.

(* ----------------------------------------------------------------- *)
(** ** Frames that need no cleaning *)

Lemma fillna_without_gaps v x : ~ In None x -> Stats.fillna v x = x.
Proof.
  intros H. unfold Stats.fillna. rewrite <- (map_id x) at 2.
  apply map_ext_in. intros [q|] Hc; [reflexivity | contradiction].
Qed.

(** A numeric column of the recognized set that has no gap leaves
    [handle_missing_values] as it came.  For VOTES, which is turned into text
    and parsed again, this needs the library to read back, once the commas
    are removed, the number it printed. *)
Theorem handle_missing_values_clean_numeric (lib : Library) (df : DataFrame)
    (col : string) (x : list (option Q)) :
  NoDup (map str_strip (names df)) ->
  In col potential_num_cols ->
  getitem col (dropna_columns (rename str_strip df)) = Some (NumCol x) ->
  ~ In None x ->
  (col = "VOTES" ->
   forall q, In (Some q) x ->
     to_numeric_str (Text.remove_char ","%char (num_repr q)) = Some q) ->
  getitem col (handle_missing_values df) = Some (NumCol x).
Proof.
  intros _ Hcol Hget Hfull Hvotes.
  rewrite handle_missing_values_getitem by exact Hcol. rewrite Hget. simpl.
  assert (E : coerce col (NumCol x) = NumCol x).
  { unfold coerce. destruct (String.eqb_spec col "VOTES") as [Hv|_];
      [|reflexivity].
    f_equal. unfold astype_str, str_series. simpl. rewrite !map_map.
    rewrite <- (map_id x) at 2. apply map_ext_in.
    intros [q|] Hq; [|contradiction]. simpl. now apply Hvotes. }
  rewrite E. simpl. now rewrite fillna_without_gaps.
Qed.

Lemma handle_missing_values_clean_numeric_witness :
  let df := {| index := [0; 1];
               columns := [("VOTES", NumCol [Some 1234; Some 500]%Q);
                           ("RATING", NumCol [Some (15 # 2); Some 8]%Q)] |} in
  getitem "VOTES" (@handle_missing_values Reference.library df)
  = Some (NumCol [Some 1234; Some 500]%Q) /\
  getitem "RATING" (@handle_missing_values Reference.library df)
  = Some (NumCol [Some (15 # 2); Some 8]%Q).
Proof.
  intros df.
  assert (Hnd : NoDup (map (@str_strip Reference.library) (names df))).
  { simpl. repeat (constructor; [simpl; intuition discriminate|]). constructor. }
  split.
  - apply (handle_missing_values_clean_numeric Reference.library df "VOTES"
             [Some 1234; Some 500]%Q Hnd).
    + simpl. auto.
    + reflexivity.
    + simpl. intuition discriminate.
    + intros _ q [[= <-]|[[= <-]|[]]]; vm_compute; reflexivity.
  - apply (handle_missing_values_clean_numeric Reference.library df "RATING"
             [Some (15 # 2); Some 8]%Q Hnd).
    + simpl. auto.
    + reflexivity.
    + simpl. intuition discriminate.
    + discriminate.
Defined.

(** A well-formed frame in which no two rows are equal is returned by
    [remove_duplicates] as it is. *)
Theorem remove_duplicates_without_duplicates (df : DataFrame) :
  well_formed df ->
  (forall a b, a < b -> b < List.length (index df) ->
               row_eqb (row df a) (row df b) = false) ->
  remove_duplicates df = df.
Proof.
  intros Hwf Hdist.
  assert (Hcases : index df = [] \/ columns df = [] \/
                   (index df <> [] /\ columns df <> [])).
  { destruct (index df), (columns df); auto.
    right. right. split; discriminate. }
  destruct Hcases as [H|[H|[Hi Hc]]];
    [apply DuplicateFacts.remove_duplicates_empty; now left
    |apply DuplicateFacts.remove_duplicates_empty; now right|].
  rewrite (DuplicateFacts.remove_duplicates_take_rows df Hi Hc).
  transitivity (take_rows (repeat true (List.length (index df))) df);
    [|now apply OutlierFacts.take_rows_all].
  f_equal. unfold duplicated. rewrite map_map. apply map_true_seq.
  intros i Hb. apply negb_true_iff.
  destruct (existsb _ (seq 0 i)) eqn:E; [|reflexivity].
  apply existsb_exists in E as [j [Hj E]]. apply in_seq in Hj.
  rewrite Hdist in E; [discriminate | lia | lia].
Qed.

Lemma remove_duplicates_without_duplicates_witness :
  let df := {| index := [0; 1];
               columns := [("MOVIES", ObjCol [Str "a"; Str "b"])] |} in
  remove_duplicates df = df.
Proof.
  intros df. apply (remove_duplicates_without_duplicates df).
  - unfold well_formed, names. simpl. repeat split.
    + repeat (constructor; [simpl; intuition discriminate|]). constructor.
    + repeat (constructor; [simpl; intuition discriminate|]). constructor.
    + repeat constructor.
  - intros a b Hab Hb. simpl in Hb.
    assert (a = 0 /\ b = 1) as [-> ->] by lia. reflexivity.
Defined.

(* ----------------------------------------------------------------- *)
(** ** How the stages compose *)

Section Composition.

Context {lib : Library}.

(** What [scale_features] leaves in a column, when it returns. *)
Lemma getitem_scale_features df out col :
  scale_features df = Ok out ->
  getitem col out =
  match getitem col df with
  | Some (NumCol x) =>
      if Text.endswith col "_ENCODED" then Some (NumCol x)
      else Some (NumCol (standard_scale x))
  | other => other
  end.
Proof.
  unfold scale_features. set (cols := filter _ _).
  assert (Hin : forall x, getitem col df = Some (NumCol x) ->
                          (In col cols <-> Text.endswith col "_ENCODED" = false)).
  { intros x Hx. unfold cols. rewrite filter_In, negb_true_iff.
    split; [tauto|]. intros H. split; [|exact H].
    now apply assoc_numeric_columns with (x := x). }
  destruct (0 <? List.length cols) eqn:E.
  - destruct (index df); [discriminate|]. intros [= <-].
    rewrite getitem_scale_loop.
    destruct (getitem col df) as [[x|x]|] eqn:Hg; try reflexivity.
    destruct (in_dec string_dec col cols) as [H|H].
    + apply (Hin x eq_refl) in H. now rewrite H.
    + destruct (Text.endswith col "_ENCODED") eqn:Ee; [reflexivity|].
      exfalso. apply H. now apply (Hin x eq_refl).
  - intros [= <-].
    destruct (getitem col df) as [[x|x]|] eqn:Hg; try reflexivity.
    destruct (Text.endswith col "_ENCODED") eqn:Ee; [reflexivity|].
    exfalso. assert (H : In col cols) by (now apply (Hin x eq_refl)).
    apply Nat.ltb_ge in E. destruct cols; [contradiction | simpl in E; lia].
Qed.

Lemma getitem_encode_movies df :
  NoDup (names df) ->
  getitem "MOVIES" (encode_categorical df) = getitem "MOVIES" df.
Proof.
  intros Hnd. unfold encode_categorical.
  rewrite getitem_encode_loop
    by (apply NoDup_filter, object_columns_NoDup; exact Hnd).
  destruct (in_dec string_dec "MOVIES" _) as [Hin|_]; [|reflexivity].
  apply filter_In in Hin as [_ Hin]. discriminate.
Qed.

Lemma getitem_encode_dtype df col s :
  NoDup (names df) ->
  getitem col (encode_categorical df) = Some s ->
  col <> "MOVIES" -> exists x, s = NumCol x.
Proof.
  intros Hnd Hget Hcol. unfold encode_categorical in Hget.
  rewrite getitem_encode_loop in Hget
    by (apply NoDup_filter, object_columns_NoDup; exact Hnd).
  destruct (in_dec string_dec col _) as [_|Hout].
  - destruct (getitem col df) as [s0|]; [|discriminate].
    unfold encode_outcome in Hget. destruct (1 <? nunique s0); [|discriminate].
    injection Hget as <-. unfold encoded. eauto.
  - destruct s as [x|x]; [eauto|].
    exfalso. apply Hout. apply filter_In. split.
    + now apply assoc_object_column with (x := x).
    + apply negb_true_iff. now apply String.eqb_neq.
Qed.

End Composition.

(** After encoding and scaling, every column other than MOVIES is numeric,
    and a MOVIES column of dtype object holds the titles it held before the
    two stages. *)
Theorem encoded_and_scaled_frame (lib : Library) (df out : DataFrame) :
  NoDup (names df) ->
  scale_features (encode_categorical df) = Ok out ->
  (forall col s, getitem col out = Some s -> col <> "MOVIES" ->
                 exists x, s = NumCol x) /\
  (forall x, getitem "MOVIES" df = Some (ObjCol x) ->
             getitem "MOVIES" out = Some (ObjCol x)).
Proof.
  intros Hnd Hout. split.
  - intros col s Hget Hcol.
    rewrite (getitem_scale_features _ out col Hout) in Hget.
    destruct (getitem col (encode_categorical df)) as [[x|x]|] eqn:He.
    + destruct (Text.endswith col "_ENCODED"); injection Hget as <-; eauto.
    + destruct (getitem_encode_dtype df col (ObjCol x) Hnd He Hcol) as [y Hy].
      discriminate.
    + discriminate.
  - intros x Hx.
    rewrite (getitem_scale_features _ out "MOVIES" Hout).
    now rewrite (getitem_encode_movies df Hnd), Hx.
Qed.

Lemma encoded_and_scaled_frame_witness :
  let df := {| index := [0; 1];
               columns := [("MOVIES", ObjCol [Str "a"; Str "b"]);
                           ("GENRE", ObjCol [Str "x"; Str "y"]);
                           ("STARS", ObjCol [Str "z"; Str "z"])] |} in
  exists out,
    @scale_features Reference.library (@encode_categorical Reference.library df)
    = Ok out /\
    getitem "MOVIES" out = Some (ObjCol [Str "a"; Str "b"]) /\
    forall col s, getitem col out = Some s -> col <> "MOVIES" ->
                  exists x, s = NumCol x.
Proof.
  intros df.
  assert (Hnd : NoDup (names df)).
  { simpl. repeat (constructor; [simpl; intuition discriminate|]). constructor. }
  destruct (@scale_features Reference.library
              (@encode_categorical Reference.library df)) as [out|e] eqn:E;
    [|vm_compute in E; discriminate].
  destruct (encoded_and_scaled_frame Reference.library df out Hnd E) as [H1 H2].
  exists out. split; [reflexivity|]. split; [now apply H2 | exact H1].
Defined.

Lemma fit_transform_ranks_witness :
  let x := [Some "Drama"; None; Some "Action"; Some "Drama"] in
  let texts := classes (present x) in
  position "Action" texts < position "Drama" texts /\
  nth_error (fit_transform x) 1 = Some 2 /\
  (In 2 (fit_transform x) <-> 2 < 3).
Proof.
  intros x texts. destruct (fit_transform_ranks x) as (_ & H2 & H3 & _ & H5).
  split; [|split; [exact (H3 1 eq_refl) | exact (H5 2)]].
  apply (H2 "Action" "Drama"); [simpl; auto | simpl; auto | reflexivity].
Defined.
